(** * Keyva: the interpreter of [main.c] and [kvstdlib.c]

    A shallow embedding of the keyva interpreter.  The evaluator:
    the value model (associative arrays, variables, evaluation results),
    the environment (the [variables] table, [variable_count] and the
    scope stack), expression evaluation, statement execution, user
    function calls and the built-in library.  The front end: the lexer,
    the parser and the driver that runs a script.

    Modelling conventions.
    - A C [double] is an IEEE-754 binary64 value, [spec_float] with
      precision 53 and maximal exponent 1024; arithmetic and comparisons
      are the Standard Library's exact specifications of the IEEE
      operations.
    - The two text conversions of the C library that the evaluator uses,
      [atof] and [snprintf] with format [%g], are an interface
      ([LibC]); the properties hold for every implementation of it.  A
      reference implementation ([RefLibC]) is used to run programs.
    - C strings are [string]s; buffers are assumed large enough
      ([MAX_TOKEN_LENGTH] bounds every lexeme the lexer produces).
    - The [pairs] buffer of an associative array is owned by the array
      and is modelled by its contents: the initialised cells in order,
      with [capacity] kept beside them.  Pointers to a variable's array
      ([&var->array]) are modelled as the index of the variable's slot,
      so that reads through such a pointer see later updates of the slot.
    - [push_scope] and [pop_scope] copy the variable table with
      [memcpy], which shares the [pairs] buffers between the table and
      the saved copy.  Here the saved copy holds the contents.  The two
      agree as long as no store goes through a slot above
      [variable_count] that an earlier frame left behind; no property
      below depends on such a store.
    - Standard output is the list of the lines written so far; the
      debugging output is compiled out ([NDEBUG] is defined).
    - The functions recurse on a [fuel] argument; [OutOfFuel] means that
      the fuel did not suffice, and [Undefined] that the C program has
      no defined behaviour at that point: a store into an array without
      room, more than [MAX_FUNC_PARAMS] arguments, [key] of an empty
      array, a conversion to [int] out of range, a remainder by zero,
      [strcpy] of a loop variable's name onto itself, and an expression
      node for which [evaluate_expression] returns no value.
    - The array of tokens is the list of the tokens written so far.  A
      token beyond the cells of the array, a lexeme beyond its buffer
      and a script beyond the buffer of [main] are [Undefined], and so
      is the read of a token beyond those of the text where the source
      does not compare the position with their number.
    - A parsing function takes the position and returns the node, if
      any, and the new position.  [free_ast] is not modelled: it only
      releases memory, provided that the links which the parser leaves
      unset in the nodes of expressions are null, as they are here.
    - Of [main], the run of a script is modelled from the text of the
      file on; the interactive loop is not. *)

From Stdlib Require Import Bool Arith ZArith List String Ascii Lia.
From Stdlib Require Import Floats.SpecFloat.
Import ListNotations.

Set Implicit Arguments.

Notation "a +++ b" := (String.append a b) (at level 60, right associativity).

(** ** Numbers: C [double] and [int] *)

Module Double.

Definition double : Type := spec_float.

Definition prec : Z := 53.
Definition emax : Z := 1024.

Definition add : double -> double -> double := SFadd prec emax.
Definition sub : double -> double -> double := SFsub prec emax.
Definition mul : double -> double -> double := SFmul prec emax.
Definition div : double -> double -> double := SFdiv prec emax.

Definition eqb : double -> double -> bool := SFeqb.
Definition ltb : double -> double -> bool := SFltb.
Definition leb : double -> double -> bool := SFleb.

(** Conversion of an [int] to [double] (exact for every [int]). *)
Definition of_int (z : Z) : double := binary_normalize prec emax z 0 false.

Definition zero : double := of_int 0.
Definition one : double := of_int 1.

Definition INT_MIN : Z := - 2 ^ 31.
Definition INT_MAX : Z := 2 ^ 31 - 1.

(** The integer part of a finite double, rounded toward zero. *)
Definition truncate (d : double) : option Z :=
  match d with
  | S754_zero _ => Some 0%Z
  | S754_finite s m e =>
      let magnitude := Z.shiftl (Zpos m) e in
      Some (if s then Z.opp magnitude else magnitude)
  | S754_infinity _ | S754_nan => None
  end.

(** The cast [(int) d]: truncation toward zero; the behaviour is
    undefined ([None]) when the truncated value is not an [int]. *)
Definition to_int (d : double) : option Z :=
  match truncate d with
  | Some z => if (INT_MIN <=? z)%Z && (z <=? INT_MAX)%Z then Some z else None
  | None => None
  end.


(** The C operator [%] on [int]: undefined for a zero divisor and for
    [INT_MIN % -1]; otherwise the remainder of the division that
    truncates toward zero. *)
Definition int_rem (a b : Z) : option Z :=
  if (b =? 0)%Z then None
  else if (a =? INT_MIN)%Z && (b =? -1)%Z then None
  else Some (Z.rem a b).

End Double.

Abbreviation double := Double.double.

(** ** The C library's text conversions *)

Class LibC : Type := {
  (** [atof(text)] *)
  atof : string -> double;
  (** the text written by [snprintf(buf, MAX_TOKEN_LENGTH, "%g", d)] and
      by [printf("%g", d)] *)
  format_g : double -> string
}.

(** ** Constants of the program *)

Definition MAX_FUNC_PARAMS : nat := 10.
Definition MAX_VARIABLES : nat := 100.
Definition MAX_SCOPES : nat := 100.

(** ** Syntax trees ([kvlang_internals.h]) *)

Inductive EvalContext : Type :=
  | EVAL_ARITHMETIC
  | EVAL_PRINT.

Inductive OperatorType : Type :=
  | OP_ADD
  | OP_SUBTRACT
  | OP_MULTIPLY
  | OP_DIVIDE
  | OP_LESS_THAN
  | OP_GREATER_THAN
  | OP_EQUAL
  | OP_NOT_EQUAL
  | OP_LESS_EQUAL
  | OP_GREATER_EQUAL.

(** A node carries the three links of the C struct ([left], [right],
    [nextblock]) and the member of the union [data] selected by its
    [type]; the constructors of [ASTData] are the values of
    [ASTNodeType] with the payload that the evaluator reads for them.
    A null link is [None]. *)
#[warnings="-register-all"]
Inductive ASTNode : Type :=
  | mkASTNode (left right nextblock : option ASTNode) (data : ASTData)
with ASTData : Type :=
  | AST_PRINT
  | AST_LITERAL (string_value : string)
  | AST_IDENTIFIER (identifier : string)
  | AST_ASSIGNMENT
  | AST_ARRAY_ACCESS (identifier : string)
  | AST_BINARY_OP (operator : OperatorType)
  | AST_IF_STATEMENT (condition then_branch else_branch : option ASTNode)
  | AST_BLOCK
  | AST_FOR_STATEMENT (loop_var : string) (expression body : option ASTNode)
  | AST_WHILE_STATEMENT (condition body : option ASTNode)
  | AST_FUNCTION_DEFINITION (name : string) (parameters body : option ASTNode)
  | AST_FUNCTION_CALL (name : string) (arguments : option ASTNode)
  | AST_RETURN_STATEMENT (expression : option ASTNode).

Definition node_left (n : ASTNode) : option ASTNode :=
  match n with mkASTNode l _ _ _ => l end.
Definition node_right (n : ASTNode) : option ASTNode :=
  match n with mkASTNode _ r _ _ => r end.
Definition node_nextblock (n : ASTNode) : option ASTNode :=
  match n with mkASTNode _ _ nb _ => nb end.
Definition node_data (n : ASTNode) : ASTData :=
  match n with mkASTNode _ _ _ d => d end.

(** The numeric value of [node->type], as the diagnostics print it. *)
Definition node_type (n : ASTNode) : nat :=
  match node_data n with
  | AST_PRINT => 0
  | AST_LITERAL _ => 1
  | AST_IDENTIFIER _ => 2
  | AST_ASSIGNMENT => 3
  | AST_ARRAY_ACCESS _ => 4
  | AST_BINARY_OP _ => 5
  | AST_IF_STATEMENT _ _ _ => 6
  | AST_BLOCK => 7
  | AST_FOR_STATEMENT _ _ _ => 8
  | AST_WHILE_STATEMENT _ _ => 9
  | AST_FUNCTION_DEFINITION _ _ _ => 10
  | AST_FUNCTION_CALL _ _ => 11
  | AST_RETURN_STATEMENT _ => 12
  end.

(** [node->data.identifier]: the character array at the start of the
    union, which the members [string_value], [identifier],
    [func_def.name], [func_call.name] and [for_stmt.loop_var] share.
    For the other members the bytes read are not a string of the
    program ([None]). *)
Definition data_identifier (n : ASTNode) : option string :=
  match node_data n with
  | AST_LITERAL s | AST_IDENTIFIER s | AST_ARRAY_ACCESS s => Some s
  | AST_FOR_STATEMENT s _ _ => Some s
  | AST_FUNCTION_DEFINITION s _ _ => Some s
  | AST_FUNCTION_CALL s _ => Some s
  | _ => None
  end.

(** ** Values *)

Record KeyValuePair : Type := mkPair { key : string; value : string }.

(** [size] is the length of [pairs]. *)
Record AssocArray : Type := mkArray { pairs : list KeyValuePair; capacity : nat }.

Definition size (array : AssocArray) : nat := List.length (pairs array).

(** The C struct [Variable]. *)
Record KVariable : Type := mkVariable { var_name : string; var_array : AssocArray }.

(** Where an [AssocArray *] of an evaluation result points: into the
    [variables] table ([&variables[i].array]), or to a copy that no
    variable owns (made by a return statement, or the temporary array
    of a for loop). *)
Inductive ArrayPointer : Type :=
  | InVariable (index : nat)
  | Detached (contents : AssocArray).

Inductive EvalResult : Type :=
  | RESULT_STRING (string_value : string)
  | RESULT_NUMBER (number_value : double)
  | RESULT_ASSOC_ARRAY (array_value : ArrayPointer).

Record FunctionReturn : Type :=
  mkReturn { has_return : bool; return_value : EvalResult }.

Record FunctionEntry : Type :=
  mkFunction { fn_name : string; fn_parameters : option ASTNode; fn_body : option ASTNode }.

(** The global state of the interpreter.  [variables] lists the slots of
    the table from index 0; the slots past the end of the list are the
    zero-initialised ones.  [scope_stack] holds the saved tables and
    counts, innermost first; its length is [scope_depth]. *)
Record State : Type := mkState {
  functions : list FunctionEntry;
  variables : list KVariable;
  variable_count : nat;
  scope_stack : list (list KVariable * nat);
  output : list string
}.

Definition scope_depth (st : State) : nat := List.length (scope_stack st).
Definition function_count (st : State) : nat := List.length (functions st).

(** ** Associative arrays ([main.c], lines 195-243) *)

Definition init_assoc_array : AssocArray := mkArray [] 4.

(** [free_assoc_array] leaves a null buffer, size 0 and capacity 0; this
    is also the value of an array in zero-initialised memory. *)
Definition free_assoc_array (array : AssocArray) : AssocArray := mkArray [] 0.

Definition duplicate_assoc_array (array : AssocArray) : AssocArray :=
  mkArray (pairs array) (capacity array).

(** The first loop of [set_assoc_array_value]: overwrite the value of the
    first pair whose key is [k]; [None] when no pair has that key. *)
Fixpoint replace_value (ps : list KeyValuePair) (k v : string)
  : option (list KeyValuePair) :=
  match ps with
  | [] => None
  | p :: ps' =>
      if String.eqb (key p) k then Some (mkPair (key p) v :: ps')
      else match replace_value ps' k v with
           | Some ps'' => Some (p :: ps'')
           | None => None
           end
  end.

(** [set_assoc_array_value]: [None] is the write past the end of the
    buffer that happens when the array has no room after the doubling of
    its capacity (a capacity of 0 stays 0). *)
Definition set_assoc_array_value (array : AssocArray) (k v : string)
  : option AssocArray :=
  match replace_value (pairs array) k v with
  | Some ps => Some (mkArray ps (capacity array))
  | None =>
      let capacity' :=
        if size array =? capacity array then capacity array * 2
        else capacity array in
      if size array <? capacity'
      then Some (mkArray (pairs array ++ [mkPair k v]) capacity')
      else None
  end.

Fixpoint lookup_pairs (ps : list KeyValuePair) (k : string) : option string :=
  match ps with
  | [] => None
  | p :: ps' => if String.eqb (key p) k then Some (value p) else lookup_pairs ps' k
  end.

Definition get_assoc_array_value (array : AssocArray) (k : string) : option string :=
  lookup_pairs (pairs array) k.

(** [get_first_assoc_array_value] is only called on arrays of size 1. *)
Definition get_first_assoc_array_value (array : AssocArray) : option string :=
  match pairs array with
  | p :: _ => Some (value p)
  | [] => None
  end.

(** ** The variable table *)

Definition zero_variable : KVariable := mkVariable EmptyString (mkArray [] 0).

(** [variables[i]] *)
Definition slot (vars : list KVariable) (i : nat) : KVariable :=
  nth i vars zero_variable.

(** [variables[i] = v] *)
Fixpoint set_slot (vars : list KVariable) (i : nat) (v : KVariable)
  : list KVariable :=
  match i, vars with
  | O, [] => [v]
  | O, _ :: vars' => v :: vars'
  | S i', [] => zero_variable :: set_slot [] i' v
  | S i', w :: vars' => w :: set_slot vars' i' v
  end.

(** The search loop [for (i = 0; i < variable_count; i++)] that
    [get_variable] and the setters share: the index of the first of the
    [n] slots from [i] whose name is [name]. *)
Fixpoint find_variable (name : string) (vars : list KVariable) (i n : nat)
  : option nat :=
  match n with
  | O => None
  | S n' =>
      if String.eqb (var_name (slot vars i)) name then Some i
      else find_variable name vars (S i) n'
  end.

Definition get_variable (name : string) (st : State) : option nat :=
  find_variable name (variables st) 0 (variable_count st).

(** [*p] for an array pointer [p]. *)
Definition deref (st : State) (p : ArrayPointer) : AssocArray :=
  match p with
  | InVariable i => var_array (slot (variables st) i)
  | Detached a => a
  end.

(** One line on standard output. *)
Definition printf (line : string) (st : State) : State :=
  mkState (functions st) (variables st) (variable_count st) (scope_stack st)
          (output st ++ [line]).

Definition with_variables (vars : list KVariable) (count : nat) (st : State) : State :=
  mkState (functions st) vars count (scope_stack st) (output st).

(** [variables[i].array = a] *)
Definition set_array (i : nat) (a : AssocArray) (st : State) : State :=
  with_variables
    (set_slot (variables st) i (mkVariable (var_name (slot (variables st) i)) a))
    (variable_count st) st.

(** The creation of a variable in the first free slot. *)
Definition new_variable (name : string) (st : State) : State :=
  with_variables
    (set_slot (variables st) (variable_count st) (mkVariable name init_assoc_array))
    (S (variable_count st)) st.

(** [set_assoc_array_value(&variables[i].array, k, v)] *)
Definition store (i : nat) (k v : string) (st : State) : option State :=
  match set_assoc_array_value (var_array (slot (variables st) i)) k v with
  | Some a => Some (set_array i a st)
  | None => None
  end.

(** [set_variable_value]; a null [key] is [None]. *)
Definition set_variable_value (name : string) (key : option string)
           (value : string) (st : State) : option State :=
  let k := match key with Some k => k | None => EmptyString end in
  match get_variable name st with
  | Some i => store i k value st
  | None =>
      if MAX_VARIABLES <=? variable_count st
      then Some (printf "Error: Maximum number of variables reached" st)
      else store (variable_count st) k value (new_variable name st)
  end.

Definition clear_variable_assoc_array (name : string) (st : State) : State :=
  match get_variable name st with
  | Some i => set_array i init_assoc_array st
  | None => st
  end.

(** The copying loop of [set_variable_assoc_array]. *)
Fixpoint copy_pairs (i : nat) (ps : list KeyValuePair) (st : State) : option State :=
  match ps with
  | [] => Some st
  | p :: ps' =>
      match store i (key p) (value p) st with
      | Some st' => copy_pairs i ps' st'
      | None => None
      end
  end.

(** [set_variable_assoc_array]: the source is read through the pointer
    after the destination has been emptied, as the C loop does. *)
Definition set_variable_assoc_array (name : string) (array_value : ArrayPointer)
           (st : State) : option State :=
  match get_variable name st with
  | Some i =>
      let st1 := set_array i init_assoc_array st in
      copy_pairs i (pairs (deref st1 array_value)) st1
  | None =>
      if MAX_VARIABLES <=? variable_count st
      then Some (printf "Error: Maximum number of variables reached" st)
      else
        let st1 := new_variable name st in
        copy_pairs (variable_count st) (pairs (deref st1 array_value)) st1
  end.

(** ** The scope stack ([main.c], lines 1851-1881) *)

Definition push_scope (st : State) : State :=
  if MAX_SCOPES <=? scope_depth st
  then printf "Error: Scope stack overflow" st
  else mkState (functions st) (variables st) 0
               ((variables st, variable_count st) :: scope_stack st)
               (output st).

(** [pop_scope] copies the saved table back.  The saved count is read
    into a local variable that the function declares and never uses, so
    the global [variable_count] keeps its value. *)
Definition pop_scope (st : State) : State :=
  match scope_stack st with
  | [] => printf "Error: Scope stack underflow" st
  | (saved_variables, saved_count) :: rest =>
      mkState (functions st) saved_variables (variable_count st) rest (output st)
  end.

(** ** Classification of text as number or string *)

Definition isdigit (c : ascii) : bool :=
  (48 <=? nat_of_ascii c) && (nat_of_ascii c <=? 57).

(** The test [isdigit(s[0]) || (s[0] == '-' && isdigit(s[1]))]. *)
Definition is_number_text (s : string) : bool :=
  match s with
  | EmptyString => false
  | String c0 rest =>
      isdigit c0
      || (Ascii.eqb c0 "-"
          && match rest with
             | EmptyString => false
             | String c1 _ => isdigit c1
             end)
  end.

Definition find_function (name : string) (st : State) : option (nat * FunctionEntry) :=
  (fix search (fs : list FunctionEntry) (i : nat) :=
     match fs with
     | [] => None
     | f :: fs' =>
         if String.eqb (fn_name f) name then Some (i, f) else search fs' (S i)
     end) (functions st) 0.

(** [print_assoc_array]: the text of the line that it writes. *)
Definition quote : string := String (ascii_of_nat 34) EmptyString.

Fixpoint pairs_text (ps : list KeyValuePair) : string :=
  match ps with
  | [] => EmptyString
  | p :: ps' =>
      quote +++ key p +++ quote +++ ": " +++ quote +++ value p +++ quote
      +++ match ps' with
          | [] => EmptyString
          | _ :: _ => ", " +++ pairs_text ps'
          end
  end.

Definition print_assoc_array (array : AssocArray) (st : State) : State :=
  printf ("{" +++ pairs_text (pairs array) +++ "}") st.

(** Decimal text of a natural number ([%d] of a node type). *)
Fixpoint decimal_digits (fuel n : nat) (acc : string) : string :=
  match fuel with
  | O => acc
  | S fuel' =>
      let acc' := String (ascii_of_nat (48 + n mod 10)) acc in
      if n / 10 =? 0 then acc' else decimal_digits fuel' (n / 10) acc'
  end.

Definition decimal (n : nat) : string := decimal_digits (S n) n EmptyString.

(** ** Outcomes and the evaluation monad *)

Inductive Outcome (A : Type) : Type :=
  | Done (a : A) (st : State)
  | Undefined
  | OutOfFuel.

Arguments Undefined {A}.
Arguments OutOfFuel {A}.

Definition M (A : Type) : Type := State -> Outcome A.

Definition ret {A : Type} (a : A) : M A := fun st => Done a st.

Definition bind {A B : Type} (m : M A) (k : A -> M B) : M B :=
  fun st =>
    match m st with
    | Done a st' => k a st'
    | Undefined => Undefined
    | OutOfFuel => OutOfFuel
    end.

Definition read {A : Type} (f : State -> A) : M A := fun st => Done (f st) st.

Definition modify (f : State -> State) : M unit := fun st => Done tt (f st).

Definition try_modify (f : State -> option State) : M unit :=
  fun st =>
    match f st with
    | Some st' => Done tt st'
    | None => Undefined
    end.

Definition undefined {A : Type} : M A := fun _ => Undefined.

Definition out_of_fuel {A : Type} : M A := fun _ => OutOfFuel.

Declare Scope monad_scope.
Delimit Scope monad_scope with monad.
Notation "x <- m ;; k" := (bind m (fun x => k))
  (at level 61, m at next level, right associativity) : monad_scope.
Notation "m ;;; k" := (bind m (fun _ => k))
  (at level 61, right associativity) : monad_scope.
Local Open Scope monad_scope.

(** ** The built-in table ([kvstdlib.h]) *)

Inductive kvstdlib_func_t : Type :=
  | kvstdlib_len_id
  | kvstdlib_key_id
  | kvstdlib_mod_id
  | kvstdlib_bar_id.

Definition kvstdlib_lookup_table : list (string * kvstdlib_func_t) :=
  [ ("len"%string, kvstdlib_len_id);
    ("key"%string, kvstdlib_key_id);
    ("mod"%string, kvstdlib_mod_id);
    ("bar"%string, kvstdlib_bar_id) ].

Definition kvstdlib_lookup (name : string) : option kvstdlib_func_t :=
  (fix search (table : list (string * kvstdlib_func_t)) :=
     match table with
     | [] => None
     | (n, f) :: table' => if String.eqb n name then Some f else search table'
     end) kvstdlib_lookup_table.

(** [FunctionReturn result = {0}] *)
Definition no_return : FunctionReturn := mkReturn false (RESULT_STRING EmptyString).

Definition return_number (d : double) : FunctionReturn := mkReturn true (RESULT_NUMBER d).

Definition return_string (s : string) : FunctionReturn := mkReturn true (RESULT_STRING s).

Definition apply_operator (op : OperatorType) (l r : double) : double :=
  let truth (b : bool) := if b then Double.one else Double.zero in
  match op with
  | OP_ADD => Double.add l r
  | OP_SUBTRACT => Double.sub l r
  | OP_MULTIPLY => Double.mul l r
  | OP_DIVIDE => Double.div l r
  | OP_LESS_THAN => truth (Double.ltb l r)
  | OP_GREATER_THAN => truth (Double.ltb r l)
  | OP_EQUAL => truth (Double.eqb l r)
  | OP_NOT_EQUAL => truth (negb (Double.eqb l r))
  | OP_LESS_EQUAL => truth (Double.leb l r)
  | OP_GREATER_EQUAL => truth (Double.leb r l)
  end.

Definition is_arithmetic_operator (op : OperatorType) : bool :=
  match op with
  | OP_ADD | OP_SUBTRACT | OP_MULTIPLY | OP_DIVIDE => true
  | _ => false
  end.

Section Evaluator.

Context {libc : LibC}.

(** A stored text read back as a value. *)
Definition result_of_text (text : string) : EvalResult :=
  if is_number_text text then RESULT_NUMBER (atof text) else RESULT_STRING text.

(** The text of a scalar: a number through [%g], a string as it is. *)
Definition scalar_text (r : EvalResult) : option string :=
  match r with
  | RESULT_NUMBER d => Some (format_g d)
  | RESULT_STRING s => Some s
  | RESULT_ASSOC_ARRAY _ => None
  end.

Definition set_variable_from_eval_result (name : string) (result : EvalResult)
           (st : State) : option State :=
  match result with
  | RESULT_NUMBER d => set_variable_value name None (format_g d) st
  | RESULT_STRING s => set_variable_value name None s st
  | RESULT_ASSOC_ARRAY p => set_variable_assoc_array name p st
  end.

(** The first loop of the parameter binding in [execute_function_call]:
    one parameter per evaluated argument.  The result is the parameter
    that follows the last one bound. *)
Fixpoint bind_arguments (param : option ASTNode) (args : list EvalResult)
         (st : State) : option (option ASTNode * State) :=
  match args with
  | [] => Some (param, st)
  | a :: args' =>
      match param with
      | None => None
      | Some p =>
          match data_identifier p with
          | None => None
          | Some identifier =>
              match set_variable_from_eval_result identifier a st with
              | Some st' => bind_arguments (node_right p) args' st'
              | None => None
              end
          end
      end
  end.

(** The second loop: every parameter without an argument is set to the
    text 0. *)
Fixpoint bind_missing (p : ASTNode) (st : State) {struct p} : option State :=
  match p with
  | mkASTNode _ r _ _ =>
      match data_identifier p with
      | None => None
      | Some identifier =>
          match set_variable_value identifier None "0" st with
          | None => None
          | Some st' =>
              match r with
              | Some p' => bind_missing p' st'
              | None => Some st'
              end
          end
      end
  end.

Definition bind_parameters (param : option ASTNode) (args : list EvalResult)
           (st : State) : option State :=
  match bind_arguments param args st with
  | Some (Some p, st') => bind_missing p st'
  | Some (None, st') => Some st'
  | None => None
  end.

(** *** Functions that call the evaluator without recursion of their own

    Each takes the evaluator of expressions as [eval]. *)

Section WithEval.

Variable eval : option ASTNode -> EvalContext -> M (option EvalResult).

Definition kvstdlib_len (arg : option ASTNode) : M FunctionReturn :=
  match arg with
  | Some a =>
      match node_right a with
      | None =>
          arg_val <- eval arg EVAL_PRINT ;;
          match arg_val with
          | None =>
              modify (printf "Error: Failed to evaluate argument in len()") ;;;
              ret (return_number Double.zero)
          | Some (RESULT_ASSOC_ARRAY p) =>
              array <- read (fun st => deref st p) ;;
              ret (return_number (Double.of_int (Z.of_nat (size array))))
          | Some _ => ret (return_number (Double.of_int 1))
          end
      | Some _ =>
          modify (printf "Error: len() requires exactly one argument") ;;;
          ret (return_number Double.zero)
      end
  | None =>
      modify (printf "Error: len() requires exactly one argument") ;;;
      ret (return_number Double.zero)
  end.

Definition kvstdlib_key (arg : option ASTNode) : M FunctionReturn :=
  match arg with
  | Some a =>
      match node_right a with
      | None =>
          match node_data a with
          | AST_IDENTIFIER identifier =>
              var <- read (get_variable identifier) ;;
              match var with
              | Some i =>
                  array <- read (fun st => var_array (slot (variables st) i)) ;;
                  match pairs array with
                  | p :: _ => ret (return_string (key p))
                  | [] => undefined
                  end
              | None => ret (return_string EmptyString)
              end
          | AST_ARRAY_ACCESS _ =>
              key_result <- eval (node_left a) EVAL_ARITHMETIC ;;
              match key_result with
              | None =>
                  modify (printf "Error: Failed to evaluate array index") ;;;
                  ret (return_string EmptyString)
              | Some r =>
                  match scalar_text r with
                  | Some text => ret (return_string text)
                  | None =>
                      modify (printf "Error: Array index must be a string or number") ;;;
                      ret (return_string EmptyString)
                  end
              end
          | _ => ret (return_string EmptyString)
          end
      | Some _ =>
          modify (printf "Error: key() requires exactly one argument") ;;;
          ret (return_string EmptyString)
      end
  | None =>
      modify (printf "Error: key() requires exactly one argument") ;;;
      ret (return_string EmptyString)
  end.

Definition kvstdlib_mod (arg : option ASTNode) : M FunctionReturn :=
  match arg with
  | Some a =>
      match node_right a with
      | Some _ =>
          arg_val1 <- eval arg EVAL_ARITHMETIC ;;
          match arg_val1 with
          | None =>
              modify (printf "Error: Failed to evaluate 1st argument in mod()") ;;;
              ret (return_number Double.zero)
          | Some v1 =>
              arg_val2 <- eval (node_right a) EVAL_ARITHMETIC ;;
              match arg_val2 with
              | None =>
                  modify (printf "Error: Failed to evaluate 2nd argument in mod()") ;;;
                  ret (return_number Double.zero)
              | Some v2 =>
                  match v1, v2 with
                  | RESULT_NUMBER d1, RESULT_NUMBER d2 =>
                      match Double.to_int d1, Double.to_int d2 with
                      | Some i1, Some i2 =>
                          match Double.int_rem i1 i2 with
                          | Some r => ret (return_number (Double.of_int r))
                          | None => undefined
                          end
                      | _, _ => undefined
                      end
                  | _, _ => ret (return_number Double.zero)
                  end
              end
          end
      | None =>
          modify (printf "Error: mod() requires exactly two argument") ;;;
          ret (return_number Double.zero)
      end
  | None =>
      modify (printf "Error: mod() requires exactly two argument") ;;;
      ret (return_number Double.zero)
  end.

Definition kvstdlib_bar (arg : option ASTNode) : M FunctionReturn :=
  ret (return_string EmptyString).

Definition kvstdlib_call (f : kvstdlib_func_t) (arg : option ASTNode)
  : M FunctionReturn :=
  match f with
  | kvstdlib_len_id => kvstdlib_len arg
  | kvstdlib_key_id => kvstdlib_key arg
  | kvstdlib_mod_id => kvstdlib_mod arg
  | kvstdlib_bar_id => kvstdlib_bar arg
  end.

Definition execute_assignment (node : ASTNode) : M unit :=
  match node_data node with
  | AST_ASSIGNMENT =>
      result <- eval (node_right node) EVAL_ARITHMETIC ;;
      match result with
      | None => modify (printf "Error: Failed to evaluate expression in assignment")
      | Some result =>
          match node_left node with
          | None => undefined
          | Some target =>
              match node_data target with
              | AST_IDENTIFIER identifier =>
                  try_modify (set_variable_from_eval_result identifier result)
              | AST_ARRAY_ACCESS identifier =>
                  key_result <- eval (node_left target) EVAL_PRINT ;;
                  match key_result with
                  | None => modify (printf "Error: Failed to evaluate array index")
                  | Some key_result =>
                      match scalar_text key_result with
                      | None =>
                          modify (printf "Assignment Error: Array index must be a string or number")
                      | Some key_str =>
                          match scalar_text result with
                          | Some text =>
                              try_modify (set_variable_value identifier (Some key_str) text)
                          | None =>
                              modify (printf "Error: Cannot assign an associative array to an array element")
                          end
                      end
                  end
              | _ => modify (printf "Error: Invalid assignment target")
              end
          end
      end
  | _ => ret tt
  end.

Definition evaluate_and_print (node : option ASTNode) : M unit :=
  result <- eval node EVAL_PRINT ;;
  match result with
  | Some (RESULT_STRING s) => modify (printf s)
  | Some (RESULT_NUMBER d) => modify (printf (format_g d))
  | Some (RESULT_ASSOC_ARRAY p) => modify (fun st => print_assoc_array (deref st p) st)
  | None => ret tt
  end.

End WithEval.

(** *** Expressions and function calls ([main.c], lines 1526-1786 and 1967-2066)

    The body of each C function, with the functions that it calls as
    parameters; the functions themselves are obtained below by
    recursion on the fuel. *)

Section Steps.

Variable eval : option ASTNode -> EvalContext -> M (option EvalResult).
Variable call : ASTNode -> M FunctionReturn.
Variable eval_args :
  option ASTNode -> option ASTNode -> list EvalResult -> M (option (list EvalResult)).
Variable block_with_return : option ASTNode -> M FunctionReturn.
Variable ast_with_return : option ASTNode -> M FunctionReturn.

Definition evaluate_identifier (identifier : string) (context : EvalContext)
  : M (option EvalResult) :=
  var <- read (get_variable identifier) ;;
  match var with
  | Some i =>
      array <- read (fun st => var_array (slot (variables st) i)) ;;
      match context with
      | EVAL_ARITHMETIC =>
          if size array =? 1 then
            match get_first_assoc_array_value array with
            | Some value => ret (Some (result_of_text value))
            | None =>
                modify (printf ("Error: Variable '" +++ identifier
                                +++ "' has no default value and cannot be used in expressions")) ;;;
                ret None
            end
          else ret (Some (RESULT_ASSOC_ARRAY (InVariable i)))
      | EVAL_PRINT =>
          if size array =? 1 then
            match pairs array with
            | p :: _ => ret (Some (RESULT_STRING (value p)))
            | [] => undefined
            end
          else ret (Some (RESULT_ASSOC_ARRAY (InVariable i)))
      end
  | None =>
      modify (printf ("Error: Undefined variable '" +++ identifier +++ "'")) ;;;
      ret None
  end.

Definition evaluate_array_access (identifier : string) (index : option ASTNode)
  : M (option EvalResult) :=
  key_result <- eval index EVAL_ARITHMETIC ;;
  match key_result with
  | None =>
      modify (printf "Error: Failed to evaluate array index") ;;;
      ret None
  | Some key_result =>
      match scalar_text key_result with
      | None =>
          modify (printf "Error: Array index must be a string or number") ;;;
          ret None
      | Some key =>
          var <- read (get_variable identifier) ;;
          match var with
          | None =>
              modify (printf ("Error: Undefined variable '" +++ identifier +++ "'")) ;;;
              ret None
          | Some i =>
              array <- read (fun st => var_array (slot (variables st) i)) ;;
              match get_assoc_array_value array key with
              | Some value => ret (Some (result_of_text value))
              | None =>
                  modify (printf ("Error: Key '" +++ key
                                  +++ "' not found in variable '"
                                  +++ identifier +++ "'")) ;;;
                  ret None
              end
          end
      end
  end.

Definition evaluate_binary_op (operator : OperatorType) (l r : option ASTNode)
           (context : EvalContext) : M (option EvalResult) :=
  let op_context :=
    if is_arithmetic_operator operator then EVAL_ARITHMETIC else context in
  left_result <- eval l op_context ;;
  match left_result with
  | None => ret None
  | Some left_result =>
      right_result <- eval r op_context ;;
      match right_result with
      | None => ret None
      | Some right_result =>
          match left_result, right_result with
          | RESULT_NUMBER x, RESULT_NUMBER y =>
              ret (Some (RESULT_NUMBER (apply_operator operator x y)))
          | _, _ =>
              modify (printf "Error: Both operands must be numbers for arithmetic or relational operations") ;;;
              ret None
          end
      end
  end.

Definition evaluate_expression_step (node : option ASTNode) (context : EvalContext)
  : M (option EvalResult) :=
  match node with
  | None => ret None
  | Some n =>
      match node_data n with
      | AST_LITERAL string_value => ret (Some (result_of_text string_value))
      | AST_IDENTIFIER identifier => evaluate_identifier identifier context
      | AST_ARRAY_ACCESS identifier => evaluate_array_access identifier (node_left n)
      | AST_BINARY_OP operator =>
          evaluate_binary_op operator (node_left n) (node_right n) context
      | AST_FUNCTION_CALL _ _ =>
          call_res <- call n ;;
          if has_return call_res then ret (Some (return_value call_res))
          else ret (Some (RESULT_NUMBER Double.zero))
      | _ =>
          (* the C function ends here without a return statement *)
          modify (printf "Error: While evaluating expression - Unknown AST node type") ;;;
          undefined
      end
  end.

(** The part of [execute_function_call] that runs a user-defined
    function once its arguments have been evaluated. *)
Definition call_user_function (entry : FunctionEntry) (args : list EvalResult)
  : M FunctionReturn :=
  modify push_scope ;;;
  try_modify (bind_parameters (fn_parameters entry) args) ;;;
  body_ret <- block_with_return (fn_body entry) ;;
  modify pop_scope ;;;
  if has_return body_ret then ret body_ret
  else ret (return_number Double.zero).

Definition execute_function_call_step (call_node : ASTNode) : M FunctionReturn :=
  match node_data call_node with
  | AST_FUNCTION_CALL name arguments =>
      match kvstdlib_lookup name with
      | Some f => kvstdlib_call eval f arguments
      | None =>
          found <- read (find_function name) ;;
          match found with
          | None =>
              modify (printf ("Error: Undefined function '" +++ name +++ "'")) ;;;
              ret (return_number Double.zero)
          | Some (idx, entry) =>
              args <- eval_args (fn_parameters entry) arguments [] ;;
              match args with
              | None => ret (return_number Double.zero)
              | Some args => call_user_function entry args
              end
          end
      end
  | _ => undefined
  end.

(** The loop that evaluates the arguments into [args]; [None] is its
    error exit, which pops a scope that was never pushed.  Storing an
    eleventh result overflows [args]. *)
Definition evaluate_arguments_step (param arg : option ASTNode)
           (args : list EvalResult) : M (option (list EvalResult)) :=
  match param, arg with
  | Some p, Some a =>
      arg_val <- eval arg EVAL_ARITHMETIC ;;
      match arg_val with
      | None =>
          modify (printf "Error: Failed to evaluate argument") ;;;
          modify pop_scope ;;;
          ret None
      | Some v =>
          if MAX_FUNC_PARAMS <=? List.length args then undefined
          else eval_args (node_right p) (node_right a) (args ++ [v])
      end
  | _, _ => ret (Some args)
  end.

Definition execute_block_with_return_step (node : option ASTNode) : M FunctionReturn :=
  match node with
  | None => ret no_return
  | Some n =>
      stmt_result <- ast_with_return node ;;
      if has_return stmt_result then ret stmt_result
      else block_with_return (node_nextblock n)
  end.

Definition execute_return_statement (expression : option ASTNode) : M FunctionReturn :=
  val <- eval expression EVAL_ARITHMETIC ;;
  match val with
  | None =>
      modify (printf "Error: Failed to evaluate return expression") ;;;
      ret (return_number Double.zero)
  | Some (RESULT_ASSOC_ARRAY p) =>
      array <- read (fun st => deref st p) ;;
      ret (mkReturn true (RESULT_ASSOC_ARRAY (Detached (duplicate_assoc_array array))))
  | Some v => ret (mkReturn true v)
  end.

Definition execute_ast_with_return_step (node : option ASTNode) : M FunctionReturn :=
  match node with
  | None => ret no_return
  | Some n =>
      match node_data n with
      | AST_PRINT => evaluate_and_print eval (node_left n) ;;; ret no_return
      | AST_ASSIGNMENT => execute_assignment eval n ;;; ret no_return
      | AST_FUNCTION_DEFINITION _ _ _ => ret no_return
      | AST_FUNCTION_CALL _ _ => call_res <- call n ;; ret no_return
      | AST_RETURN_STATEMENT expression => execute_return_statement expression
      | _ =>
          modify (printf "Error: While executing the AST (with return) - Unknown AST node type") ;;;
          ret no_return
      end
  end.

(** *** Statements at the top level ([main.c], lines 1352-1524) *)

Variable ast : option ASTNode -> M unit.
Variable block : option ASTNode -> M unit.
Variable if_statement : ASTNode -> M unit.
Variable for_statement : ASTNode -> M unit.
Variable loop : string -> option ASTNode -> ArrayPointer -> nat -> M unit.
Variable while_statement : ASTNode -> M unit.

Definition execute_ast_step (node : option ASTNode) : M unit :=
  match node with
  | None => ret tt
  | Some n =>
      match node_data n with
      | AST_PRINT => evaluate_and_print eval (node_left n)
      | AST_ASSIGNMENT => execute_assignment eval n
      | AST_IF_STATEMENT _ _ _ => if_statement n
      | AST_BLOCK => block node
      | AST_FOR_STATEMENT _ _ _ => for_statement n
      | AST_WHILE_STATEMENT _ _ => while_statement n
      | AST_FUNCTION_DEFINITION _ _ _ => ret tt
      | AST_FUNCTION_CALL _ _ => call_res <- call n ;; ret tt
      | _ =>
          modify (printf ("Error: While executing the AST - Unknown AST node type ("
                          +++ decimal (node_type n) +++ ")"))
      end
  end.

Definition execute_block_step (node : option ASTNode) : M unit :=
  match node with
  | None => ret tt
  | Some n => ast node ;;; block (node_nextblock n)
  end.

(** [condition_true] as [execute_if_statement] computes it; an array is
    not a condition there. *)
Definition if_condition_true (condition_result : EvalResult) : option bool :=
  match condition_result with
  | RESULT_NUMBER d => Some (negb (Double.eqb d Double.zero))
  | RESULT_STRING s => Some (negb (String.eqb s EmptyString))
  | RESULT_ASSOC_ARRAY _ => None
  end.

Definition execute_if_statement_step (node : ASTNode) : M unit :=
  match node_data node with
  | AST_IF_STATEMENT condition then_branch else_branch =>
      condition_result <- eval condition EVAL_ARITHMETIC ;;
      match condition_result with
      | None => modify (printf "Error: Failed to evaluate condition in if statement")
      | Some r =>
          match if_condition_true r with
          | None => modify (printf "Error: Invalid condition type in if statement")
          | Some true => block then_branch
          | Some false =>
              match else_branch with
              | Some _ => block else_branch
              | None => ret tt
              end
          end
      end
  | _ => ret tt
  end.

(** The array that [execute_for_statement] iterates over: the array of
    the result, or a temporary array that holds a scalar under the
    empty key. *)
Definition for_array (result : EvalResult) : option ArrayPointer :=
  match result with
  | RESULT_ASSOC_ARRAY p => Some p
  | RESULT_STRING s =>
      option_map Detached (set_assoc_array_value init_assoc_array EmptyString s)
  | RESULT_NUMBER d =>
      option_map Detached (set_assoc_array_value init_assoc_array EmptyString (format_g d))
  end.

Definition execute_for_statement_step (node : ASTNode) : M unit :=
  match node_data node with
  | AST_FOR_STATEMENT loop_var expression body =>
      result <- eval expression EVAL_PRINT ;;
      match result with
      | None => modify (printf "Error: Failed to evaluate expression in for statement")
      | Some r =>
          match for_array r with
          | Some array => loop loop_var body array 0
          | None => undefined
          end
      end
  | _ => ret tt
  end.

(** The first index of a pair with the given key. *)
Fixpoint key_index (ps : list KeyValuePair) (k : string) (i : nat) : option nat :=
  match ps with
  | [] => None
  | p :: ps' => if String.eqb (key p) k then Some i else key_index ps' k (S i)
  end.

(** Whether assigning pair [i] of the iterated array to the loop
    variable copies a value onto itself: the loop variable is the
    variable whose array is iterated, and pair [i] is the first one with
    its key.  [strcpy] is not defined on overlapping buffers. *)
Definition copies_onto_itself (loop_var : string) (array : ArrayPointer) (i : nat)
           (st : State) : bool :=
  match array, get_variable loop_var st with
  | InVariable a, Some v =>
      (a =? v)
      && match nth_error (pairs (deref st array)) i with
         | Some p =>
             match key_index (pairs (deref st array)) (key p) 0 with
             | Some j => j =? i
             | None => false
             end
         | None => false
         end
  | _, _ => false
  end.

(** One iteration of the loop [for (i = 0; i < array->size; i++)] of
    [execute_for_statement]. *)
Definition for_iteration (loop_var : string) (body : option ASTNode)
           (p : KeyValuePair) : M unit :=
  try_modify (set_variable_value loop_var (Some (key p)) (value p)) ;;;
  block body ;;;
  modify (clear_variable_assoc_array loop_var).

Definition for_loop_step (loop_var : string) (body : option ASTNode)
           (array : ArrayPointer) (i : nat) : M unit :=
  current <- read (fun st => deref st array) ;;
  match nth_error (pairs current) i with
  | None => ret tt
  | Some p =>
      overlap <- read (copies_onto_itself loop_var array i) ;;
      if overlap then undefined
      else
        for_iteration loop_var body p ;;;
        loop loop_var body array (S i)
  end.

(** [condition_true] as [execute_while_statement] computes it. *)
Definition while_condition_true (condition_result : EvalResult) (st : State) : bool :=
  match condition_result with
  | RESULT_NUMBER d => negb (Double.eqb d Double.zero)
  | RESULT_STRING s => negb (String.eqb s EmptyString)
  | RESULT_ASSOC_ARRAY p => 0 <? size (deref st p)
  end.

Definition execute_while_statement_step (node : ASTNode) : M unit :=
  match node_data node with
  | AST_WHILE_STATEMENT condition body =>
      condition_result <- eval condition EVAL_ARITHMETIC ;;
      match condition_result with
      | None => modify (printf "Error: Failed to evaluate condition in while statement")
      | Some r =>
          condition_true <- read (while_condition_true r) ;;
          if condition_true then block body ;;; while_statement node
          else ret tt
      end
  | _ => ret tt
  end.

End Steps.

(** *** The evaluator, by recursion on the fuel *)

Fixpoint evaluate_expression (fuel : nat) (node : option ASTNode)
         (context : EvalContext) {struct fuel} : M (option EvalResult) :=
  match fuel with
  | O => out_of_fuel
  | S fuel' =>
      evaluate_expression_step
        (evaluate_expression fuel') (execute_function_call fuel') node context
  end

with execute_function_call (fuel : nat) (call_node : ASTNode) {struct fuel}
  : M FunctionReturn :=
  match fuel with
  | O => out_of_fuel
  | S fuel' =>
      execute_function_call_step
        (evaluate_expression fuel') (evaluate_arguments fuel')
        (execute_block_with_return fuel') call_node
  end

with evaluate_arguments (fuel : nat) (param arg : option ASTNode)
       (args : list EvalResult) {struct fuel} : M (option (list EvalResult)) :=
  match fuel with
  | O => out_of_fuel
  | S fuel' =>
      evaluate_arguments_step
        (evaluate_expression fuel') (evaluate_arguments fuel') param arg args
  end

with execute_block_with_return (fuel : nat) (node : option ASTNode) {struct fuel}
  : M FunctionReturn :=
  match fuel with
  | O => out_of_fuel
  | S fuel' =>
      execute_block_with_return_step
        (execute_block_with_return fuel') (execute_ast_with_return fuel') node
  end

with execute_ast_with_return (fuel : nat) (node : option ASTNode) {struct fuel}
  : M FunctionReturn :=
  match fuel with
  | O => out_of_fuel
  | S fuel' =>
      execute_ast_with_return_step
        (evaluate_expression fuel') (execute_function_call fuel') node
  end.

Fixpoint execute_ast (fuel : nat) (node : option ASTNode) {struct fuel} : M unit :=
  match fuel with
  | O => out_of_fuel
  | S fuel' =>
      execute_ast_step
        (evaluate_expression fuel') (execute_function_call fuel')
        (execute_block fuel') (execute_if_statement fuel')
        (execute_for_statement fuel') (execute_while_statement fuel') node
  end

with execute_block (fuel : nat) (node : option ASTNode) {struct fuel} : M unit :=
  match fuel with
  | O => out_of_fuel
  | S fuel' => execute_block_step (execute_ast fuel') (execute_block fuel') node
  end

with execute_if_statement (fuel : nat) (node : ASTNode) {struct fuel} : M unit :=
  match fuel with
  | O => out_of_fuel
  | S fuel' =>
      execute_if_statement_step (evaluate_expression fuel') (execute_block fuel') node
  end

with execute_for_statement (fuel : nat) (node : ASTNode) {struct fuel} : M unit :=
  match fuel with
  | O => out_of_fuel
  | S fuel' =>
      execute_for_statement_step (evaluate_expression fuel') (for_loop fuel') node
  end

with for_loop (fuel : nat) (loop_var : string) (body : option ASTNode)
       (array : ArrayPointer) (i : nat) {struct fuel} : M unit :=
  match fuel with
  | O => out_of_fuel
  | S fuel' =>
      for_loop_step (execute_block fuel') (for_loop fuel') loop_var body array i
  end

with execute_while_statement (fuel : nat) (node : ASTNode) {struct fuel} : M unit :=
  match fuel with
  | O => out_of_fuel
  | S fuel' =>
      execute_while_statement_step
        (evaluate_expression fuel') (execute_block fuel')
        (execute_while_statement fuel') node
  end.

End Evaluator.

(** ** A reference implementation of the text conversions

    [atof] on decimal and hexadecimal floating constants with correct
    rounding to nearest-even, and [%g] with the default precision of six
    significant digits, both computed exactly on integers.  [atof] is
    only ever applied by the evaluator to text that starts with a digit
    or with a minus sign and a digit, so the forms [inf] and [nan] of
    [strtod] are not needed.  A NaN is written without a sign. *)

Module RefLibC.

Local Open Scope Z_scope.

Definition digit_value (c : ascii) : option Z :=
  let n := Z.of_nat (nat_of_ascii c) in
  if (48 <=? n) && (n <=? 57) then Some (n - 48) else None.

Definition hex_digit_value (c : ascii) : option Z :=
  let n := Z.of_nat (nat_of_ascii c) in
  if (48 <=? n) && (n <=? 57) then Some (n - 48)
  else if (97 <=? n) && (n <=? 102) then Some (n - 87)
  else if (65 <=? n) && (n <=? 70) then Some (n - 55)
  else None.

(** The longest prefix of digits in the given base: its value, the
    number of digits, and the rest of the text. *)
Fixpoint read_digits (digit : ascii -> option Z) (base : Z) (s : string)
         (acc : Z) (count : Z) : Z * Z * string :=
  match s with
  | EmptyString => (acc, count, s)
  | String c rest =>
      match digit c with
      | Some d => read_digits digit base rest (acc * base + d) (count + 1)
      | None => (acc, count, s)
      end
  end.

(** An optional exponent part: the marker character, an optional sign
    and at least one decimal digit; 0 when there is none. *)
Definition read_exponent (marker_lower marker_upper : ascii) (s : string) : Z :=
  match s with
  | String c rest =>
      if Ascii.eqb c marker_lower || Ascii.eqb c marker_upper then
        let '(negative, digits) :=
          match rest with
          | String "-" rest' => (true, rest')
          | String "+" rest' => (false, rest')
          | _ => (false, rest)
          end in
        let '(e, n, _) := read_digits digit_value 10 digits 0 0 in
        if n =? 0 then 0 else if negative then - e else e
      else 0
  | EmptyString => 0
  end.

(** The double nearest to [num / den] (ties to even), for positive
    [num] and [den]. *)
Definition round_ratio (negative : bool) (num den : Z) : double :=
  let '(m, e, l) := SFdiv_core_binary Double.prec Double.emax num 0 den 0 in
  binary_round_aux Double.prec Double.emax negative m e l.

(** The double nearest to [m * base ^ e]. *)
Definition scale (negative : bool) (m base e : Z) : double :=
  if m =? 0 then S754_zero negative
  else if 0 <=? e then round_ratio negative (m * base ^ e) 1
  else round_ratio negative m (base ^ (- e)).

Definition isspace (c : ascii) : bool :=
  let n := nat_of_ascii c in
  (n =? 32)%nat || ((9 <=? n)%nat && (n <=? 13)%nat).

Fixpoint skip_spaces (s : string) : string :=
  match s with
  | String c rest => if isspace c then skip_spaces rest else s
  | EmptyString => s
  end.

Definition parse_unsigned (negative : bool) (s : string) : double :=
  let hexadecimal :=
    match s with
    | String "0" (String x rest) =>
        if Ascii.eqb x "x" || Ascii.eqb x "X" then
          let '(ip, n1, rest1) := read_digits hex_digit_value 16 rest 0 0 in
          let '(m, n2, rest2) :=
            match rest1 with
            | String "." rest1' =>
                let '(m, n2, rest2) := read_digits hex_digit_value 16 rest1' ip 0 in
                (m, n2, rest2)
            | _ => (ip, 0, rest1)
            end in
          if n1 + n2 =? 0 then None
          else Some (scale negative m 2 (read_exponent "p" "P" rest2 - 4 * n2))
        else None
    | _ => None
    end in
  match hexadecimal with
  | Some d => d
  | None =>
      let '(ip, n1, rest1) := read_digits digit_value 10 s 0 0 in
      let '(m, n2, rest2) :=
        match rest1 with
        | String "." rest1' =>
            let '(m, n2, rest2) := read_digits digit_value 10 rest1' ip 0 in
            (m, n2, rest2)
        | _ => (ip, 0, rest1)
        end in
      if n1 + n2 =? 0 then S754_zero false
      else scale negative m 10 (read_exponent "e" "E" rest2 - n2)
  end.

Definition atof (s : string) : double :=
  match skip_spaces s with
  | String "-" rest => parse_unsigned true rest
  | String "+" rest => parse_unsigned false rest
  | s' => parse_unsigned false s'
  end.

(** The decimal text of a non-negative integer, with at least
    [width] digits. *)
Fixpoint digits_of (fuel : nat) (n : Z) (width : Z) (acc : string) : string :=
  match fuel with
  | O => acc
  | S fuel' =>
      let acc' := String (ascii_of_nat (Z.to_nat (48 + n mod 10))) acc in
      if (n / 10 =? 0) && (width <=? 1) then acc'
      else digits_of fuel' (n / 10) (width - 1) acc'
  end.

Definition decimal_text (n : Z) (width : Z) : string :=
  digits_of (S (Z.to_nat (Z.log2 n + width))) n width EmptyString.

Fixpoint strip_zeros_rev (s : list ascii) : list ascii :=
  match s with
  | "0"%char :: s' => strip_zeros_rev s'
  | _ => s
  end.

(** Removal of the trailing zeros of a fraction. *)
Definition strip_trailing_zeros (s : string) : string :=
  string_of_list_ascii
    (List.rev (strip_zeros_rev (List.rev (list_ascii_of_string s)))).

Definition with_fraction (integer fraction : string) : string :=
  match strip_trailing_zeros fraction with
  | EmptyString => integer
  | f => integer +++ "." +++ f
  end.

(** [round (num / den)], ties to even. *)
Definition round_half_even (num den : Z) : Z :=
  let q := num / den in
  let r := num mod den in
  match 2 * r ?= den with
  | Lt => q
  | Gt => q + 1
  | Eq => if Z.even q then q else q + 1
  end.

(** [num / den] scaled by a power of ten. *)
Definition scaled (num den p : Z) : Z * Z :=
  if 0 <=? p then (num * 10 ^ p, den) else (num, den * 10 ^ (- p)).

(** The decimal exponent of [num / den]: the [x] with
    [10 ^ x <= num / den < 10 ^ (x + 1)], searched from an estimate. *)
Fixpoint decimal_exponent (fuel : nat) (num den x : Z) : Z :=
  match fuel with
  | O => x
  | S fuel' =>
      let '(n, d) := scaled num den (- x) in
      if n <? d then decimal_exponent fuel' num den (x - 1)
      else if 10 * d <=? n then decimal_exponent fuel' num den (x + 1)
      else x
  end.

Definition format_finite (negative : bool) (m : positive) (e : Z) : string :=
  let num := if 0 <=? e then Zpos m * 2 ^ e else Zpos m in
  let den := if 0 <=? e then 1 else 2 ^ (- e) in
  let estimate := (Z.log2 num - Z.log2 den) * 30103 / 100000 in
  let x0 := decimal_exponent 8 num den estimate in
  let '(n0, d0) := scaled num den (5 - x0) in
  let r := round_half_even n0 d0 in
  let '(digits, x) := if r =? 1000000 then (100000, x0 + 1) else (r, x0) in
  let sign := if negative then "-"%string else EmptyString in
  let text := decimal_text digits 6 in
  if (x <? -4) || (6 <=? x) then
    sign +++ with_fraction (substring 0 1 text) (substring 1 5 text)
         +++ "e" +++ (if x <? 0 then "-"%string else "+"%string)
         +++ decimal_text (Z.abs x) 2
  else if 0 <=? x then
    sign +++ with_fraction (substring 0 (Z.to_nat (x + 1)) text)
                           (substring (Z.to_nat (x + 1)) (Z.to_nat (5 - x)) text)
  else
    sign +++ with_fraction "0"
           (string_of_list_ascii (List.repeat "0"%char (Z.to_nat (- x - 1))) +++ text).

Definition format_g (d : double) : string :=
  match d with
  | S754_nan => "nan"
  | S754_infinity s => if s then "-inf" else "inf"
  | S754_zero s => if s then "-0" else "0"
  | S754_finite s m e => format_finite s m e
  end.

Definition libc : LibC := Build_LibC atof format_g.

End RefLibC.

(** ** Building trees the way the parser links them *)

Module Syntax.

Definition set_right (n : ASTNode) (r : option ASTNode) : ASTNode :=
  mkASTNode (node_left n) r (node_nextblock n) (node_data n).

Definition set_nextblock (n : ASTNode) (nb : option ASTNode) : ASTNode :=
  mkASTNode (node_left n) (node_right n) nb (node_data n).

(** An argument or parameter list: every node but the last has its
    [right] link overwritten with the next one ([current = &arg->right]
    in [parse_factor] and [parse_function_definition]). *)
Fixpoint link_arguments (args : list ASTNode) : option ASTNode :=
  match args with
  | [] => None
  | [a] => Some a
  | a :: rest => Some (set_right a (link_arguments rest))
  end.

(** A block: the statements chained through [nextblock]
    ([parse_block]). *)
Fixpoint link_block (stmts : list ASTNode) : option ASTNode :=
  match stmts with
  | [] => None
  | s :: rest => Some (set_nextblock s (link_block rest))
  end.

Definition literal (text : string) : ASTNode :=
  mkASTNode None None None (AST_LITERAL text).

Definition identifier (name : string) : ASTNode :=
  mkASTNode None None None (AST_IDENTIFIER name).

Definition array_access (name : string) (index : ASTNode) : ASTNode :=
  mkASTNode (Some index) None None (AST_ARRAY_ACCESS name).

Definition binary_op (op : OperatorType) (l r : ASTNode) : ASTNode :=
  mkASTNode (Some l) (Some r) None (AST_BINARY_OP op).

Definition function_call (name : string) (args : list ASTNode) : ASTNode :=
  mkASTNode None None None (AST_FUNCTION_CALL name (link_arguments args)).

Definition assignment (target e : ASTNode) : ASTNode :=
  mkASTNode (Some target) (Some e) None AST_ASSIGNMENT.

Definition print (e : ASTNode) : ASTNode :=
  mkASTNode (Some e) None None AST_PRINT.

Definition if_statement (c : ASTNode) (then_branch else_branch : list ASTNode) : ASTNode :=
  mkASTNode None None None
            (AST_IF_STATEMENT (Some c) (link_block then_branch) (link_block else_branch)).

Definition while_statement (c : ASTNode) (body : list ASTNode) : ASTNode :=
  mkASTNode None None None (AST_WHILE_STATEMENT (Some c) (link_block body)).

Definition for_statement (loop_var : string) (e : ASTNode) (body : list ASTNode) : ASTNode :=
  mkASTNode None None None (AST_FOR_STATEMENT loop_var (Some e) (link_block body)).

Definition return_statement (e : ASTNode) : ASTNode :=
  mkASTNode None None None (AST_RETURN_STATEMENT (Some e)).

(** The entry that [parse_function_definition] registers. *)
Definition function_entry (name : string) (params : list string) (body : list ASTNode)
  : FunctionEntry :=
  mkFunction name (link_arguments (List.map identifier params)) (link_block body).

End Syntax.

(** The state of a fresh interpreter in which the given functions have
    been registered. *)
Definition initial_state (fs : list FunctionEntry) : State :=
  mkState fs [] 0 [] [].

(** The execution loop of [parse_and_execute] over the statements of a
    program. *)
Fixpoint execute_program {libc : LibC} (fuel : nat) (stmts : list ASTNode) : M unit :=
  match stmts with
  | [] => ret tt
  | s :: rest => bind (execute_ast fuel (Some s)) (fun _ => execute_program fuel rest)
  end.

(** ** The lexer ([main.c], lines 36-191) *)

Definition MAX_TOKEN_LENGTH : nat := 256.

Inductive TokenType : Type :=
  | TOKEN_EOF
  | TOKEN_IDENTIFIER
  | TOKEN_NUMBER
  | TOKEN_STRING
  | TOKEN_KEYWORD
  | TOKEN_OPERATOR
  | TOKEN_DELIMITER
  | TOKEN_COMMENT
  | TOKEN_UNKNOWN.

(** The C struct [Token]: its members [type] and [value]. *)
Record Token : Type := mkToken { token_type : TokenType; token_value : string }.

Definition keywords : list string :=
  ["def"; "return"; "end"; "if"; "else"; "print"; "for"; "in"; "while"]%string.

Definition operators : list string :=
  ["+"; "-"; "*"; "/"; "="; "<"; ">"; "<="; ">="; "=="; "!="]%string.

Definition delimiters : string := "(),[]".

(** [strchr(s, c) != NULL]: the terminating null character counts as a
    character of [s]. *)
Fixpoint strchr (s : string) (c : ascii) : bool :=
  match s with
  | EmptyString => Ascii.eqb c zero
  | String c' s' => Ascii.eqb c' c || strchr s' c
  end.

Definition is_keyword (str : string) : bool := existsb (String.eqb str) keywords.

Definition is_operator_char (c : ascii) : bool := strchr "+-*/=<>!" c.

Definition is_operator (str : string) : bool := existsb (String.eqb str) operators.

Definition is_delimiter_char (c : ascii) : bool := strchr delimiters c.

(** The classification of characters by [<ctype.h>] in the C locale,
    which the program never changes; a byte above 127 is in no class. *)
Definition isspace (c : ascii) : bool :=
  (nat_of_ascii c =? 32) || ((9 <=? nat_of_ascii c) && (nat_of_ascii c <=? 13)).

Definition isalpha (c : ascii) : bool :=
  ((65 <=? nat_of_ascii c) && (nat_of_ascii c <=? 90))
  || ((97 <=? nat_of_ascii c) && (nat_of_ascii c <=? 122)).

Definition isalnum (c : ascii) : bool := isalpha c || isdigit c.

Definition double_quote : ascii := ascii_of_nat 34.

(** The scanning loop [while (pos < length && test(line[pos])) pos++]:
    the characters that it passes over, and the rest of the line. *)
Fixpoint span (test : ascii -> bool) (line : string) : string * string :=
  match line with
  | EmptyString => (EmptyString, EmptyString)
  | String c rest =>
      if test c
      then let (run, after) := span test rest in (String c run, after)
      else (EmptyString, line)
  end.

(** [tokens[( *token_count)++] = token] for a token whose text was copied
    into [token.value] (or first into a local buffer of the same size).
    Neither the length of the text nor the number of tokens is checked
    by the source: a text of [MAX_TOKEN_LENGTH] characters or more
    overflows the buffer, and a token beyond the [capacity] of the
    caller's array overflows the array. *)
Definition emit (capacity : nat) (tokens : list Token) (type : TokenType)
           (text : string) (continue : list Token -> M (list Token)) : M (list Token) :=
  if (MAX_TOKEN_LENGTH <=? String.length text) || (capacity <=? List.length tokens)
  then undefined
  else continue (tokens ++ [mkToken type text]).

(** The loop of [tokenize_line] from the current position on; [line] is
    the text from that position, [tokens] the tokens found so far and
    [capacity] the length of the array that the caller passed.  Every
    iteration consumes a character at least, so the length of the line
    bounds the number of iterations. *)
Fixpoint tokenize_from (fuel capacity : nat) (line : string) (tokens : list Token)
         {struct fuel} : M (list Token) :=
  match fuel with
  | O => out_of_fuel
  | S fuel' =>
      match line with
      | EmptyString => ret tokens
      | String c rest =>
          if isspace c then tokenize_from fuel' capacity rest tokens
          else if Ascii.eqb c "#" then
            emit capacity tokens TOKEN_COMMENT
                 (substring 0 (MAX_TOKEN_LENGTH - 1) line) ret
          else if Ascii.eqb c double_quote || Ascii.eqb c "'" then
            let (text, after) := span (fun x => negb (Ascii.eqb x c)) rest in
            match after with
            | EmptyString =>
                modify (printf "Error: Unterminated string literal") ;;; ret tokens
            | String _ after' =>
                emit capacity tokens TOKEN_STRING text (tokenize_from fuel' capacity after')
            end
          else if isdigit c then
            let (text, after) := span isdigit line in
            emit capacity tokens TOKEN_NUMBER text (tokenize_from fuel' capacity after)
          else if isalpha c || Ascii.eqb c "_" then
            let (id, after) := span (fun x => isalnum x || Ascii.eqb x "_") line in
            emit capacity tokens
                 (if is_keyword id then TOKEN_KEYWORD else TOKEN_IDENTIFIER) id
                 (tokenize_from fuel' capacity after)
          else if is_operator_char c then
            let (op, after) := span is_operator_char line in
            if MAX_TOKEN_LENGTH <=? String.length op then undefined
            else if is_operator op then
              emit capacity tokens TOKEN_OPERATOR op (tokenize_from fuel' capacity after)
            else
              modify (printf ("Error: Unknown operator '" +++ op +++ "'")) ;;;
              tokenize_from fuel' capacity after tokens
          else if is_delimiter_char c then
            emit capacity tokens TOKEN_DELIMITER (String c EmptyString)
                 (tokenize_from fuel' capacity rest)
          else
            modify (printf ("Error: Unknown character '" +++ String c EmptyString +++ "'")) ;;;
            tokenize_from fuel' capacity rest tokens
      end
  end.

Definition tokenize_line (capacity : nat) (line : string) : M (list Token) :=
  tokenize_from (S (String.length line)) capacity line [].

(** ** The parser ([main.c], lines 244-349 and 560-1350)

    A parsing function of the source takes the array of tokens, the
    number of tokens and a pointer to the current position; it returns a
    node, or [NULL], and leaves the position where it stopped, also when
    it fails.  Here it takes the position and returns the node and the
    new position.  The errors that it prints go to the output, and
    [parse_function_definition] adds to the table of functions.

    The source leaves the link [nextblock] of the nodes of expressions
    unset.  No function of the evaluator reads it in such a node; it is
    a null link here.  The function [free_ast], which releases the
    memory of a tree, is not modelled. *)

Definition MAX_FUNCTIONS : nat := 100.

Definition ParseResult : Type := option ASTNode * nat.

Definition TokenType_eqb (a b : TokenType) : bool :=
  match a, b with
  | TOKEN_EOF, TOKEN_EOF
  | TOKEN_IDENTIFIER, TOKEN_IDENTIFIER
  | TOKEN_NUMBER, TOKEN_NUMBER
  | TOKEN_STRING, TOKEN_STRING
  | TOKEN_KEYWORD, TOKEN_KEYWORD
  | TOKEN_OPERATOR, TOKEN_OPERATOR
  | TOKEN_DELIMITER, TOKEN_DELIMITER
  | TOKEN_COMMENT, TOKEN_COMMENT
  | TOKEN_UNKNOWN, TOKEN_UNKNOWN => true
  | _, _ => false
  end.

(** [s[0]], which is the null character for the empty string. *)
Definition first_char (s : string) : ascii :=
  match s with
  | String c _ => c
  | EmptyString => zero
  end.

(** [tokens[pos]] where the source does not compare [pos] with the
    number of tokens first: beyond the tokens of the line the array holds
    what was there before. *)
Definition token_at (tokens : list Token) (pos : nat) : M Token :=
  fun st =>
    match nth_error tokens pos with
    | Some t => Done t st
    | None => Undefined
    end.

(** The test [pos < token_count && tokens[pos].type == type && ...]. *)
Definition token_is (type : TokenType) (test : string -> bool)
           (tokens : list Token) (pos : nat) : bool :=
  match nth_error tokens pos with
  | Some t => TokenType_eqb (token_type t) type && test (token_value t)
  | None => false
  end.

Definition delimiter_at (tokens : list Token) (pos : nat) (c : ascii) : bool :=
  token_is TOKEN_DELIMITER (fun v => Ascii.eqb (first_char v) c) tokens pos.

Definition keyword_at (tokens : list Token) (pos : nat) (k : string) : bool :=
  token_is TOKEN_KEYWORD (fun v => String.eqb v k) tokens pos.

Definition operator_at (tokens : list Token) (pos : nat) (op : string) : bool :=
  token_is TOKEN_OPERATOR (fun v => String.eqb v op) tokens pos.

Definition identifier_at (tokens : list Token) (pos : nat) : bool :=
  token_is TOKEN_IDENTIFIER (fun _ => true) tokens pos.

(** The operators of the three levels of [parse_comparison],
    [parse_additive] and [parse_term]. *)
Definition comparison_operator (v : string) : option OperatorType :=
  if String.eqb v "<" then Some OP_LESS_THAN
  else if String.eqb v ">" then Some OP_GREATER_THAN
  else if String.eqb v "<=" then Some OP_LESS_EQUAL
  else if String.eqb v ">=" then Some OP_GREATER_EQUAL
  else if String.eqb v "==" then Some OP_EQUAL
  else if String.eqb v "!=" then Some OP_NOT_EQUAL
  else None.

Definition additive_operator (v : string) : option OperatorType :=
  if String.eqb v "+" then Some OP_ADD
  else if String.eqb v "-" then Some OP_SUBTRACT
  else None.

Definition term_operator (v : string) : option OperatorType :=
  if String.eqb v "*" then Some OP_MULTIPLY
  else if String.eqb v "/" then Some OP_DIVIDE
  else None.

(** The registration at the end of [parse_function_definition]. *)
Definition register_function (entry : FunctionEntry) (st : State) : State :=
  if function_count st <? MAX_FUNCTIONS
  then mkState (functions st ++ [entry]) (variables st) (variable_count st)
               (scope_stack st) (output st)
  else printf "Error: Too many functions defined" st.

(** The loop over the parameters of a function definition: the names
    of the parameters and the position where the loop stops, or [None]
    with the position of a token that is not a name. *)
Fixpoint parse_parameters (rest : list Token) (pos : nat) (params : list string)
  : option (list string) * nat :=
  match rest with
  | [] => (Some params, pos)
  | t :: rest' =>
      if TokenType_eqb (token_type t) TOKEN_DELIMITER
         && Ascii.eqb (first_char (token_value t)) ")"
      then (Some params, pos)
      else if TokenType_eqb (token_type t) TOKEN_IDENTIFIER then
        match rest' with
        | t' :: rest'' =>
            if TokenType_eqb (token_type t') TOKEN_DELIMITER
               && Ascii.eqb (first_char (token_value t')) ","
            then parse_parameters rest'' (S (S pos)) (params ++ [token_value t])
            else parse_parameters rest' (S pos) (params ++ [token_value t])
        | [] => parse_parameters rest' (S pos) (params ++ [token_value t])
        end
      else (None, pos)
  end.

Section ParserSteps.

Variable tokens : list Token.

(** *** Expressions *)

Variable expression : nat -> M ParseResult.
Variable additive : nat -> M ParseResult.
Variable term : nat -> M ParseResult.
Variable factor : nat -> M ParseResult.
Variable comparison_loop : ASTNode -> nat -> M ParseResult.
Variable additive_loop : ASTNode -> nat -> M ParseResult.
Variable term_loop : ASTNode -> nat -> M ParseResult.
Variable arguments :
  option string -> list ASTNode -> nat -> M (option (list ASTNode) * nat).

(** The loop [while (pos < token_count && tokens[pos].type ==
    TOKEN_OPERATOR)] of a level: [operator_of] recognises the operators
    of the level, [operand] parses an operand and [loop] is the loop
    itself. *)
Definition binary_loop_step (operator_of : string -> option OperatorType)
           (operand : nat -> M ParseResult) (loop : ASTNode -> nat -> M ParseResult)
           (left : ASTNode) (pos : nat) : M ParseResult :=
  match nth_error tokens pos with
  | Some t =>
      if TokenType_eqb (token_type t) TOKEN_OPERATOR then
        match operator_of (token_value t) with
        | Some op =>
            r <- operand (S pos) ;;
            match fst r with
            | None => ret (None, snd r)
            | Some operand_node =>
                loop (mkASTNode (Some left) (Some operand_node) None (AST_BINARY_OP op))
                     (snd r)
            end
        | None => ret (Some left, pos)
        end
      else ret (Some left, pos)
  | None => ret (Some left, pos)
  end.

Definition binary_level_step (operand : nat -> M ParseResult)
           (loop : ASTNode -> nat -> M ParseResult) (pos : nat) : M ParseResult :=
  r <- operand pos ;;
  match fst r with
  | None => ret (None, snd r)
  | Some first_operand => loop first_operand (snd r)
  end.

Definition parse_comparison_step : nat -> M ParseResult :=
  binary_level_step additive comparison_loop.

Definition comparison_loop_step : ASTNode -> nat -> M ParseResult :=
  binary_loop_step comparison_operator additive comparison_loop.

Definition parse_additive_step : nat -> M ParseResult :=
  binary_level_step term additive_loop.

Definition additive_loop_step : ASTNode -> nat -> M ParseResult :=
  binary_loop_step additive_operator term additive_loop.

Definition parse_term_step : nat -> M ParseResult :=
  binary_level_step factor term_loop.

Definition term_loop_step : ASTNode -> nat -> M ParseResult :=
  binary_loop_step term_operator factor term_loop.

(** The loop over the arguments of a call.  The source chains the
    arguments through their links [right] while it parses them; here
    they are collected, and chained by [link_arguments] at the end.
    [message] is what the caller prints for an argument that does not
    parse. *)
Definition parse_arguments_step (message : option string) (args : list ASTNode)
           (pos : nat) : M (option (list ASTNode) * nat) :=
  match nth_error tokens pos with
  | None => ret (Some args, pos)
  | Some _ =>
      if delimiter_at tokens pos ")" then ret (Some args, pos)
      else
        r <- expression pos ;;
        match fst r with
        | None =>
            match message with
            | Some m => modify (printf m) ;;; ret (None, snd r)
            | None => ret (None, snd r)
            end
        | Some arg =>
            arguments message (args ++ [arg])
                      (if delimiter_at tokens (snd r) "," then S (snd r) else snd r)
        end
  end.

Definition parse_factor_step (pos : nat) : M ParseResult :=
  match nth_error tokens pos with
  | None => modify (printf "Error: Unexpected end of input in factor") ;;; ret (None, pos)
  | Some token =>
      if TokenType_eqb (token_type token) TOKEN_DELIMITER
         && Ascii.eqb (first_char (token_value token)) "("
      then
        r <- expression (S pos) ;;
        match fst r with
        | None => ret (None, snd r)
        | Some node =>
            if delimiter_at tokens (snd r) ")" then ret (Some node, S (snd r))
            else modify (printf "Error: Expected ')' after expression") ;;; ret (None, snd r)
        end
      else if TokenType_eqb (token_type token) TOKEN_NUMBER
              || TokenType_eqb (token_type token) TOKEN_STRING
      then ret (Some (mkASTNode None None None (AST_LITERAL (token_value token))), S pos)
      else if TokenType_eqb (token_type token) TOKEN_IDENTIFIER then
        if delimiter_at tokens (S pos) "(" then
          r <- arguments None [] (S (S pos)) ;;
          match fst r with
          | None => ret (None, snd r)
          | Some args =>
              if delimiter_at tokens (snd r) ")" then
                ret (Some (mkASTNode None None None
                             (AST_FUNCTION_CALL (token_value token)
                                                (Syntax.link_arguments args))),
                     S (snd r))
              else
                modify (printf "Error: Expected ')' after function call arguments") ;;;
                ret (None, snd r)
          end
        else if delimiter_at tokens (S pos) "[" then
          r <- expression (S (S pos)) ;;
          match fst r with
          | None => ret (None, snd r)
          | Some index_expr =>
              if delimiter_at tokens (snd r) "]" then
                ret (Some (mkASTNode (Some index_expr) None None
                             (AST_ARRAY_ACCESS (token_value token))),
                     S (snd r))
              else
                modify (printf "Error: Expected ']' after array index") ;;;
                ret (None, snd r)
          end
        else
          ret (Some (mkASTNode None None None (AST_IDENTIFIER (token_value token))), S pos)
      else
        modify (printf ("Error: Unexpected token '" +++ token_value token
                        +++ "' in factor")) ;;;
        ret (None, pos)
  end.

(** *** Statements that contain expressions only *)

Definition parse_array_access_step (pos : nat) : M ParseResult :=
  token <- token_at tokens pos ;;
  if negb (TokenType_eqb (token_type token) TOKEN_IDENTIFIER) then
    modify (printf "Error: Expected identifier for array access") ;;; ret (None, pos)
  else if delimiter_at tokens (S pos) "[" then
    r <- expression (S (S pos)) ;;
    match fst r with
    | None =>
        modify (printf "Error: Expected expression inside '[]'") ;;; ret (None, snd r)
    | Some key_expr =>
        if delimiter_at tokens (snd r) "]" then
          ret (Some (mkASTNode (Some key_expr) None None
                       (AST_ARRAY_ACCESS (token_value token))),
               S (snd r))
        else
          modify (printf "Error: Expected ']' after array index") ;;; ret (None, snd r)
    end
  else
    modify (printf "Error: Expected '[' after identifier for array access") ;;;
    ret (None, S pos).

(** When [parse_array_access_step] fails, the target is a null pointer, and
    the assignment is built around it all the same if an [=] follows. *)
Definition parse_assignment_statement_step (pos : nat) : M ParseResult :=
  token <- token_at tokens pos ;;
  if TokenType_eqb (token_type token) TOKEN_IDENTIFIER then
    t <- (if delimiter_at tokens (S pos) "[" then parse_array_access_step pos
          else ret (Some (mkASTNode None None None (AST_IDENTIFIER (token_value token))),
                    S pos)) ;;
    if operator_at tokens (snd t) "=" then
      r <- expression (S (snd t)) ;;
      match fst r with
      | None =>
          modify (printf "Error: Expected expression after '='") ;;; ret (None, snd r)
      | Some expr => ret (Some (mkASTNode (fst t) (Some expr) None AST_ASSIGNMENT), snd r)
      end
    else modify (printf "Error: Expected '=' after identifier") ;;; ret (None, snd t)
  else ret (None, pos).

Definition parse_print_statement_step (pos : nat) : M ParseResult :=
  token <- token_at tokens pos ;;
  if TokenType_eqb (token_type token) TOKEN_KEYWORD
     && String.eqb (token_value token) "print"
  then
    if delimiter_at tokens (S pos) "(" then
      r <- expression (S (S pos)) ;;
      match fst r with
      | None =>
          modify (printf "Error: Expected expression after 'print('") ;;; ret (None, snd r)
      | Some expr =>
          if delimiter_at tokens (snd r) ")" then
            ret (Some (mkASTNode (Some expr) None None AST_PRINT), S (snd r))
          else
            modify (printf "Error: Expected ')' after expression") ;;; ret (None, snd r)
      end
    else modify (printf "Error: Expected '(' after 'print'") ;;; ret (None, S pos)
  else ret (None, pos).

(** An expression that does not parse after [return] stands for the
    literal 0. *)
Definition parse_return_statement_step (pos : nat) : M ParseResult :=
  if keyword_at tokens pos "return" then
    r <- expression (S pos) ;;
    let expr :=
      match fst r with
      | Some e => e
      | None => mkASTNode None None None (AST_LITERAL "0")
      end in
    ret (Some (mkASTNode None None None (AST_RETURN_STATEMENT (Some expr))), snd r)
  else ret (None, pos).

Definition parse_function_call_step (pos : nat) : M ParseResult :=
  token <- token_at tokens pos ;;
  if TokenType_eqb (token_type token) TOKEN_IDENTIFIER
     && delimiter_at tokens (S pos) "("
  then
    r <- arguments (Some "Error: Expected expression in function call arguments"%string)
                   [] (S (S pos)) ;;
    match fst r with
    | None => ret (None, snd r)
    | Some args =>
        if delimiter_at tokens (snd r) ")" then
          ret (Some (mkASTNode None None None
                       (AST_FUNCTION_CALL (token_value token) (Syntax.link_arguments args))),
               S (snd r))
        else
          modify (printf "Error: Expected ')' after function call arguments") ;;;
          ret (None, snd r)
    end
  else ret (None, pos).

(** *** Statements that contain blocks *)

Variable statement : nat -> M ParseResult.
Variable block : nat -> M ParseResult.
Variable block_loop : list ASTNode -> nat -> M ParseResult.
Variable if_statement : nat -> M ParseResult.
Variable for_statement : nat -> M ParseResult.
Variable while_statement : nat -> M ParseResult.
Variable function_definition : nat -> M ParseResult.

Definition parse_if_statement_step (pos : nat) : M ParseResult :=
  token <- token_at tokens pos ;;
  if TokenType_eqb (token_type token) TOKEN_KEYWORD && String.eqb (token_value token) "if"
  then
    c <- expression (S pos) ;;
    match fst c with
    | None => modify (printf "Error: Expected condition after 'if'") ;;; ret (None, snd c)
    | Some condition =>
        t <- block (snd c) ;;
        match fst t with
        | None =>
            modify (printf "Error: Expected block after 'if' condition") ;;;
            ret (None, snd t)
        | Some then_branch =>
            e <- (if keyword_at tokens (snd t) "else" then
                    e <- block (S (snd t)) ;;
                    match fst e with
                    | None =>
                        modify (printf "Error: Expected block after 'else'") ;;;
                        ret (None, snd e)
                    | Some else_branch => ret (Some (Some else_branch), snd e)
                    end
                  else ret (Some None, snd t)) ;;
            match fst e with
            | None => ret (None, snd e)
            | Some else_branch =>
                if keyword_at tokens (snd e) "end" then
                  ret (Some (mkASTNode None None None
                               (AST_IF_STATEMENT (Some condition) (Some then_branch)
                                                 else_branch)),
                       S (snd e))
                else
                  modify (printf "Error: Expected 'end' after 'if' statement") ;;;
                  ret (None, snd e)
            end
        end
    end
  else ret (None, pos).

Definition parse_for_statement_step (pos : nat) : M ParseResult :=
  if keyword_at tokens pos "for" then
    match nth_error tokens (S pos) with
    | Some token =>
        if TokenType_eqb (token_type token) TOKEN_IDENTIFIER then
          if keyword_at tokens (S (S pos)) "in" then
            e <- expression (S (S (S pos))) ;;
            match fst e with
            | None =>
                modify (printf "Error: Expected expression after 'in'") ;;;
                ret (None, snd e)
            | Some expr =>
                b <- block (snd e) ;;
                match fst b with
                | None =>
                    modify (printf "Error: Expected block after 'for' statement") ;;;
                    ret (None, snd b)
                | Some body =>
                    if keyword_at tokens (snd b) "end" then
                      ret (Some (mkASTNode None None None
                                   (AST_FOR_STATEMENT (token_value token) (Some expr)
                                                      (Some body))),
                           S (snd b))
                    else
                      modify (printf "Error: Expected 'end' after 'for' block") ;;;
                      ret (None, snd b)
                end
            end
          else
            modify (printf "Error: Expected 'in' after loop variable") ;;;
            ret (None, S (S pos))
        else
          modify (printf "Error: Expected identifier after 'for'") ;;; ret (None, S pos)
    | None =>
        modify (printf "Error: Expected identifier after 'for'") ;;; ret (None, S pos)
    end
  else ret (None, pos).

Definition parse_while_statement_step (pos : nat) : M ParseResult :=
  if keyword_at tokens pos "while" then
    c <- expression (S pos) ;;
    match fst c with
    | None =>
        modify (printf "Error: Expected condition after 'while'") ;;; ret (None, snd c)
    | Some condition =>
        b <- block (snd c) ;;
        match fst b with
        | None =>
            modify (printf "Error: Expected block after 'while' condition") ;;;
            ret (None, snd b)
        | Some body =>
            if keyword_at tokens (snd b) "end" then
              ret (Some (mkASTNode None None None
                           (AST_WHILE_STATEMENT (Some condition) (Some body))),
                   S (snd b))
            else
              modify (printf "Error: Expected 'end' after 'while' block") ;;;
              ret (None, snd b)
        end
    end
  else ret (None, pos).

Definition parse_function_definition_step (pos : nat) : M ParseResult :=
  if keyword_at tokens pos "def" then
    match nth_error tokens (S pos) with
    | Some token =>
        if TokenType_eqb (token_type token) TOKEN_IDENTIFIER then
          if delimiter_at tokens (S (S pos)) "(" then
            let p := parse_parameters (skipn (S (S (S pos))) tokens) (S (S (S pos))) [] in
            match fst p with
            | None =>
                modify (printf "Error: Expected parameter name or ')' in function definition") ;;;
                ret (None, snd p)
            | Some params =>
                if delimiter_at tokens (snd p) ")" then
                  b <- block (S (snd p)) ;;
                  match fst b with
                  | None =>
                      modify (printf "Error: Expected block after function definition") ;;;
                      ret (None, snd b)
                  | Some body =>
                      if keyword_at tokens (snd b) "end" then
                        let param_list :=
                          Syntax.link_arguments (List.map Syntax.identifier params) in
                        modify (register_function
                                  (mkFunction (token_value token) param_list (Some body))) ;;;
                        ret (Some (mkASTNode None None None
                                     (AST_FUNCTION_DEFINITION (token_value token) param_list
                                                              (Some body))),
                             S (snd b))
                      else
                        modify (printf "Error: Expected 'end' after function body") ;;;
                        ret (None, snd b)
                  end
                else
                  modify (printf "Error: Expected ')' after parameters") ;;;
                  ret (None, snd p)
            end
          else
            modify (printf "Error: Expected '(' after function name") ;;;
            ret (None, S (S pos))
        else
          modify (printf "Error: Expected function name after 'def'") ;;;
          ret (None, S pos)
    | None =>
        modify (printf "Error: Expected function name after 'def'") ;;; ret (None, S pos)
    end
  else ret (None, pos).

(** The alternatives of [parse_statement], tried in order; each one
    starts where the one before it stopped. *)
Fixpoint first_success (alternatives : list (nat -> M ParseResult)) (pos : nat)
  : M ParseResult :=
  match alternatives with
  | [] =>
      token <- token_at tokens pos ;;
      modify (printf ("Error: Unrecognized statement starting with '"
                      +++ token_value token +++ "'")) ;;;
      ret (None, pos)
  | parse :: rest =>
      r <- parse pos ;;
      match fst r with
      | Some node => ret (Some node, snd r)
      | None => first_success rest (snd r)
      end
  end.

Definition parse_statement_step (pos : nat) : M ParseResult :=
  match nth_error tokens pos with
  | None => ret (None, pos)
  | Some _ =>
      first_success
        [ for_statement; if_statement; while_statement; function_definition;
          parse_return_statement_step; parse_function_call_step; parse_print_statement_step;
          parse_assignment_statement_step ]
        pos
  end.

(** The loop of [parse_block]; the statements are chained through
    [nextblock] by [link_block]. *)
Definition parse_block_loop_step (stmts : list ASTNode) (pos : nat) : M ParseResult :=
  match nth_error tokens pos with
  | None => ret (Syntax.link_block stmts, pos)
  | Some token =>
      if TokenType_eqb (token_type token) TOKEN_KEYWORD
         && (String.eqb (token_value token) "else" || String.eqb (token_value token) "end")
      then ret (Syntax.link_block stmts, pos)
      else
        r <- statement pos ;;
        match fst r with
        | None =>
            modify (printf "Error: Failed to parse statement in block") ;;;
            ret (None, snd r)
        | Some stmt => block_loop (stmts ++ [stmt]) (snd r)
        end
  end.

End ParserSteps.

(** *** The parser, by recursion on the fuel *)

Fixpoint parse_comparison (fuel : nat) (tokens : list Token) (pos : nat) {struct fuel}
  : M ParseResult :=
  match fuel with
  | O => out_of_fuel
  | S fuel' =>
      parse_comparison_step (parse_additive fuel' tokens) (comparison_loop fuel' tokens) pos
  end

with comparison_loop (fuel : nat) (tokens : list Token) (left : ASTNode) (pos : nat)
       {struct fuel} : M ParseResult :=
  match fuel with
  | O => out_of_fuel
  | S fuel' =>
      comparison_loop_step tokens (parse_additive fuel' tokens)
                           (comparison_loop fuel' tokens) left pos
  end

with parse_additive (fuel : nat) (tokens : list Token) (pos : nat) {struct fuel}
  : M ParseResult :=
  match fuel with
  | O => out_of_fuel
  | S fuel' =>
      parse_additive_step (parse_term fuel' tokens) (additive_loop fuel' tokens) pos
  end

with additive_loop (fuel : nat) (tokens : list Token) (left : ASTNode) (pos : nat)
       {struct fuel} : M ParseResult :=
  match fuel with
  | O => out_of_fuel
  | S fuel' =>
      additive_loop_step tokens (parse_term fuel' tokens) (additive_loop fuel' tokens)
                         left pos
  end

with parse_term (fuel : nat) (tokens : list Token) (pos : nat) {struct fuel}
  : M ParseResult :=
  match fuel with
  | O => out_of_fuel
  | S fuel' => parse_term_step (parse_factor fuel' tokens) (term_loop fuel' tokens) pos
  end

with term_loop (fuel : nat) (tokens : list Token) (left : ASTNode) (pos : nat)
       {struct fuel} : M ParseResult :=
  match fuel with
  | O => out_of_fuel
  | S fuel' =>
      term_loop_step tokens (parse_factor fuel' tokens) (term_loop fuel' tokens) left pos
  end

with parse_factor (fuel : nat) (tokens : list Token) (pos : nat) {struct fuel}
  : M ParseResult :=
  match fuel with
  | O => out_of_fuel
  | S fuel' =>
      parse_factor_step tokens (parse_comparison fuel' tokens)
                        (parse_arguments fuel' tokens) pos
  end

with parse_arguments (fuel : nat) (tokens : list Token) (message : option string)
       (args : list ASTNode) (pos : nat) {struct fuel}
  : M (option (list ASTNode) * nat) :=
  match fuel with
  | O => out_of_fuel
  | S fuel' =>
      parse_arguments_step tokens (parse_comparison fuel' tokens)
                           (parse_arguments fuel' tokens) message args pos
  end.

(** [parse_expression] only calls [parse_comparison]. *)
Definition parse_expression : nat -> list Token -> nat -> M ParseResult :=
  parse_comparison.


Fixpoint parse_statement (fuel : nat) (tokens : list Token) (pos : nat) {struct fuel}
  : M ParseResult :=
  match fuel with
  | O => out_of_fuel
  | S fuel' =>
      parse_statement_step tokens (parse_expression fuel' tokens)
                           (parse_arguments fuel' tokens)
                           (parse_if_statement fuel' tokens)
                           (parse_for_statement fuel' tokens)
                           (parse_while_statement fuel' tokens)
                           (parse_function_definition fuel' tokens) pos
  end

with parse_block (fuel : nat) (tokens : list Token) (pos : nat) {struct fuel}
  : M ParseResult :=
  match fuel with
  | O => out_of_fuel
  | S fuel' => parse_block_loop fuel' tokens [] pos
  end

with parse_block_loop (fuel : nat) (tokens : list Token) (stmts : list ASTNode)
       (pos : nat) {struct fuel} : M ParseResult :=
  match fuel with
  | O => out_of_fuel
  | S fuel' =>
      parse_block_loop_step tokens (parse_statement fuel' tokens)
                            (parse_block_loop fuel' tokens) stmts pos
  end

with parse_if_statement (fuel : nat) (tokens : list Token) (pos : nat) {struct fuel}
  : M ParseResult :=
  match fuel with
  | O => out_of_fuel
  | S fuel' =>
      parse_if_statement_step tokens (parse_expression fuel' tokens)
                              (parse_block fuel' tokens) pos
  end

with parse_for_statement (fuel : nat) (tokens : list Token) (pos : nat) {struct fuel}
  : M ParseResult :=
  match fuel with
  | O => out_of_fuel
  | S fuel' =>
      parse_for_statement_step tokens (parse_expression fuel' tokens)
                               (parse_block fuel' tokens) pos
  end

with parse_while_statement (fuel : nat) (tokens : list Token) (pos : nat) {struct fuel}
  : M ParseResult :=
  match fuel with
  | O => out_of_fuel
  | S fuel' =>
      parse_while_statement_step tokens (parse_expression fuel' tokens)
                                 (parse_block fuel' tokens) pos
  end

with parse_function_definition (fuel : nat) (tokens : list Token) (pos : nat)
       {struct fuel} : M ParseResult :=
  match fuel with
  | O => out_of_fuel
  | S fuel' => parse_function_definition_step tokens (parse_block fuel' tokens) pos
  end.

(** ** The driver ([main.c], lines 336-349 and 2168-2192) *)

(** [parse_and_execute]: the statements are parsed and executed one by
    one, up to the first that does not parse. *)
Fixpoint parse_and_execute {libc : LibC} (fuel : nat) (tokens : list Token) (pos : nat)
         {struct fuel} : M unit :=
  match fuel with
  | O => out_of_fuel
  | S fuel' =>
      if pos <? List.length tokens then
        r <- parse_statement fuel' tokens pos ;;
        match fst r with
        | Some node =>
            execute_ast fuel' (Some node) ;;; parse_and_execute fuel' tokens (snd r)
        | None => ret tt
        end
      else ret tt
  end.

Definition MAX_LINE_LENGTH : nat := 1024.
Definition MAX_TOKENS : nat := 100.

(** [main] with the name of a script: [contents] is the text that the
    calls of [fgets] read from the file and [strcat] appends to the
    buffer, which overflows at [MAX_LINE_LENGTH * 1000] characters. *)
Definition run_script {libc : LibC} (fuel : nat) (contents : string) : M unit :=
  if MAX_LINE_LENGTH * 1000 <=? String.length contents then undefined
  else
    tokens <- tokenize_line (MAX_TOKENS * 100) contents ;;
    parse_and_execute fuel tokens 0.

(** ** Vocabulary of the proofs *)

(** One outcome is below another when it is out of fuel or equal to it;
    with more fuel a computation can only move up. *)
Definition le_outcome {A : Type} (r1 r2 : Outcome A) : Prop :=
  r1 = OutOfFuel \/ r1 = r2.

Definition le_M {A : Type} (m1 m2 : M A) : Prop :=
  forall st, le_outcome (m1 st) (m2 st).

(** A family of computations indexed by fuel that only gains results. *)
Definition monotone {A : Type} (run : nat -> M A) : Prop :=
  forall n m, n <= m -> le_M (run n) (run m).

(** A computation keeps [P] when every result that it reaches from a
    state in [P] is in [P]. *)
Definition preserves {A : Type} (P : State -> Prop) (m : M A) : Prop :=
  forall st a st', P st -> m st = Done a st' -> P st'.

(** The bound on the depth of the scope stack. *)
Definition depth_bounded (st : State) : Prop := scope_depth st <= MAX_SCOPES.

(** ** Vocabulary of the specification *)

(** Truthiness as the specification words it: a number is true when it
    is not zero, a string when it is not empty, an array when it has at
    least one entry. *)
Definition truthy (r : EvalResult) (st : State) : bool :=
  match r with
  | RESULT_NUMBER d => negb (Double.eqb d Double.zero)
  | RESULT_STRING s => negb (String.eqb s EmptyString)
  | RESULT_ASSOC_ARRAY p => 1 <=? size (deref st p)
  end.

(** A result is a scalar when it is a number or a string. *)
Definition is_scalar (r : EvalResult) : bool :=
  match r with
  | RESULT_ASSOC_ARRAY _ => false
  | _ => true
  end.

(** Running one computation per entry of a list of pairs, in order. *)
Fixpoint for_each (run : KeyValuePair -> M unit) (ps : list KeyValuePair) : M unit :=
  match ps with
  | [] => ret tt
  | p :: ps' => bind (run p) (fun _ => for_each run ps')
  end.


(** An array into which [set_assoc_array_value] can always store. *)
Definition well_formed_array (a : AssocArray) : Prop :=
  size a <= capacity a /\ 0 < capacity a.

(** The value and the final state of a computation that ended. *)
Definition outcome_value {A : Type} (o : Outcome A) : option A :=
  match o with
  | Done a _ => Some a
  | _ => None
  end.

Definition outcome_state {A : Type} (o : Outcome A) : option State :=
  match o with
  | Done _ st => Some st
  | _ => None
  end.

(** The lines that a program writes when run from the initial state. *)
Definition output_of {libc : LibC} (fs : list FunctionEntry) (program : list ASTNode)
  : option (list string) :=
  option_map output (outcome_state (execute_program 100 program (initial_state fs))).

Definition outcome_state_or {A : Type} (default : State) (o : Outcome A) : State :=
  match o with
  | Done _ st => st
  | _ => default
  end.

(** The variable [x] is new and a slot is free for it, or its array is
    empty or holds the default key only. *)
Definition holds_at_most_default (x : string) (st : State) : Prop :=
  match get_variable x st with
  | None => variable_count st < MAX_VARIABLES
  | Some i =>
      let a := var_array (slot (variables st) i) in
      (pairs a = [] /\ 0 < capacity a) \/ exists old, pairs a = [mkPair EmptyString old]
  end.

(** The variable [x] is new and a slot is free for it, or its array is
    well formed. *)
Definition can_store (x : string) (st : State) : Prop :=
  match get_variable x st with
  | None => variable_count st < MAX_VARIABLES
  | Some i => well_formed_array (var_array (slot (variables st) i))
  end.

(** Everything in the state but the output. *)
Definition frame (st : State)
  : list FunctionEntry * list KVariable * nat * list (list KVariable * nat) :=
  (functions st, variables st, variable_count st, scope_stack st).

(** An expression that contains no function call. *)
Fixpoint call_free (n : ASTNode) : bool :=
  match n with
  | mkASTNode l r _ d =>
      let sub (o : option ASTNode) :=
        match o with
        | Some n' => call_free n'
        | None => true
        end in
      match d with
      | AST_LITERAL _ | AST_IDENTIFIER _ => true
      | AST_ARRAY_ACCESS _ => sub l
      | AST_BINARY_OP _ => sub l && sub r
      | _ => false
      end
  end.

Definition call_free_option (o : option ASTNode) : bool :=
  match o with
  | Some n => call_free n
  | None => true
  end.

(** ** Concrete programs *)

Module Example.

Import Syntax.
Local Open Scope string_scope.

#[local] Existing Instance RefLibC.libc.

(** The state in which a program leaves a fresh interpreter. *)
Definition state_after (fuel : nat) (fs : list FunctionEntry) (prog : list ASTNode)
  : State :=
  match execute_program fuel prog (initial_state fs) with
  | Done _ st => st
  | _ => initial_state fs
  end.

(** [x["k"] = 10] *)
Definition singleton_x : State :=
  state_after 5 [] [assignment (array_access "x" (literal "k")) (literal "10")].

(** [a["x"] = 1] and [a["y"] = 2] *)
Definition two_entries : State :=
  state_after 5 []
    [ assignment (array_access "a" (literal "x")) (literal "1");
      assignment (array_access "a" (literal "y")) (literal "2") ].

(** [if a ... print("yes") ... end] *)
Definition if_a_yes : ASTNode :=
  if_statement (identifier "a") [print (literal "yes")] [].

(** [if 1 ... print("yes") ... end] *)
Definition if_1_yes : ASTNode :=
  if_statement (literal "1") [print (literal "yes")] [].




(** [def f(a) return 5 end] *)
Definition f_returns_5 : FunctionEntry :=
  function_entry "f" ["a"] [return_statement (literal "5")].


(** [f(1)] *)
Definition f_of_1 : ASTNode := function_call "f" [literal "1"].

(** The frame of [f] in the call [f(1)]: the caller's empty table is
    saved and the parameter [a] holds the text 1. *)
Definition frame_of_f_1 : State :=
  mkState [f_returns_5]
          [mkVariable "a" (mkArray [mkPair EmptyString "1"] 4)] 1
          [([], 0)] [].

(** [x["a"] = 1] and [x["b"] = 2] *)
Definition x_two_entries : State :=
  state_after 5 []
    [ assignment (array_access "x" (literal "a")) (literal "1");
      assignment (array_access "x" (literal "b")) (literal "2") ].

(** [x = 5] *)
Definition assign_x_5 : ASTNode := assignment (identifier "x") (literal "5").

(** The state after [x = 5] in [x_two_entries]: the default key is a
    third entry. *)
Definition x_three_entries : State :=
  mkState []
          [mkVariable "x" (mkArray [mkPair "a" "1"; mkPair "b" "2"; mkPair EmptyString "5"] 4)]
          1 [] [].

(** [x = 10] *)
Definition assign_x_10 : ASTNode := assignment (identifier "x") (literal "10").

(** [a["lemon"] = 3] *)
Definition assign_a_lemon_3 : ASTNode :=
  assignment (array_access "a" (literal "lemon")) (literal "3").

(** [x = 1234567] *)
Definition assign_x_1234567 : ASTNode := assignment (identifier "x") (literal "1234567").

(** [for k in a ... print(k) ... end] *)
Definition loop_print_k : ASTNode :=
  for_statement "k" (identifier "a") [print (identifier "k")].

(** [for i in a ... print(i) ... a["z"] = 9 ... end] *)
Definition growing_loop_body : list ASTNode :=
  [ print (identifier "i");
    assignment (array_access "a" (literal "z")) (literal "9") ].

Definition growing_loop : ASTNode :=
  for_statement "i" (identifier "a") growing_loop_body.

(** The entries of [a] in [two_entries]. *)
Definition entries_of_a : list KeyValuePair := [mkPair "x" "1"; mkPair "y" "2"].

(** Between the iterations of [loop_print_k]: the first slot is the
    variable [a] with its two entries, and it is in use. *)
Definition a_is_first (s : State) : Prop :=
  slot (variables s) 0 = mkVariable "a" (mkArray entries_of_a 4)
  /\ 0 < variable_count s.

(** [def f() return 0 end] *)
Definition f_returns_0 : FunctionEntry :=
  function_entry "f" [] [return_statement (literal "0")].

(** The state after [x = 1] at the top level, with [f_returns_0]
    registered. *)
Definition x_is_1 : State :=
  state_after 5 [f_returns_0] [assignment (identifier "x") (literal "1")].

(** [f()] *)
Definition call_f : ASTNode := function_call "f" [].

(** [def f() if 1 return 5 end return 7 end] *)
Definition f_nested_return : FunctionEntry :=
  function_entry "f" []
    [ if_statement (literal "1") [return_statement (literal "5")] [];
      return_statement (literal "7") ].

(** [def g(a) return a end] and [def f() return g(nosuch) end] *)
Definition g_identity : FunctionEntry :=
  function_entry "g" ["a"] [return_statement (identifier "a")].

Definition call_g_nosuch : ASTNode := function_call "g" [identifier "nosuch"].

Definition f_calls_g : FunctionEntry :=
  function_entry "f" [] [return_statement call_g_nosuch].

(** The state in which the body of [f_calls_g] starts when [f()] is
    called at the top level. *)
Definition inside_f : State := push_scope (initial_state [g_identity; f_calls_g]).




(** [x["b"] = a], where [a] has two entries *)
Definition assign_x_b_a : ASTNode :=
  assignment (array_access "x" (literal "b")) (identifier "a").

End Example.

(** ** Vocabulary of the properties beyond the specification *)

(** The lines that a script writes when a fresh interpreter runs it. *)
Definition script_output {libc : LibC} (contents : string) : option (list string) :=
  option_map output (outcome_state (run_script 100 contents (initial_state []))).

(** The keys of an array, in the order of its entries. *)
Definition keys (a : AssocArray) : list string := List.map key (pairs a).

(** The array has an entry for the key. *)
Definition has_key (a : AssocArray) (k : string) : bool :=
  existsb (String.eqb k) (keys a).

(** From [st] to [st'] the functions are the same and the output has
    only grown. *)
Definition appends_output (st st' : State) : Prop :=
  functions st' = functions st /\ exists lines, output st' = output st ++ lines.

(** The table of variables is not overfull. *)
Definition count_bounded (st : State) : Prop := variable_count st <= MAX_VARIABLES.

(** The context in which the operands of a binary operation are
    evaluated: arithmetic for the operators of arithmetic, the context
    of the operation for the comparisons. *)
Definition operand_context (op : OperatorType) (context : EvalContext) : EvalContext :=
  if is_arithmetic_operator op then EVAL_ARITHMETIC else context.

(** The node is a variable. *)
Definition is_identifier (node : option ASTNode) : bool :=
  match node with
  | Some n => match node_data n with AST_IDENTIFIER _ => true | _ => false end
  | None => false
  end.

(** The pointer does not point to the array of the variable [name]: it
    points to a variable in use with another name, or to an array
    outside the table. *)
Definition not_the_array_of (name : string) (p : ArrayPointer) (st : State) : Prop :=
  match p with
  | InVariable j => j < variable_count st /\ var_name (slot (variables st) j) <> name
  | Detached _ => True
  end.

(** Every character of the string passes the test. *)
Fixpoint string_forall (test : ascii -> bool) (s : string) : bool :=
  match s with
  | EmptyString => true
  | String c rest => test c && string_forall test rest
  end.

(** The text of the token fits its buffer and has the form of its
    type. *)
Definition well_formed_token (t : Token) : bool :=
  (String.length (token_value t) <? MAX_TOKEN_LENGTH)
  && match token_type t with
     | TOKEN_NUMBER =>
         negb (String.eqb (token_value t) EmptyString)
         && string_forall isdigit (token_value t)
     | TOKEN_IDENTIFIER =>
         match token_value t with
         | String c _ => isalpha c || Ascii.eqb c "_"
         | EmptyString => false
         end
         && string_forall (fun x => isalnum x || Ascii.eqb x "_") (token_value t)
         && negb (is_keyword (token_value t))
     | TOKEN_KEYWORD => is_keyword (token_value t)
     | TOKEN_OPERATOR => is_operator (token_value t)
     | TOKEN_DELIMITER =>
         match token_value t with
         | String c EmptyString => is_delimiter_char c
         | _ => false
         end
     | TOKEN_STRING => true
     | TOKEN_COMMENT =>
         match token_value t with
         | String c _ => Ascii.eqb c "#"
         | EmptyString => false
         end
     | TOKEN_EOF | TOKEN_UNKNOWN => false
     end.

(** A character that starts neither a comment nor a string literal. *)
Definition outside_literals_and_comments (c : ascii) : bool :=
  negb (Ascii.eqb c "#" || Ascii.eqb c double_quote || Ascii.eqb c "'").

(** One of the characters [(),[]]. *)
Definition delimiter_character (c : ascii) : bool :=
  is_delimiter_char c && negb (Ascii.eqb c zero).

(** The tokens of a list of parameter names, separated by commas. *)
Fixpoint parameter_tokens (names : list string) : list Token :=
  match names with
  | [] => []
  | [name] => [mkToken TOKEN_IDENTIFIER name]
  | name :: names' =>
      mkToken TOKEN_IDENTIFIER name :: mkToken TOKEN_DELIMITER "," :: parameter_tokens names'
  end.

(** The expressions of the language without calls. *)
Inductive Expression : Type :=
  | Number (digits : string)
  | Text (text : string)
  | Name (name : string)
  | Element (name : string) (index : Expression)
  | Operation (op : OperatorType) (l r : Expression).

(** The level of an operator: 0 for the comparisons, 1 for addition and
    subtraction, 2 for multiplication and division. *)
Definition level (op : OperatorType) : nat :=
  match op with
  | OP_MULTIPLY | OP_DIVIDE => 2
  | OP_ADD | OP_SUBTRACT => 1
  | _ => 0
  end.

Definition operator_text (op : OperatorType) : string :=
  match op with
  | OP_ADD => "+"
  | OP_SUBTRACT => "-"
  | OP_MULTIPLY => "*"
  | OP_DIVIDE => "/"
  | OP_LESS_THAN => "<"
  | OP_GREATER_THAN => ">"
  | OP_EQUAL => "=="
  | OP_NOT_EQUAL => "!="
  | OP_LESS_EQUAL => "<="
  | OP_GREATER_EQUAL => ">="
  end.

(** The tree of an expression. *)
Fixpoint tree_of (e : Expression) : ASTNode :=
  match e with
  | Number digits => Syntax.literal digits
  | Text text => Syntax.literal text
  | Name name => Syntax.identifier name
  | Element name index => Syntax.array_access name (tree_of index)
  | Operation op l r => Syntax.binary_op op (tree_of l) (tree_of r)
  end.

(** The tokens of an expression written as an operand of an operator of
    level [lvl - 1], with the parentheses that this takes: an operation
    of a lower level is put in parentheses, and so is the right operand
    of an operator of its own level. *)
Fixpoint tokens_of (lvl : nat) (e : Expression) : list Token :=
  match e with
  | Number digits => [mkToken TOKEN_NUMBER digits]
  | Text text => [mkToken TOKEN_STRING text]
  | Name name => [mkToken TOKEN_IDENTIFIER name]
  | Element name index =>
      mkToken TOKEN_IDENTIFIER name :: mkToken TOKEN_DELIMITER "["
      :: tokens_of 0 index ++ [mkToken TOKEN_DELIMITER "]"]
  | Operation op l r =>
      let body :=
        tokens_of (level op) l
        ++ mkToken TOKEN_OPERATOR (operator_text op) :: tokens_of (S (level op)) r in
      if level op <? lvl
      then mkToken TOKEN_DELIMITER "(" :: body ++ [mkToken TOKEN_DELIMITER ")"]
      else body
  end.

(** The level of the operator of a token, if it is one. *)
Definition token_level (t : Token) : option nat :=
  if TokenType_eqb (token_type t) TOKEN_OPERATOR then
    match term_operator (token_value t), additive_operator (token_value t),
          comparison_operator (token_value t) with
    | Some _, _, _ => Some 2
    | None, Some _, _ => Some 1
    | None, None, Some _ => Some 0
    | None, None, None => None
    end
  else None.

(** What may follow an operand of an operator of level [lvl - 1]: no
    operator of level [lvl] or above, and no opening parenthesis or
    bracket. *)
Definition below (lvl : nat) (rest : list Token) : bool :=
  match rest with
  | [] => true
  | t :: _ =>
      negb (TokenType_eqb (token_type t) TOKEN_DELIMITER
            && (Ascii.eqb (first_char (token_value t)) "("
                || Ascii.eqb (first_char (token_value t)) "["))
      && match token_level t with
         | Some j => j <? lvl
         | None => true
         end
  end.

(** The parsing functions by level. *)
Definition parse_level (lvl : nat) : nat -> list Token -> nat -> M ParseResult :=
  match lvl with
  | 0 => parse_comparison
  | 1 => parse_additive
  | 2 => parse_term
  | _ => parse_factor
  end.

Definition loop_level (lvl : nat) : nat -> list Token -> ASTNode -> nat -> M ParseResult :=
  match lvl with
  | 0 => comparison_loop
  | 1 => additive_loop
  | _ => term_loop
  end.

Definition operator_level (lvl : nat) : string -> option OperatorType :=
  match lvl with
  | 0 => comparison_operator
  | 1 => additive_operator
  | _ => term_operator
  end.

(** A computation indexed by fuel reaches a result. *)
Definition reaches {A : Type} (run : nat -> M A) (st : State) (a : A) (st' : State)
  : Prop :=
  exists fuel, run fuel st = Done a st'.

(** The tokens [toks] at any position, followed by what may follow at
    level [lvl], parse at that level to [tree]. *)
Definition parses_at (lvl : nat) (tree : ASTNode) (toks : list Token) : Prop :=
  forall tokens pos rest st,
    skipn pos tokens = toks ++ rest ->
    below lvl rest = true ->
    reaches (fun fuel => parse_level lvl fuel tokens pos) st
            (Some tree, pos + List.length toks) st.

(** Parsing the tokens [toks] at level [lvl] comes to the loop of that
    level with [tree] as the left operand. *)
Definition continues_at (lvl : nat) (tree : ASTNode) (toks : list Token) : Prop :=
  forall tokens pos rest st r st',
    skipn pos tokens = toks ++ rest ->
    below (S lvl) rest = true ->
    reaches (fun fuel => loop_level lvl fuel tokens tree (pos + List.length toks)) st r st' ->
    reaches (fun fuel => parse_level lvl fuel tokens pos) st r st'.

(** What may follow an expression: no operator of an expression, and
    no opening parenthesis or bracket. *)
Definition ends_expression (rest : list Token) : bool := below 0 rest.

(** The text of a token: a string literal between double quotes, every
    other token as it is. *)
Definition token_text (t : Token) : string :=
  match token_type t with
  | TOKEN_STRING =>
      String double_quote (token_value t ++ String double_quote EmptyString)
  | _ => token_value t
  end.

(** The text of a list of tokens, with a space after each. *)
Fixpoint text_of (tokens : list Token) : string :=
  match tokens with
  | [] => EmptyString
  | t :: rest => (token_text t ++ String " " (text_of rest))%string
  end.

(** A token that can be written: it is well formed; a string literal
    holds no double quote; it is no comment, which would take the rest
    of the text, and no delimiter that is the null character. *)
Definition writable (t : Token) : bool :=
  well_formed_token t
  && match token_type t with
     | TOKEN_STRING =>
         string_forall (fun c => negb (Ascii.eqb c double_quote)) (token_value t)
     | TOKEN_DELIMITER => string_forall delimiter_character (token_value t)
     | TOKEN_COMMENT => false
     | _ => true
     end.

(** The statements of the language without calls and definitions of
    functions; a block holds one statement at least. *)
Inductive Statement : Type :=
  | S_print (e : Expression)
  | S_assign (x : string) (e : Expression)
  | S_assign_element (x : string) (index e : Expression)
  | S_return (e : Expression)
  | S_if (c : Expression) (t : Block)
  | S_if_else (c : Expression) (t e : Block)
  | S_for (x : string) (e : Expression) (body : Block)
  | S_while (c : Expression) (body : Block)

with Block : Type :=
  | B_last (s : Statement)
  | B_then (s : Statement) (b : Block).

(** The tree of a statement, and the trees of the statements of a
    block. *)
Fixpoint statement_tree (s : Statement) : ASTNode :=
  match s with
  | S_print e => Syntax.print (tree_of e)
  | S_assign x e => Syntax.assignment (Syntax.identifier x) (tree_of e)
  | S_assign_element x index e =>
      Syntax.assignment (Syntax.array_access x (tree_of index)) (tree_of e)
  | S_return e => Syntax.return_statement (tree_of e)
  | S_if c t => Syntax.if_statement (tree_of c) (block_trees t) []
  | S_if_else c t e => Syntax.if_statement (tree_of c) (block_trees t) (block_trees e)
  | S_for x e body => Syntax.for_statement x (tree_of e) (block_trees body)
  | S_while c body => Syntax.while_statement (tree_of c) (block_trees body)
  end

with block_trees (b : Block) : list ASTNode :=
  match b with
  | B_last s => [statement_tree s]
  | B_then s b' => statement_tree s :: block_trees b'
  end.

(** The tokens of a statement and of a block. *)
Fixpoint statement_tokens (s : Statement) : list Token :=
  match s with
  | S_print e =>
      mkToken TOKEN_KEYWORD "print" :: mkToken TOKEN_DELIMITER "("
      :: tokens_of 0 e ++ [mkToken TOKEN_DELIMITER ")"]
  | S_assign x e =>
      mkToken TOKEN_IDENTIFIER x :: mkToken TOKEN_OPERATOR "=" :: tokens_of 0 e
  | S_assign_element x index e =>
      mkToken TOKEN_IDENTIFIER x :: mkToken TOKEN_DELIMITER "["
      :: tokens_of 0 index
         ++ mkToken TOKEN_DELIMITER "]" :: mkToken TOKEN_OPERATOR "=" :: tokens_of 0 e
  | S_return e => mkToken TOKEN_KEYWORD "return" :: tokens_of 0 e
  | S_if c t =>
      mkToken TOKEN_KEYWORD "if" :: tokens_of 0 c
      ++ block_tokens t ++ [mkToken TOKEN_KEYWORD "end"]
  | S_if_else c t e =>
      mkToken TOKEN_KEYWORD "if" :: tokens_of 0 c
      ++ block_tokens t
      ++ mkToken TOKEN_KEYWORD "else" :: block_tokens e ++ [mkToken TOKEN_KEYWORD "end"]
  | S_for x e body =>
      mkToken TOKEN_KEYWORD "for" :: mkToken TOKEN_IDENTIFIER x
      :: mkToken TOKEN_KEYWORD "in" :: tokens_of 0 e
      ++ block_tokens body ++ [mkToken TOKEN_KEYWORD "end"]
  | S_while c body =>
      mkToken TOKEN_KEYWORD "while" :: tokens_of 0 c
      ++ block_tokens body ++ [mkToken TOKEN_KEYWORD "end"]
  end

with block_tokens (b : Block) : list Token :=
  match b with
  | B_last s => statement_tokens s
  | B_then s b' => statement_tokens s ++ block_tokens b'
  end.

(** What may follow a statement: a keyword or a name, or nothing. *)
Definition ends_statement (rest : list Token) : bool :=
  match rest with
  | [] => true
  | t :: _ =>
      TokenType_eqb (token_type t) TOKEN_KEYWORD
      || TokenType_eqb (token_type t) TOKEN_IDENTIFIER
  end.

(** What ends a block: [else], [end], or the end of the tokens. *)
Definition ends_block (rest : list Token) : bool :=
  match rest with
  | [] => true
  | t :: _ =>
      TokenType_eqb (token_type t) TOKEN_KEYWORD
      && (String.eqb (token_value t) "else" || String.eqb (token_value t) "end")
  end.

(** Induction on statements and blocks together. *)
Scheme Statement_Block_ind := Induction for Statement Sort Prop
  with Block_Statement_ind := Induction for Block Sort Prop.

Combined Scheme statement_block_ind from Statement_Block_ind, Block_Statement_ind.

(** A token with which a statement starts: a name, or a keyword other
    than [else] and [end]. *)
Definition starts_statement (t : Token) : bool :=
  TokenType_eqb (token_type t) TOKEN_IDENTIFIER
  || (TokenType_eqb (token_type t) TOKEN_KEYWORD
      && negb (String.eqb (token_value t) "else" || String.eqb (token_value t) "end")).

(** The token is the keyword [k]. *)
Definition keyword_is (t : Token) (k : string) : bool :=
  TokenType_eqb (token_type t) TOKEN_KEYWORD && String.eqb (token_value t) k.

(** The tokens of the statement [s] at any position, followed by what
    may follow a statement, parse to the tree of [s] with any sufficient
    fuel. *)
Definition statement_parses (s : Statement) : Prop :=
  forall tokens pos rest st,
    skipn pos tokens = statement_tokens s ++ rest ->
    ends_statement rest = true ->
    exists n,
      forall fuel,
        n <= fuel ->
        parse_statement fuel tokens pos st
        = Done (Some (statement_tree s), pos + List.length (statement_tokens s)) st.

(** The tokens of the block [b] at any position, followed by what ends
    a block, add the trees of [b] to the statements [stmts] that the
    loop of [parse_block] has collected. *)
Definition block_parses (b : Block) : Prop :=
  forall tokens pos rest st stmts,
    skipn pos tokens = block_tokens b ++ rest ->
    ends_block rest = true ->
    exists n,
      forall fuel,
        n <= fuel ->
        parse_block_loop fuel tokens stmts pos st
        = Done (Syntax.link_block (stmts ++ block_trees b),
                pos + List.length (block_tokens b)) st.




(** ** More concrete programs *)

Module Sample.

Import Syntax.
Import Example.
Local Open Scope string_scope.

#[local] Existing Instance RefLibC.libc.

(** The array of [a] in [two_entries]. *)
Definition array_of_a : AssocArray := mkArray entries_of_a 4.

(** [def f() return x end] *)
Definition f_returns_x : FunctionEntry :=
  function_entry "f" [] [return_statement (identifier "x")].

(** The state after [x = 1] at the top level, with [f_returns_x]
    registered. *)
Definition x_is_1_beside_f : State :=
  state_after 5 [f_returns_x] [assignment (identifier "x") (literal "1")].

(** [x < 3] *)
Definition x_below_3 : ASTNode := binary_op OP_LESS_THAN (identifier "x") (literal "3").

(** [for k in 7 print(k) end] *)
Definition loop_over_7 : ASTNode := for_statement "k" (literal "7") [print (identifier "k")].

(** The state after the one iteration of [loop_over_7]. *)
Definition after_loop_over_7 : State :=
  outcome_state_or (initial_state [])
    (for_iteration (execute_block 3) "k" (link_block [print (identifier "k")])
                   (mkPair "" "7") (initial_state [])).

(** [(1 + x) * a["k"]] *)
Definition sum_times_element : Expression :=
  Operation OP_MULTIPLY (Operation OP_ADD (Number "1") (Name "x")) (Element "a" (Text "k")).

(** The tokens of [print((1 + x) * a["k"])]. *)
Definition print_sum_times_element : list Token :=
  mkToken TOKEN_KEYWORD "print" :: mkToken TOKEN_DELIMITER "("
  :: (tokens_of 0 sum_times_element ++ [mkToken TOKEN_DELIMITER ")"])%list.

(** [i = 0] and [while i < 3 print(i) i = i + 1 end] *)
Definition count_to_3 : Statement :=
  S_while (Operation OP_LESS_THAN (Name "i") (Number "3"))
          (B_then (S_print (Name "i"))
                  (B_last (S_assign "i" (Operation OP_ADD (Name "i") (Number "1"))))).



End Sample.

(** * Properties *)

Unset Implicit Arguments.

(** ** More fuel does not change a result *)

Lemma le_M_refl {A : Type} (m : M A) : le_M m m.
Proof. intros st. right. reflexivity. Qed.

Lemma le_M_trans {A : Type} (m1 m2 m3 : M A) :
  le_M m1 m2 -> le_M m2 m3 -> le_M m1 m3.
Proof.
  intros H12 H23 st.
  destruct (H12 st) as [H | H]; [left; exact H |].
  rewrite H. apply H23.
Qed.

Lemma le_M_out_of_fuel {A : Type} (m : M A) : le_M out_of_fuel m.
Proof. intros st. left. reflexivity. Qed.

Lemma le_M_bind {A B : Type} (m1 m2 : M A) (k1 k2 : A -> M B) :
  le_M m1 m2 -> (forall a, le_M (k1 a) (k2 a)) -> le_M (bind m1 k1) (bind m2 k2).
Proof.
  intros Hm Hk st. unfold bind.
  destruct (Hm st) as [H | H]; rewrite H.
  - left. reflexivity.
  - destruct (m2 st); try (right; reflexivity). apply Hk.
Qed.

Lemma le_M_done {A : Type} (m1 m2 : M A) (st : State) (a : A) (st' : State) :
  le_M m1 m2 -> m1 st = Done a st' -> m2 st = Done a st'.
Proof.
  intros H E. destruct (H st) as [H' | H']; congruence.
Qed.

(** Both sides have the same shape and differ in the functions that they
    call: descend through binds and case distinctions. *)
Ltac mono :=
  repeat
    match goal with
    | |- le_M ?m ?m => apply le_M_refl
    | H : context [le_M (_ _) (_ _)] |- le_M _ _ => apply H
    | |- le_M (bind _ _) (bind _ _) => apply le_M_bind; [ | intros ? ]
    | |- le_M (match ?x with _ => _ end) (match ?x with _ => _ end) => destruct x
    end.

Section StepsMonotone.

Context {libc : LibC}.

Variables eval eval' : option ASTNode -> EvalContext -> M (option EvalResult).
Variables call call' : ASTNode -> M FunctionReturn.
Variables eval_args eval_args' :
  option ASTNode -> option ASTNode -> list EvalResult -> M (option (list EvalResult)).
Variables block_with_return block_with_return' : option ASTNode -> M FunctionReturn.
Variables ast_with_return ast_with_return' : option ASTNode -> M FunctionReturn.
Variables ast ast' block block' : option ASTNode -> M unit.
Variables if_statement if_statement' for_statement for_statement' : ASTNode -> M unit.
Variables while_statement while_statement' : ASTNode -> M unit.
Variables loop loop' : string -> option ASTNode -> ArrayPointer -> nat -> M unit.

Hypothesis eval_le : forall node context, le_M (eval node context) (eval' node context).
Hypothesis call_le : forall node, le_M (call node) (call' node).
Hypothesis eval_args_le :
  forall param arg args, le_M (eval_args param arg args) (eval_args' param arg args).
Hypothesis block_with_return_le :
  forall node, le_M (block_with_return node) (block_with_return' node).
Hypothesis ast_with_return_le :
  forall node, le_M (ast_with_return node) (ast_with_return' node).
Hypothesis ast_le : forall node, le_M (ast node) (ast' node).
Hypothesis block_le : forall node, le_M (block node) (block' node).
Hypothesis if_statement_le : forall node, le_M (if_statement node) (if_statement' node).
Hypothesis for_statement_le : forall node, le_M (for_statement node) (for_statement' node).
Hypothesis while_statement_le :
  forall node, le_M (while_statement node) (while_statement' node).
Hypothesis loop_le :
  forall loop_var body array i,
    le_M (loop loop_var body array i) (loop' loop_var body array i).

Lemma kvstdlib_call_le f arg :
  le_M (kvstdlib_call eval f arg) (kvstdlib_call eval' f arg).
Proof.
  unfold kvstdlib_call, kvstdlib_len, kvstdlib_key, kvstdlib_mod, kvstdlib_bar.
  destruct f; mono.
Qed.

Lemma execute_assignment_le node :
  le_M (execute_assignment eval node) (execute_assignment eval' node).
Proof. unfold execute_assignment. mono. Qed.

Lemma evaluate_and_print_le node :
  le_M (evaluate_and_print eval node) (evaluate_and_print eval' node).
Proof. unfold evaluate_and_print. mono. Qed.

Lemma evaluate_expression_step_le node context :
  le_M (evaluate_expression_step eval call node context)
       (evaluate_expression_step eval' call' node context).
Proof.
  unfold evaluate_expression_step, evaluate_array_access, evaluate_binary_op.
  cbv zeta. mono.
Qed.

Lemma call_user_function_le entry args :
  le_M (call_user_function block_with_return entry args)
       (call_user_function block_with_return' entry args).
Proof. unfold call_user_function. mono. Qed.

Lemma execute_function_call_step_le node :
  le_M (execute_function_call_step eval eval_args block_with_return node)
       (execute_function_call_step eval' eval_args' block_with_return' node).
Proof.
  unfold execute_function_call_step.
  destruct (node_data node); try apply le_M_refl.
  destruct (kvstdlib_lookup name); [apply kvstdlib_call_le |].
  apply le_M_bind; [apply le_M_refl | intros found].
  destruct found as [[idx entry] |]; [| apply le_M_refl].
  apply le_M_bind; [apply eval_args_le | intros args].
  destruct args; [apply call_user_function_le | apply le_M_refl].
Qed.

Lemma evaluate_arguments_step_le param arg args :
  le_M (evaluate_arguments_step eval eval_args param arg args)
       (evaluate_arguments_step eval' eval_args' param arg args).
Proof. unfold evaluate_arguments_step. mono. Qed.

Lemma execute_block_with_return_step_le node :
  le_M (execute_block_with_return_step block_with_return ast_with_return node)
       (execute_block_with_return_step block_with_return' ast_with_return' node).
Proof. unfold execute_block_with_return_step. mono. Qed.

Lemma execute_ast_with_return_step_le node :
  le_M (execute_ast_with_return_step eval call node)
       (execute_ast_with_return_step eval' call' node).
Proof.
  unfold execute_ast_with_return_step, execute_return_statement.
  destruct node as [n |]; [| apply le_M_refl].
  destruct (node_data n);
    try (apply le_M_bind;
         [first [apply evaluate_and_print_le | apply execute_assignment_le] | intros ?]);
    mono.
Qed.

Lemma execute_ast_step_le node :
  le_M (execute_ast_step eval call block if_statement for_statement while_statement node)
       (execute_ast_step eval' call' block' if_statement' for_statement'
                         while_statement' node).
Proof.
  unfold execute_ast_step.
  destruct node as [n |]; [| apply le_M_refl].
  destruct (node_data n);
    first [apply evaluate_and_print_le | apply execute_assignment_le | mono].
Qed.

Lemma execute_block_step_le node :
  le_M (execute_block_step ast block node) (execute_block_step ast' block' node).
Proof. unfold execute_block_step. mono. Qed.

Lemma execute_if_statement_step_le node :
  le_M (execute_if_statement_step eval block node)
       (execute_if_statement_step eval' block' node).
Proof. unfold execute_if_statement_step. mono. Qed.

Lemma execute_for_statement_step_le node :
  le_M (execute_for_statement_step eval loop node)
       (execute_for_statement_step eval' loop' node).
Proof. unfold execute_for_statement_step. mono. Qed.

Lemma for_loop_step_le loop_var body array i :
  le_M (for_loop_step block loop loop_var body array i)
       (for_loop_step block' loop' loop_var body array i).
Proof. unfold for_loop_step, for_iteration. mono. Qed.

Lemma execute_while_statement_step_le node :
  le_M (execute_while_statement_step eval block while_statement node)
       (execute_while_statement_step eval' block' while_statement' node).
Proof. unfold execute_while_statement_step. mono. Qed.

End StepsMonotone.

Section Fuel.

Context {libc : LibC}.

Lemma function_fuel_S (n : nat) :
  (forall node context,
      le_M (evaluate_expression n node context) (evaluate_expression (S n) node context))
  /\ (forall node, le_M (execute_function_call n node) (execute_function_call (S n) node))
  /\ (forall param arg args,
         le_M (evaluate_arguments n param arg args)
              (evaluate_arguments (S n) param arg args))
  /\ (forall node,
         le_M (execute_block_with_return n node) (execute_block_with_return (S n) node))
  /\ (forall node,
         le_M (execute_ast_with_return n node) (execute_ast_with_return (S n) node)).
Proof.
  induction n as [| n (IHe & IHc & IHa & IHb & IHs)].
  - repeat split; intros; apply le_M_out_of_fuel.
  - repeat split; intros.
    + apply evaluate_expression_step_le; assumption.
    + apply execute_function_call_step_le; assumption.
    + apply evaluate_arguments_step_le; assumption.
    + apply execute_block_with_return_step_le; assumption.
    + apply execute_ast_with_return_step_le; assumption.
Qed.

Lemma statement_fuel_S (n : nat) :
  (forall node, le_M (execute_ast n node) (execute_ast (S n) node))
  /\ (forall node, le_M (execute_block n node) (execute_block (S n) node))
  /\ (forall node, le_M (execute_if_statement n node) (execute_if_statement (S n) node))
  /\ (forall node, le_M (execute_for_statement n node) (execute_for_statement (S n) node))
  /\ (forall loop_var body array i,
         le_M (for_loop n loop_var body array i) (for_loop (S n) loop_var body array i))
  /\ (forall node,
         le_M (execute_while_statement n node) (execute_while_statement (S n) node)).
Proof.
  induction n as [| n (IHa & IHb & IHi & IHf & IHl & IHw)].
  - repeat split; intros; apply le_M_out_of_fuel.
  - destruct (function_fuel_S n) as (He & Hc & _).
    repeat split; intros.
    + apply execute_ast_step_le; assumption.
    + apply execute_block_step_le; assumption.
    + apply execute_if_statement_step_le; assumption.
    + apply execute_for_statement_step_le; assumption.
    + apply for_loop_step_le; assumption.
    + apply execute_while_statement_step_le; assumption.
Qed.


Lemma monotone_of_S {A : Type} (run : nat -> M A) :
  (forall n, le_M (run n) (run (S n))) -> monotone run.
Proof.
  intros HS n m Hle. induction Hle as [| m Hle IH].
  - apply le_M_refl.
  - eapply le_M_trans; [exact IH | apply HS].
Qed.

Lemma evaluate_expression_monotone node context :
  monotone (fun n => evaluate_expression n node context).
Proof. apply monotone_of_S. intros n. apply (function_fuel_S n). Qed.

Lemma execute_function_call_monotone node :
  monotone (fun n => execute_function_call n node).
Proof. apply monotone_of_S. intros n. apply (function_fuel_S n). Qed.


Lemma execute_block_with_return_monotone node :
  monotone (fun n => execute_block_with_return n node).
Proof. apply monotone_of_S. intros n. apply (function_fuel_S n). Qed.

Lemma execute_ast_with_return_monotone node :
  monotone (fun n => execute_ast_with_return n node).
Proof. apply monotone_of_S. intros n. apply (function_fuel_S n). Qed.


Lemma execute_block_monotone node : monotone (fun n => execute_block n node).
Proof. apply monotone_of_S. intros n. apply (statement_fuel_S n). Qed.

Lemma execute_if_statement_monotone node :
  monotone (fun n => execute_if_statement n node).
Proof. apply monotone_of_S. intros n. apply (statement_fuel_S n). Qed.

Lemma execute_for_statement_monotone node :
  monotone (fun n => execute_for_statement n node).
Proof. apply monotone_of_S. intros n. apply (statement_fuel_S n). Qed.

Lemma for_loop_monotone loop_var body array i :
  monotone (fun n => for_loop n loop_var body array i).
Proof. apply monotone_of_S. intros n. apply (statement_fuel_S n). Qed.

Lemma execute_while_statement_monotone node :
  monotone (fun n => execute_while_statement n node).
Proof. apply monotone_of_S. intros n. apply (statement_fuel_S n). Qed.

Lemma monotone_done {A : Type} (run : nat -> M A) n m st a st' :
  monotone run -> n <= m -> run n st = Done a st' -> run m st = Done a st'.
Proof. intros Hmono Hle. apply le_M_done. apply Hmono. exact Hle. Qed.

Lemma evaluate_expression_fuel n m node context st a st' :
  n <= m ->
  evaluate_expression n node context st = Done a st' ->
  evaluate_expression m node context st = Done a st'.
Proof.
  intros Hle. apply (monotone_done (fun n => evaluate_expression n node context)).
  - apply evaluate_expression_monotone.
  - exact Hle.
Qed.


Lemma execute_block_with_return_fuel n m node st a st' :
  n <= m ->
  execute_block_with_return n node st = Done a st' ->
  execute_block_with_return m node st = Done a st'.
Proof.
  intros Hle. apply (monotone_done (fun n => execute_block_with_return n node)).
  - apply execute_block_with_return_monotone.
  - exact Hle.
Qed.

Lemma execute_block_fuel n m node st a st' :
  n <= m ->
  execute_block n node st = Done a st' ->
  execute_block m node st = Done a st'.
Proof.
  intros Hle. apply (monotone_done (fun n => execute_block n node)).
  - apply execute_block_monotone.
  - exact Hle.
Qed.

(** ** Sequencing *)

Lemma bind_done {A B : Type} (m : M A) (k : A -> M B) st a st' :
  m st = Done a st' -> bind m k st = k a st'.
Proof. intros H. unfold bind. rewrite H. reflexivity. Qed.

Lemma bind_assoc {A B C : Type} (m : M A) (k1 : A -> M B) (k2 : B -> M C) st :
  bind (bind m k1) k2 st = bind m (fun a => bind (k1 a) k2) st.
Proof. unfold bind. destruct (m st); reflexivity. Qed.

End Fuel.

(** ** The variable table: reading what was written *)

Lemma slot_set_slot_eq vars i v : slot (set_slot vars i v) i = v.
Proof.
  unfold slot. revert vars.
  induction i as [| i IH]; intros [| w vars]; simpl; auto.
Qed.

Lemma slot_nil i : slot [] i = zero_variable.
Proof. unfold slot. destruct i; reflexivity. Qed.

Lemma slot_set_slot_ne vars i j v : i <> j -> slot (set_slot vars i v) j = slot vars j.
Proof.
  unfold slot. revert vars j.
  induction i as [| i IH]; intros [| w vars] [| j] Hne; simpl; try congruence.
  - destruct j; reflexivity.
  - rewrite IH by congruence. destruct j; reflexivity.
  - apply IH. congruence.
Qed.

Lemma find_variable_ext name vars vars' i n :
  (forall j, i <= j < i + n -> var_name (slot vars j) = var_name (slot vars' j)) ->
  find_variable name vars i n = find_variable name vars' i n.
Proof.
  revert i. induction n as [| n IH]; intros i Hnames; simpl; [reflexivity |].
  rewrite (Hnames i) by lia. rewrite IH; [reflexivity |].
  intros j Hj. apply Hnames. lia.
Qed.

Lemma find_variable_bounds name vars i n j :
  find_variable name vars i n = Some j ->
  i <= j < i + n /\ var_name (slot vars j) = name.
Proof.
  revert i. induction n as [| n IH]; intros i; simpl; [discriminate |].
  destruct (String.eqb (var_name (slot vars i)) name) eqn:E.
  - intros [= <-]. apply String.eqb_eq in E. split; [lia | exact E].
  - intros H. apply IH in H. split; [lia | tauto].
Qed.

Lemma find_variable_none name vars i n j :
  find_variable name vars i n = None -> i <= j < i + n ->
  var_name (slot vars j) <> name.
Proof.
  revert i. induction n as [| n IH]; intros i; simpl; [lia |].
  destruct (String.eqb (var_name (slot vars i)) name) eqn:E; [discriminate |].
  intros H Hj. apply String.eqb_neq in E.
  destruct (Nat.eq_dec i j) as [-> | Hne]; [exact E |].
  apply (IH (S i)); [exact H | lia].
Qed.

(** A search that fails on [n] slots finds a variable of that name
    placed in the next slot. *)
Lemma find_variable_next name vars i n :
  find_variable name vars i n = None ->
  var_name (slot vars (i + n)) = name ->
  find_variable name vars i (S n) = Some (i + n).
Proof.
  revert i. induction n as [| n IH]; intros i Hnone Hname.
  - simpl. rewrite Nat.add_0_r in *. rewrite Hname, String.eqb_refl. reflexivity.
  - simpl in Hnone.
    destruct (String.eqb (var_name (slot vars i)) name) eqn:E; [discriminate |].
    change (find_variable name vars i (S (S n)))
      with (if String.eqb (var_name (slot vars i)) name then Some i
            else find_variable name vars (S i) (S n)).
    rewrite E. replace (i + S n) with (S i + n) in * by lia.
    apply IH; assumption.
Qed.

Lemma get_variable_set_array name i a st :
  get_variable name (set_array i a st) = get_variable name st.
Proof.
  unfold get_variable, set_array, with_variables. simpl.
  apply find_variable_ext. intros j _.
  destruct (Nat.eq_dec i j) as [-> | Hne].
  - rewrite slot_set_slot_eq. reflexivity.
  - rewrite slot_set_slot_ne by exact Hne. reflexivity.
Qed.

Lemma array_set_array_eq i a st :
  var_array (slot (variables (set_array i a st)) i) = a.
Proof.
  unfold set_array, with_variables. simpl. rewrite slot_set_slot_eq. reflexivity.
Qed.

Lemma array_set_array_ne i j a st :
  i <> j ->
  var_array (slot (variables (set_array i a st)) j) = var_array (slot (variables st) j).
Proof.
  intros Hne. unfold set_array, with_variables. simpl.
  rewrite slot_set_slot_ne by exact Hne. reflexivity.
Qed.

Lemma get_variable_new_variable name st :
  get_variable name st = None ->
  get_variable name (new_variable name st) = Some (variable_count st).
Proof.
  unfold get_variable, new_variable, with_variables. simpl. intros Hnone.
  apply (find_variable_next name _ 0 (variable_count st)).
  - rewrite <- Hnone. apply find_variable_ext. intros j Hj.
    rewrite slot_set_slot_ne by lia. reflexivity.
  - simpl. rewrite slot_set_slot_eq. reflexivity.
Qed.

Lemma array_new_variable name st :
  var_array (slot (variables (new_variable name st)) (variable_count st))
  = init_assoc_array.
Proof.
  unfold new_variable, with_variables. simpl. rewrite slot_set_slot_eq. reflexivity.
Qed.

(** ** Storing into an array and reading it back *)

Lemma replace_value_lookup ps k v ps' :
  replace_value ps k v = Some ps' -> lookup_pairs ps' k = Some v.
Proof.
  revert ps'. induction ps as [| p ps IH]; intros ps'; simpl; [discriminate |].
  destruct (String.eqb (key p) k) eqn:E.
  - intros [= <-]. simpl. rewrite E. reflexivity.
  - destruct (replace_value ps k v) as [ps'' |]; [| discriminate].
    intros [= <-]. simpl. rewrite E. apply IH. reflexivity.
Qed.

Lemma replace_value_none_lookup ps k v :
  replace_value ps k v = None -> lookup_pairs (ps ++ [mkPair k v]) k = Some v.
Proof.
  induction ps as [| p ps IH]; simpl.
  - intros _. rewrite String.eqb_refl. reflexivity.
  - destruct (String.eqb (key p) k); [discriminate |].
    destruct (replace_value ps k v); [discriminate |]. exact IH.
Qed.

Lemma set_assoc_array_value_get a k v :
  well_formed_array a ->
  exists a', set_assoc_array_value a k v = Some a'
             /\ get_assoc_array_value a' k = Some v.
Proof.
  intros [Hsize Hcap]. unfold set_assoc_array_value, get_assoc_array_value.
  destruct (replace_value (pairs a) k v) as [ps |] eqn:E.
  - eexists. split; [reflexivity |]. simpl. eapply replace_value_lookup. exact E.
  - assert (Hroom : (size a <? (if size a =? capacity a then capacity a * 2
                                else capacity a)) = true).
    { apply Nat.ltb_lt. destruct (Nat.eqb_spec (size a) (capacity a)); lia. }
    rewrite Hroom. eexists. split; [reflexivity |]. simpl.
    apply replace_value_none_lookup. exact E.
Qed.

Lemma set_assoc_array_value_default a v :
  (pairs a = [] /\ 0 < capacity a) \/ (exists old, pairs a = [mkPair EmptyString old]) ->
  exists a', set_assoc_array_value a EmptyString v = Some a'
             /\ pairs a' = [mkPair EmptyString v].
Proof.
  unfold set_assoc_array_value, size.
  intros [[Hempty Hcap] | [old Hone]].
  - rewrite Hempty. simpl. destruct (capacity a) as [| c]; [lia |].
    simpl. eexists. split; reflexivity.
  - rewrite Hone. simpl. eexists. split; reflexivity.
Qed.

Lemma store_done i k v st a' :
  set_assoc_array_value (var_array (slot (variables st) i)) k v = Some a' ->
  store i k v st = Some (set_array i a' st).
Proof. intros H. unfold store. rewrite H. reflexivity. Qed.

(** Assigning a text to the default key of a variable that holds at most
    the default key leaves the variable with that single entry. *)
Lemma set_variable_value_default x text st :
  holds_at_most_default x st ->
  exists st' i,
    set_variable_value x None text st = Some st'
    /\ get_variable x st' = Some i
    /\ pairs (var_array (slot (variables st') i)) = [mkPair EmptyString text].
Proof.
  unfold holds_at_most_default, set_variable_value.
  destruct (get_variable x st) as [i |] eqn:Hvar.
  - intros Harr.
    destruct (set_assoc_array_value_default _ text Harr) as (a' & Hset & Hpairs).
    exists (set_array i a' st), i. split; [apply store_done; exact Hset |].
    split; [rewrite get_variable_set_array; exact Hvar |].
    rewrite array_set_array_eq. exact Hpairs.
  - intros Hroom.
    assert (Hfull : (MAX_VARIABLES <=? variable_count st) = false)
      by (apply Nat.leb_gt; exact Hroom).
    rewrite Hfull.
    assert (Hset : set_assoc_array_value
                     (var_array (slot (variables (new_variable x st)) (variable_count st)))
                     EmptyString text
                   = Some (mkArray [mkPair EmptyString text] 4)).
    { rewrite array_new_variable. reflexivity. }
    eexists. exists (variable_count st).
    split; [apply store_done; exact Hset |].
    split.
    + rewrite get_variable_set_array. apply get_variable_new_variable. exact Hvar.
    + rewrite array_set_array_eq. reflexivity.
Qed.

(** Assigning a text to a key of a variable makes that key hold the
    text. *)
Lemma set_variable_value_key x k text st :
  can_store x st ->
  exists st' i,
    set_variable_value x (Some k) text st = Some st'
    /\ get_variable x st' = Some i
    /\ get_assoc_array_value (var_array (slot (variables st') i)) k = Some text.
Proof.
  unfold can_store, set_variable_value.
  destruct (get_variable x st) as [i |] eqn:Hvar.
  - intros Hwf.
    destruct (set_assoc_array_value_get _ k text Hwf) as (a' & Hset & Hget).
    exists (set_array i a' st), i. split; [apply store_done; exact Hset |].
    split; [rewrite get_variable_set_array; exact Hvar |].
    rewrite array_set_array_eq. exact Hget.
  - intros Hroom.
    assert (Hfull : (MAX_VARIABLES <=? variable_count st) = false)
      by (apply Nat.leb_gt; exact Hroom).
    rewrite Hfull.
    assert (Hwf : well_formed_array
                    (var_array (slot (variables (new_variable x st)) (variable_count st)))).
    { rewrite array_new_variable. unfold well_formed_array, size. simpl. lia. }
    destruct (set_assoc_array_value_get _ k text Hwf) as (a' & Hset & Hget).
    exists (set_array (variable_count st) a' (new_variable x st)), (variable_count st).
    split; [apply store_done; exact Hset |].
    split.
    + rewrite get_variable_set_array. apply get_variable_new_variable. exact Hvar.
    + rewrite array_set_array_eq. exact Hget.
Qed.

(** ** Writes to one variable leave the others alone *)

Lemma store_keeps_others i k v st st' j :
  store i k v st = Some st' -> i <> j ->
  slot (variables st') j = slot (variables st) j.
Proof.
  unfold store. destruct (set_assoc_array_value _ k v); [| discriminate].
  intros [= <-] Hne. unfold set_array, with_variables. simpl.
  apply slot_set_slot_ne. exact Hne.
Qed.

Lemma store_count i k v st st' :
  store i k v st = Some st' -> variable_count st' = variable_count st.
Proof.
  unfold store. destruct (set_assoc_array_value _ k v); [| discriminate].
  intros [= <-]. reflexivity.
Qed.

Lemma set_variable_value_keeps_others name k v st st' j :
  set_variable_value name k v st = Some st' ->
  j < variable_count st ->
  var_name (slot (variables st) j) <> name ->
  slot (variables st') j = slot (variables st) j
  /\ variable_count st <= variable_count st'.
Proof.
  unfold set_variable_value. intros H Hj Hname.
  destruct (get_variable name st) as [i |] eqn:Hvar.
  - apply find_variable_bounds in Hvar. destruct Hvar as [_ Hi].
    split; [| rewrite (store_count _ _ _ _ _ H); lia].
    apply (store_keeps_others _ _ _ _ _ _ H). congruence.
  - destruct (MAX_VARIABLES <=? variable_count st).
    + injection H as <-. split; [reflexivity | simpl; lia].
    + split.
      * rewrite (store_keeps_others _ _ _ _ _ _ H) by lia.
        unfold new_variable, with_variables. simpl.
        apply slot_set_slot_ne. lia.
      * rewrite (store_count _ _ _ _ _ H). simpl. lia.
Qed.

Lemma clear_variable_keeps_others name st j :
  var_name (slot (variables st) j) <> name ->
  slot (variables (clear_variable_assoc_array name st)) j = slot (variables st) j.
Proof.
  unfold clear_variable_assoc_array. intros Hname.
  destruct (get_variable name st) as [i |] eqn:Hvar; [| reflexivity].
  apply find_variable_bounds in Hvar. destruct Hvar as [_ Hi].
  unfold set_array, with_variables. simpl. apply slot_set_slot_ne. congruence.
Qed.

Lemma clear_variable_count name st :
  variable_count (clear_variable_assoc_array name st) = variable_count st.
Proof.
  unfold clear_variable_assoc_array.
  destruct (get_variable name st); reflexivity.
Qed.

(** ** Expressions without calls only write to the output *)

Lemma frame_printf line st : frame (printf line st) = frame st.
Proof. reflexivity. Qed.

Lemma bind_inv {A B : Type} (m : M A) (k : A -> M B) st b st' :
  bind m k st = Done b st' ->
  exists a st1, m st = Done a st1 /\ k a st1 = Done b st'.
Proof.
  unfold bind. destruct (m st) as [a st1 | |]; try discriminate.
  intros H. exists a, st1. split; [reflexivity | exact H].
Qed.

(** Case analysis on a computation that is known to end: every case
    distinction of [H] is made, and the monadic primitives are
    unfolded. *)
Ltac done_cases H :=
  unfold bind, read, modify, try_modify, ret, undefined in H;
  repeat match type of H with
         | context [match ?x with _ => _ end] => destruct x eqn:?
         end;
  try discriminate H.

Section CallFree.

Context {libc : LibC}.

Lemma evaluate_identifier_frame identifier context st r st' :
  evaluate_identifier identifier context st = Done r st' -> frame st' = frame st.
Proof.
  unfold evaluate_identifier. intros H. done_cases H;
    injection H as _ <-; reflexivity.
Qed.

Lemma call_free_frame fuel :
  forall n context st r st',
    call_free_option n = true ->
    evaluate_expression fuel n context st = Done r st' ->
    frame st' = frame st.
Proof.
  induction fuel as [| fuel IH]; intros n context st r st' Hfree H; [discriminate |].
  simpl in H. unfold evaluate_expression_step in H.
  destruct n as [[l rt nb d] |]; [| injection H as _ <-; reflexivity].
  simpl in Hfree. destruct d; try discriminate Hfree; simpl in H.
  - injection H as _ <-. reflexivity.
  - eapply evaluate_identifier_frame. exact H.
  - unfold evaluate_array_access in H.
    apply bind_inv in H. destruct H as (kr & st1 & Hk & H).
    apply IH in Hk; [| exact Hfree].
    rewrite <- Hk. clear Hk.
    done_cases H; injection H as _ <-; reflexivity.
  - apply andb_true_iff in Hfree. destruct Hfree as [Hl Hr].
    unfold evaluate_binary_op in H.
    apply bind_inv in H. destruct H as (lr & st1 & Hleft & H).
    apply IH in Hleft; [| exact Hl]. rewrite <- Hleft. clear Hleft.
    destruct lr as [lr |]; [| injection H as _ <-; reflexivity].
    apply bind_inv in H. destruct H as (rr & st2 & Hright & H).
    apply IH in Hright; [| exact Hr]. rewrite <- Hright. clear Hright.
    done_cases H; injection H as _ <-; reflexivity.
Qed.

(** Printing an expression without calls only writes to the output. *)
Lemma evaluate_and_print_frame fuel n st st' :
  call_free_option n = true ->
  evaluate_and_print (evaluate_expression fuel) n st = Done tt st' ->
  frame st' = frame st.
Proof.
  intros Hfree H. unfold evaluate_and_print in H.
  apply bind_inv in H. destruct H as (r & st1 & He & H).
  apply call_free_frame in He; [| exact Hfree]. rewrite <- He.
  done_cases H; injection H as <-; reflexivity.
Qed.

(** A block that consists of one print statement. *)
Lemma execute_block_print_frame fuel l r d st st' :
  call_free_option l = true ->
  execute_block fuel (Some (mkASTNode l r None AST_PRINT)) st = Done d st' ->
  frame st' = frame st.
Proof.
  intros Hfree H.
  destruct fuel as [| [| fuel]]; try discriminate H.
  change (bind (execute_ast_step
                  (evaluate_expression fuel) (execute_function_call fuel)
                  (execute_block fuel) (execute_if_statement fuel)
                  (execute_for_statement fuel) (execute_while_statement fuel)
                  (Some (mkASTNode l r None AST_PRINT)))
               (fun _ => ret tt) st = Done d st') in H.
  apply bind_inv in H. destruct H as ([] & st1 & Hprint & H).
  apply evaluate_and_print_frame in Hprint; [| exact Hfree].
  rewrite <- Hprint. injection H as _ <-. reflexivity.
Qed.

End CallFree.

(** ** Invariants of the state *)


Lemma preserves_ret {A : Type} P (a : A) : preserves P (ret a).
Proof. intros st a' st' HP [= _ <-]. exact HP. Qed.

Lemma preserves_read {A : Type} P (f : State -> A) : preserves P (read f).
Proof. intros st a' st' HP [= _ <-]. exact HP. Qed.

Lemma preserves_undefined {A : Type} P : preserves P (@undefined A).
Proof. intros st a st' _ H. discriminate H. Qed.

Lemma preserves_out_of_fuel {A : Type} P : preserves P (@out_of_fuel A).
Proof. intros st a st' _ H. discriminate H. Qed.

Lemma preserves_modify P (f : State -> State) :
  (forall st, P st -> P (f st)) -> preserves P (modify f).
Proof. intros Hf st a st' HP [= _ <-]. apply Hf. exact HP. Qed.

Lemma preserves_try_modify P (f : State -> option State) :
  (forall st st', P st -> f st = Some st' -> P st') -> preserves P (try_modify f).
Proof.
  intros Hf st a st' HP H. unfold try_modify in H.
  destruct (f st) as [st1 |] eqn:E; [| discriminate].
  injection H as _ <-. eapply Hf; eassumption.
Qed.

Lemma preserves_bind {A B : Type} P (m : M A) (k : A -> M B) :
  preserves P m -> (forall a, preserves P (k a)) -> preserves P (bind m k).
Proof.
  intros Hm Hk st b st' HP H.
  apply bind_inv in H. destruct H as (a & st1 & H1 & H2).
  eapply Hk; [| exact H2]. eapply Hm; eassumption.
Qed.

(** The functions that write to the variable table or to the output do
    not touch the scope stack. *)
Lemma scope_stack_store i k v st st' :
  store i k v st = Some st' -> scope_stack st' = scope_stack st.
Proof.
  unfold store. destruct (set_assoc_array_value _ k v); [| discriminate].
  intros [= <-]. reflexivity.
Qed.

Lemma scope_stack_set_variable_value name k v st st' :
  set_variable_value name k v st = Some st' -> scope_stack st' = scope_stack st.
Proof.
  unfold set_variable_value.
  destruct (get_variable name st); [apply scope_stack_store |].
  destruct (MAX_VARIABLES <=? variable_count st).
  - intros [= <-]. reflexivity.
  - intros H. apply scope_stack_store in H. exact H.
Qed.

Lemma scope_stack_copy_pairs i ps :
  forall st st', copy_pairs i ps st = Some st' -> scope_stack st' = scope_stack st.
Proof.
  induction ps as [| p ps IH]; intros st st'; simpl.
  - intros [= <-]. reflexivity.
  - destruct (store i (key p) (value p) st) as [st1 |] eqn:E; [| discriminate].
    intros H. apply IH in H. apply scope_stack_store in E. congruence.
Qed.

Lemma scope_stack_set_variable_assoc_array name p st st' :
  set_variable_assoc_array name p st = Some st' -> scope_stack st' = scope_stack st.
Proof.
  unfold set_variable_assoc_array.
  destruct (get_variable name st).
  - intros H. apply scope_stack_copy_pairs in H. exact H.
  - destruct (MAX_VARIABLES <=? variable_count st).
    + intros [= <-]. reflexivity.
    + intros H. apply scope_stack_copy_pairs in H. exact H.
Qed.

Lemma scope_stack_clear_variable name st :
  scope_stack (clear_variable_assoc_array name st) = scope_stack st.
Proof.
  unfold clear_variable_assoc_array. destruct (get_variable name st); reflexivity.
Qed.


Lemma depth_bounded_same_stack st st' :
  scope_stack st' = scope_stack st -> depth_bounded st -> depth_bounded st'.
Proof. unfold depth_bounded, scope_depth. intros ->. exact (fun H => H). Qed.

Lemma depth_bounded_printf line st : depth_bounded st -> depth_bounded (printf line st).
Proof. exact (fun H => H). Qed.

Lemma depth_bounded_push_scope st : depth_bounded st -> depth_bounded (push_scope st).
Proof.
  unfold depth_bounded, push_scope, scope_depth. intros H.
  destruct (Nat.leb_spec MAX_SCOPES (List.length (scope_stack st))) as [Hfull | Hroom].
  - exact H.
  - simpl. exact Hroom.
Qed.

Lemma depth_bounded_pop_scope st : depth_bounded st -> depth_bounded (pop_scope st).
Proof.
  unfold depth_bounded, pop_scope, scope_depth. intros H.
  destruct (scope_stack st) as [| [saved_variables saved_count] rest] eqn:E; simpl.
  - rewrite E. exact H.
  - simpl in H. apply Nat.lt_le_incl. exact H.
Qed.

Ltac keeps_depth :=
  repeat
    match goal with
    | |- preserves _ (bind _ _) => apply preserves_bind; [ | intros ? ]
    | |- preserves _ (ret _) => apply preserves_ret
    | |- preserves _ (read _) => apply preserves_read
    | |- preserves _ undefined => apply preserves_undefined
    | |- preserves _ (modify push_scope) =>
        apply preserves_modify; exact depth_bounded_push_scope
    | |- preserves _ (modify pop_scope) =>
        apply preserves_modify; exact depth_bounded_pop_scope
    | |- preserves _ (modify (clear_variable_assoc_array _)) =>
        apply preserves_modify; intros ?;
        apply depth_bounded_same_stack; apply scope_stack_clear_variable
    | |- preserves _ (modify _) => apply preserves_modify; intros ? ?; assumption
    | H : context [preserves _ (_ _)] |- preserves _ _ => apply H
    | |- preserves _ (match ?x with _ => _ end) => destruct x
    end.

Section StepsKeepDepth.

Context {libc : LibC}.

Lemma scope_stack_set_variable_from_eval_result name r st st' :
  set_variable_from_eval_result name r st = Some st' -> scope_stack st' = scope_stack st.
Proof.
  destruct r; simpl.
  - apply scope_stack_set_variable_value.
  - apply scope_stack_set_variable_value.
  - apply scope_stack_set_variable_assoc_array.
Qed.

Lemma scope_stack_bind_arguments args :
  forall param st rest st',
    bind_arguments param args st = Some (rest, st') -> scope_stack st' = scope_stack st.
Proof.
  induction args as [| a args IH]; intros param st rest st'; simpl.
  - intros [= _ <-]. reflexivity.
  - destruct param as [p |]; [| discriminate].
    destruct (data_identifier p) as [identifier |]; [| discriminate].
    destruct (set_variable_from_eval_result identifier a st) as [st1 |] eqn:E;
      [| discriminate].
    intros H. apply IH in H. apply scope_stack_set_variable_from_eval_result in E.
    congruence.
Qed.

Lemma scope_stack_bind_missing :
  forall p st st', bind_missing p st = Some st' -> scope_stack st' = scope_stack st.
Proof.
  fix IH 1. intros [l r nb d] st st'. simpl.
  destruct (data_identifier (mkASTNode l r nb d)) as [identifier |]; [| discriminate].
  destruct (set_variable_value identifier None "0" st) as [st1 |] eqn:E; [| discriminate].
  apply scope_stack_set_variable_value in E.
  destruct r as [p' |].
  - intros H. apply IH in H. congruence.
  - intros [= <-]. exact E.
Qed.

Lemma scope_stack_bind_parameters param args st st' :
  bind_parameters param args st = Some st' -> scope_stack st' = scope_stack st.
Proof.
  unfold bind_parameters.
  destruct (bind_arguments param args st) as [[[p |] st1] |] eqn:E; [| | discriminate].
  - intros H. apply scope_stack_bind_missing in H.
    apply scope_stack_bind_arguments in E. congruence.
  - intros [= <-]. apply scope_stack_bind_arguments in E. exact E.
Qed.

Variable eval : option ASTNode -> EvalContext -> M (option EvalResult).
Variable call : ASTNode -> M FunctionReturn.
Variable eval_args :
  option ASTNode -> option ASTNode -> list EvalResult -> M (option (list EvalResult)).
Variable block_with_return : option ASTNode -> M FunctionReturn.
Variable ast_with_return : option ASTNode -> M FunctionReturn.
Variables ast block : option ASTNode -> M unit.
Variables if_statement for_statement while_statement : ASTNode -> M unit.
Variable loop : string -> option ASTNode -> ArrayPointer -> nat -> M unit.

Hypothesis eval_keeps : forall node context, preserves depth_bounded (eval node context).
Hypothesis call_keeps : forall node, preserves depth_bounded (call node).
Hypothesis eval_args_keeps :
  forall param arg args, preserves depth_bounded (eval_args param arg args).
Hypothesis block_with_return_keeps :
  forall node, preserves depth_bounded (block_with_return node).
Hypothesis ast_with_return_keeps :
  forall node, preserves depth_bounded (ast_with_return node).
Hypothesis ast_keeps : forall node, preserves depth_bounded (ast node).
Hypothesis block_keeps : forall node, preserves depth_bounded (block node).
Hypothesis if_statement_keeps : forall node, preserves depth_bounded (if_statement node).
Hypothesis for_statement_keeps : forall node, preserves depth_bounded (for_statement node).
Hypothesis while_statement_keeps :
  forall node, preserves depth_bounded (while_statement node).
Hypothesis loop_keeps :
  forall loop_var body array i, preserves depth_bounded (loop loop_var body array i).

Lemma try_modify_set_variable_value_keeps name k v :
  preserves depth_bounded (try_modify (set_variable_value name k v)).
Proof.
  apply preserves_try_modify. intros st st' HP H.
  apply (depth_bounded_same_stack st); [| exact HP].
  eapply scope_stack_set_variable_value. exact H.
Qed.

Lemma try_modify_set_variable_from_eval_result_keeps name r :
  preserves depth_bounded (try_modify (set_variable_from_eval_result name r)).
Proof.
  apply preserves_try_modify. intros st st' HP H.
  apply (depth_bounded_same_stack st); [| exact HP].
  eapply scope_stack_set_variable_from_eval_result. exact H.
Qed.

Lemma try_modify_bind_parameters_keeps param args :
  preserves depth_bounded (try_modify (bind_parameters param args)).
Proof.
  apply preserves_try_modify. intros st st' HP H.
  apply (depth_bounded_same_stack st); [| exact HP].
  eapply scope_stack_bind_parameters. exact H.
Qed.

Lemma kvstdlib_call_keeps f arg : preserves depth_bounded (kvstdlib_call eval f arg).
Proof.
  unfold kvstdlib_call, kvstdlib_len, kvstdlib_key, kvstdlib_mod, kvstdlib_bar.
  destruct f; keeps_depth.
Qed.

Lemma execute_assignment_keeps node :
  preserves depth_bounded (execute_assignment eval node).
Proof.
  unfold execute_assignment.
  keeps_depth;
    first [apply try_modify_set_variable_value_keeps
          | apply try_modify_set_variable_from_eval_result_keeps].
Qed.

Lemma evaluate_and_print_keeps node :
  preserves depth_bounded (evaluate_and_print eval node).
Proof. unfold evaluate_and_print. keeps_depth. Qed.

Lemma evaluate_expression_step_keeps node context :
  preserves depth_bounded (evaluate_expression_step eval call node context).
Proof.
  unfold evaluate_expression_step, evaluate_identifier, evaluate_array_access,
    evaluate_binary_op.
  cbv zeta. keeps_depth.
Qed.

Lemma call_user_function_keeps entry args :
  preserves depth_bounded (call_user_function block_with_return entry args).
Proof.
  unfold call_user_function.
  keeps_depth. apply try_modify_bind_parameters_keeps.
Qed.

Lemma execute_function_call_step_keeps node :
  preserves depth_bounded
            (execute_function_call_step eval eval_args block_with_return node).
Proof.
  unfold execute_function_call_step.
  destruct (node_data node); try apply preserves_undefined.
  destruct (kvstdlib_lookup name); [apply kvstdlib_call_keeps |].
  apply preserves_bind; [apply preserves_read | intros found].
  destruct found as [[idx entry] |]; [| keeps_depth].
  apply preserves_bind; [apply eval_args_keeps | intros args].
  destruct args; [apply call_user_function_keeps | keeps_depth].
Qed.

Lemma evaluate_arguments_step_keeps param arg args :
  preserves depth_bounded (evaluate_arguments_step eval eval_args param arg args).
Proof. unfold evaluate_arguments_step. keeps_depth. Qed.

Lemma execute_block_with_return_step_keeps node :
  preserves depth_bounded
            (execute_block_with_return_step block_with_return ast_with_return node).
Proof. unfold execute_block_with_return_step. keeps_depth. Qed.

Lemma execute_ast_with_return_step_keeps node :
  preserves depth_bounded (execute_ast_with_return_step eval call node).
Proof.
  unfold execute_ast_with_return_step, execute_return_statement.
  destruct node as [n |]; [| keeps_depth].
  destruct (node_data n);
    try (apply preserves_bind;
         [first [apply evaluate_and_print_keeps | apply execute_assignment_keeps]
         | intros ?]);
    keeps_depth.
Qed.

Lemma execute_ast_step_keeps node :
  preserves depth_bounded
            (execute_ast_step eval call block if_statement for_statement
                              while_statement node).
Proof.
  unfold execute_ast_step.
  destruct node as [n |]; [| keeps_depth].
  destruct (node_data n);
    first [apply evaluate_and_print_keeps | apply execute_assignment_keeps | keeps_depth].
Qed.

Lemma execute_block_step_keeps node :
  preserves depth_bounded (execute_block_step ast block node).
Proof. unfold execute_block_step. keeps_depth. Qed.

Lemma execute_if_statement_step_keeps node :
  preserves depth_bounded (execute_if_statement_step eval block node).
Proof. unfold execute_if_statement_step. keeps_depth. Qed.

Lemma execute_for_statement_step_keeps node :
  preserves depth_bounded (execute_for_statement_step eval loop node).
Proof. unfold execute_for_statement_step. keeps_depth. Qed.

Lemma for_loop_step_keeps loop_var body array i :
  preserves depth_bounded (for_loop_step block loop loop_var body array i).
Proof.
  unfold for_loop_step, for_iteration.
  keeps_depth. apply try_modify_set_variable_value_keeps.
Qed.

Lemma execute_while_statement_step_keeps node :
  preserves depth_bounded (execute_while_statement_step eval block while_statement node).
Proof. unfold execute_while_statement_step. keeps_depth. Qed.

End StepsKeepDepth.

Section DepthBound.

Context {libc : LibC}.

Lemma functions_keep_depth (n : nat) :
  (forall node context, preserves depth_bounded (evaluate_expression n node context))
  /\ (forall node, preserves depth_bounded (execute_function_call n node))
  /\ (forall param arg args,
         preserves depth_bounded (evaluate_arguments n param arg args))
  /\ (forall node, preserves depth_bounded (execute_block_with_return n node))
  /\ (forall node, preserves depth_bounded (execute_ast_with_return n node)).
Proof.
  induction n as [| n (IHe & IHc & IHa & IHb & IHs)].
  - repeat split; intros; apply preserves_out_of_fuel.
  - repeat split; intros.
    + apply evaluate_expression_step_keeps; assumption.
    + apply execute_function_call_step_keeps; assumption.
    + apply evaluate_arguments_step_keeps; assumption.
    + apply execute_block_with_return_step_keeps; assumption.
    + apply execute_ast_with_return_step_keeps; assumption.
Qed.

Lemma statements_keep_depth (n : nat) :
  (forall node, preserves depth_bounded (execute_ast n node))
  /\ (forall node, preserves depth_bounded (execute_block n node))
  /\ (forall node, preserves depth_bounded (execute_if_statement n node))
  /\ (forall node, preserves depth_bounded (execute_for_statement n node))
  /\ (forall loop_var body array i,
         preserves depth_bounded (for_loop n loop_var body array i))
  /\ (forall node, preserves depth_bounded (execute_while_statement n node)).
Proof.
  induction n as [| n (IHa & IHb & IHi & IHf & IHl & IHw)].
  - repeat split; intros; apply preserves_out_of_fuel.
  - destruct (functions_keep_depth n) as (He & Hc & _).
    repeat split; intros.
    + apply execute_ast_step_keeps; assumption.
    + apply execute_block_step_keeps; assumption.
    + apply execute_if_statement_step_keeps; assumption.
    + apply execute_for_statement_step_keeps; assumption.
    + apply for_loop_step_keeps; assumption.
    + apply execute_while_statement_step_keeps; assumption.
Qed.

End DepthBound.

(** ** Identifiers in arithmetic context *)

Section Claims.

Context {libc : LibC}.

(** An identifier whose variable holds one entry, in arithmetic
    context. *)
Lemma evaluate_identifier_single_entry
      (fuel : nat) (l r nb : option ASTNode) (x : string) (st : State) (i : nat)
      (p : KeyValuePair) :
  get_variable x st = Some i ->
  pairs (var_array (slot (variables st) i)) = [p] ->
  evaluate_expression (S fuel) (Some (mkASTNode l r nb (AST_IDENTIFIER x)))
                      EVAL_ARITHMETIC st
  = Done (Some (result_of_text (value p))) st.
Proof.
  intros Hvar Hpairs.
  simpl. unfold evaluate_expression_step, evaluate_identifier. simpl.
  unfold bind, read. rewrite Hvar. unfold size, get_first_assoc_array_value.
  rewrite Hpairs. reflexivity.
Qed.


(** ** If statements *)

(** C7, as amended.  An if statement evaluates its condition in
    arithmetic context.  When the condition is a number or a string,
    the then-branch runs exactly when it is truthy (a non-zero number, a
    non-empty string); when it is not truthy the else-branch runs, and
    without an else-branch nothing more happens.  When the condition is
    an array, neither branch runs: the statement only reports an
    invalid condition type. *)
Theorem if_statement_runs_branch_of_scalar_condition :
  forall (fuel : nat) (l r nb condition then_branch else_branch : option ASTNode)
         (st st1 : State) (res : EvalResult),
    evaluate_expression fuel condition EVAL_ARITHMETIC st = Done (Some res) st1 ->
    execute_if_statement
      (S fuel) (mkASTNode l r nb (AST_IF_STATEMENT condition then_branch else_branch)) st
    = match res with
      | RESULT_ASSOC_ARRAY _ =>
          Done tt (printf "Error: Invalid condition type in if statement" st1)
      | _ =>
          if truthy res st1 then execute_block fuel then_branch st1
          else match else_branch with
               | Some _ => execute_block fuel else_branch st1
               | None => Done tt st1
               end
      end.
Proof.
  intros fuel l r nb condition then_branch else_branch st st1 res Hcond.
  simpl. unfold execute_if_statement_step. simpl.
  unfold bind. rewrite Hcond.
  destruct res as [s | d | p]; simpl.
  - destruct (String.eqb s EmptyString); simpl;
      [destruct else_branch |]; reflexivity.
  - destruct (Double.eqb d Double.zero); simpl;
      [destruct else_branch |]; reflexivity.
  - reflexivity.
Qed.

(** ** The built-in [mod] *)


(** ** Calls of user-defined functions *)




(** ** Assignment followed by a read *)

(** Storing a scalar result stores its text under the default key. *)
Lemma set_variable_from_scalar x res text st :
  scalar_text res = Some text ->
  set_variable_from_eval_result x res st = set_variable_value x None text st.
Proof.
  destruct res; simpl; intros [= <-]; reflexivity.
Qed.

(** C5, as amended.  (1) After the assignment [x = e], where [e]
    evaluates to a number or a string whose text reads back as the
    same value, and where [x] is new (with a free slot in the table) or
    holds at most the default key, reading [x] in arithmetic context
    yields the value of [e].  (2) After the element assignment
    [x[k] = e], with [e] as before, [k] evaluating in print context to a
    scalar with key text [key], and [x] new (with a free slot) or with
    a well-formed array, every lookup [x[k']] whose index evaluates in
    arithmetic context to the same key text yields the value of [e]. *)
Theorem assignment_then_read_yields_value :
  (forall (fuel : nat) (l tl tr tnb e nb : option ASTNode) (x : string)
          (st st1 : State) (res : EvalResult) (text : string),
      evaluate_expression fuel e EVAL_ARITHMETIC st = Done (Some res) st1 ->
      scalar_text res = Some text ->
      result_of_text text = res ->
      holds_at_most_default x st1 ->
      exists st2,
        execute_assignment
          (evaluate_expression fuel)
          (mkASTNode (Some (mkASTNode tl tr tnb (AST_IDENTIFIER x))) e nb AST_ASSIGNMENT) st
        = Done tt st2
        /\ forall fuel' l' r' nb',
            evaluate_expression (S fuel') (Some (mkASTNode l' r' nb' (AST_IDENTIFIER x)))
                                EVAL_ARITHMETIC st2
            = Done (Some res) st2)
  /\ (forall (fuel : nat) (k tr tnb e nb : option ASTNode) (x : string)
             (st st1 st2 : State) (res kres : EvalResult) (text key : string),
         evaluate_expression fuel e EVAL_ARITHMETIC st = Done (Some res) st1 ->
         scalar_text res = Some text ->
         result_of_text text = res ->
         evaluate_expression fuel k EVAL_PRINT st1 = Done (Some kres) st2 ->
         scalar_text kres = Some key ->
         can_store x st2 ->
         exists st3,
           execute_assignment
             (evaluate_expression fuel)
             (mkASTNode (Some (mkASTNode k tr tnb (AST_ARRAY_ACCESS x))) e nb AST_ASSIGNMENT)
             st
           = Done tt st3
           /\ forall fuel' k' r' nb' kres',
               evaluate_expression fuel' k' EVAL_ARITHMETIC st3 = Done (Some kres') st3 ->
               scalar_text kres' = Some key ->
               evaluate_expression (S fuel') (Some (mkASTNode k' r' nb' (AST_ARRAY_ACCESS x)))
                                   EVAL_ARITHMETIC st3
               = Done (Some res) st3).
Proof.
  split.
  - intros fuel l tl tr tnb e nb x st st1 res text He Htext Hback Hx.
    destruct (set_variable_value_default x text st1 Hx) as (st2 & i & Hset & Hvar & Hpairs).
    exists st2. split.
    + unfold execute_assignment. simpl.
      rewrite (bind_done _ _ _ _ _ He). simpl.
      unfold try_modify. rewrite (set_variable_from_scalar _ _ _ _ Htext), Hset.
      reflexivity.
    + intros fuel' l' r' nb'.
      rewrite (evaluate_identifier_single_entry fuel' l' r' nb' x st2 i _ Hvar Hpairs).
      simpl. rewrite Hback. reflexivity.
  - intros fuel k tr tnb e nb x st st1 st2 res kres text key He Htext Hback Hk Hkey Hx.
    destruct (set_variable_value_key x key text st2 Hx) as (st3 & i & Hset & Hvar & Hget).
    exists st3. split.
    + unfold execute_assignment. simpl.
      rewrite (bind_done _ _ _ _ _ He). simpl.
      rewrite (bind_done _ _ _ _ _ Hk). rewrite Hkey, Htext.
      unfold try_modify. rewrite Hset. reflexivity.
    + intros fuel' k' r' nb' kres' Hk' Hkey'.
      simpl. unfold evaluate_expression_step. simpl. unfold evaluate_array_access.
      rewrite (bind_done _ _ _ _ _ Hk'). rewrite Hkey'.
      unfold bind, read. rewrite Hvar, Hget, Hback. reflexivity.
Qed.

(** ** For loops *)

Lemma for_iteration_le block block' loop_var body p :
  (forall node, le_M (block node) (block' node)) ->
  le_M (for_iteration block loop_var body p) (for_iteration block' loop_var body p).
Proof. intros Hblock. unfold for_iteration. mono. Qed.

Lemma for_iteration_fuel n m loop_var body p st st' :
  n <= m ->
  for_iteration (execute_block n) loop_var body p st = Done tt st' ->
  for_iteration (execute_block m) loop_var body p st = Done tt st'.
Proof.
  intros Hle. apply le_M_done. apply for_iteration_le.
  intros node. apply execute_block_monotone. exact Hle.
Qed.

(** The loop from index [length prefix] on, when the iterations leave
    the array as it is: it runs the iteration for each remaining entry,
    in order. *)
Lemma for_loop_runs_suffix fuel loop_var body array (Inv : State -> Prop) ps :
  (forall s, Inv s ->
             pairs (deref s array) = ps
             /\ forall i, copies_onto_itself loop_var array i s = false) ->
  (forall s p s',
      Inv s -> In p ps ->
      for_iteration (execute_block fuel) loop_var body p s = Done tt s' -> Inv s') ->
  forall suffix prefix st st',
    ps = prefix ++ suffix ->
    Inv st ->
    for_each (for_iteration (execute_block fuel) loop_var body) suffix st = Done tt st' ->
    for_loop (S (fuel + List.length suffix)) loop_var body array (List.length prefix) st
    = Done tt st'.
Proof.
  intros Hinv Hkeep.
  induction suffix as [| p suffix IH]; intros prefix st st' Hps HI Hrun.
  - simpl in Hrun. injection Hrun as <-.
    simpl. unfold for_loop_step. unfold bind at 1. unfold read.
    destruct (Hinv st HI) as [-> _]. rewrite Hps, app_nil_r.
    replace (nth_error prefix (List.length prefix)) with (@None KeyValuePair)
      by (symmetry; apply nth_error_None; lia).
    reflexivity.
  - simpl in Hrun. apply bind_inv in Hrun. destruct Hrun as ([] & st1 & Hiter & Hrest).
    assert (HI1 : Inv st1).
    { apply (Hkeep st p st1 HI); [| exact Hiter].
      rewrite Hps. apply in_or_app. right. left. reflexivity. }
    replace (S (fuel + List.length (p :: suffix)))
      with (S (S (fuel + List.length suffix))) by (simpl; lia).
    change (for_loop (S (S (fuel + List.length suffix))) loop_var body array
                     (List.length prefix) st)
      with (for_loop_step (execute_block (S (fuel + List.length suffix)))
                          (for_loop (S (fuel + List.length suffix)))
                          loop_var body array (List.length prefix) st).
    unfold for_loop_step. unfold bind at 1. unfold read.
    destruct (Hinv st HI) as [-> Hno]. rewrite Hps.
    rewrite nth_error_app2 by lia. rewrite Nat.sub_diag. simpl.
    unfold bind at 1. rewrite Hno.
    rewrite (bind_done _ _ _ _ _
               (for_iteration_fuel fuel (S (fuel + List.length suffix))
                                   loop_var body p st st1 ltac:(lia) Hiter)).
    replace (S (List.length prefix)) with (List.length (prefix ++ [p]))
      by (rewrite length_app; simpl; lia).
    apply IH; [rewrite <- app_assoc; exact Hps | exact HI1 | exact Hrest].
Qed.

(** C6, as amended.  Take a for loop whose expression evaluates, in
    print context, to an array with the entries [ps], and suppose that
    no iteration changes that array: some invariant [Inv] of the states
    between iterations keeps the entries of the array equal to [ps]
    (and keeps the loop variable from being copied onto itself).  Then
    the loop is the sequence of one iteration per entry of [ps], in the
    order of [ps]: the loop variable is set to the entry, the body runs,
    the loop variable is cleared.  The body therefore runs exactly
    [length ps] times. *)
Theorem for_loop_runs_body_once_per_entry :
  forall (fuel : nat) (l r nb expression body : option ASTNode) (loop_var : string)
         (st0 st st' : State) (array : ArrayPointer) (ps : list KeyValuePair)
         (Inv : State -> Prop),
    evaluate_expression fuel expression EVAL_PRINT st0
    = Done (Some (RESULT_ASSOC_ARRAY array)) st ->
    Inv st ->
    (forall s, Inv s ->
               pairs (deref s array) = ps
               /\ forall i, copies_onto_itself loop_var array i s = false) ->
    (forall s p s',
        Inv s -> In p ps ->
        for_iteration (execute_block fuel) loop_var body p s = Done tt s' -> Inv s') ->
    for_each (for_iteration (execute_block fuel) loop_var body) ps st = Done tt st' ->
    forall m,
      fuel + List.length ps + 2 <= m ->
      execute_for_statement
        m (mkASTNode l r nb (AST_FOR_STATEMENT loop_var expression body)) st0
      = Done tt st'.
Proof.
  intros fuel l r nb expression body loop_var st0 st st' array ps Inv
         Hexpr HI Hinv Hkeep Hrun m Hm.
  apply (monotone_done
           (fun n => execute_for_statement
                       n (mkASTNode l r nb (AST_FOR_STATEMENT loop_var expression body)))
           (S (S (fuel + List.length ps))));
    [apply execute_for_statement_monotone | lia |].
  change (execute_for_statement_step
            (evaluate_expression (S (fuel + List.length ps)))
            (for_loop (S (fuel + List.length ps)))
            (mkASTNode l r nb (AST_FOR_STATEMENT loop_var expression body)) st0
          = Done tt st').
  unfold execute_for_statement_step. simpl.
  rewrite (bind_done _ _ _ _ _
             (evaluate_expression_fuel fuel (S (fuel + List.length ps)) expression
                                       EVAL_PRINT st0 _ st ltac:(lia) Hexpr)).
  simpl.
  exact (for_loop_runs_suffix fuel loop_var body array Inv ps Hinv Hkeep
                              ps [] st st' eq_refl HI Hrun).
Qed.

(** ** The scope stack *)

(** The depth of the scope stack never exceeds [MAX_SCOPES]: from a
    state within the bound, every expression, call and statement that
    ends leaves a state within the bound.  (The first half of C8.) *)
Theorem scope_depth_never_exceeds_maximum :
  forall (fuel : nat) (st : State),
    scope_depth st <= MAX_SCOPES ->
    (forall node context r st',
        evaluate_expression fuel node context st = Done r st' ->
        scope_depth st' <= MAX_SCOPES)
    /\ (forall call_node r st',
           execute_function_call fuel call_node st = Done r st' ->
           scope_depth st' <= MAX_SCOPES)
    /\ (forall node st',
           execute_ast fuel node st = Done tt st' -> scope_depth st' <= MAX_SCOPES).
Proof.
  intros fuel st Hdepth.
  destruct (functions_keep_depth fuel) as (He & Hc & _).
  destruct (statements_keep_depth fuel) as (Ha & _).
  repeat split.
  - intros node context r st' H. exact (He node context st r st' Hdepth H).
  - intros call_node r st' H. exact (Hc call_node st r st' Hdepth H).
  - intros node st' H. exact (Ha node st tt st' Hdepth H).
Qed.

(** [pop_scope] never writes [variable_count]. *)
Lemma pop_scope_keeps_variable_count st :
  variable_count (pop_scope st) = variable_count st.
Proof.
  unfold pop_scope.
  destruct (scope_stack st) as [| [saved_variables saved_count] rest]; reflexivity.
Qed.

(** ** Element assignments of arrays *)

(** An element assignment [x[k] = e] whose right-hand side evaluates to
    an array stores nothing.  When the index evaluates to a scalar, the
    assignment adds one diagnostic to the state that the evaluation of
    its operands left.  When the operands contain no function call, the
    whole frame (the function table, the variable table, its count and
    the scope stack) is as it was before the assignment: [x] is neither
    changed nor created.  (C10, for operands without calls.) *)
Theorem rejected_assignment_changes_nothing :
  forall (fuel : nat) (k tr tnb e nb : option ASTNode) (x : string)
         (st st1 : State) (p : ArrayPointer),
    evaluate_expression fuel e EVAL_ARITHMETIC st
    = Done (Some (RESULT_ASSOC_ARRAY p)) st1 ->
    let node :=
      mkASTNode (Some (mkASTNode k tr tnb (AST_ARRAY_ACCESS x))) e nb AST_ASSIGNMENT in
    (forall kres st2,
        evaluate_expression fuel k EVAL_PRINT st1 = Done (Some kres) st2 ->
        is_scalar kres = true ->
        execute_assignment (evaluate_expression fuel) node st
        = Done tt (printf "Error: Cannot assign an associative array to an array element"
                          st2))
    /\ (forall st',
           call_free_option e = true -> call_free_option k = true ->
           execute_assignment (evaluate_expression fuel) node st = Done tt st' ->
           frame st' = frame st /\ get_variable x st' = get_variable x st).
Proof.
  intros fuel k tr tnb e nb x st st1 p He node. unfold node. clear node. split.
  - intros kres st2 Hk Hscalar. unfold execute_assignment. simpl.
    rewrite (bind_done _ _ _ _ _ He). simpl.
    rewrite (bind_done _ _ _ _ _ Hk).
    destruct kres; try discriminate Hscalar; reflexivity.
  - intros st' Hfree_e Hfree_k H.
    assert (Hframe : frame st' = frame st).
    { unfold execute_assignment in H. simpl in H.
      rewrite (bind_done _ _ _ _ _ He) in H. simpl in H.
      apply call_free_frame in He; [| exact Hfree_e]. rewrite <- He.
      apply bind_inv in H. destruct H as (kres & st2 & Hk & H).
      apply call_free_frame in Hk; [| exact Hfree_k]. rewrite <- Hk.
      destruct kres as [[s | d | q] |]; simpl in H; injection H as <-; reflexivity. }
    split; [exact Hframe |].
    unfold frame in Hframe. unfold get_variable. congruence.
Qed.

End Claims.

(** ** Instances on concrete programs *)

Section Instances.

Import Syntax.
Import Example.
Local Open Scope string_scope.

#[local] Existing Instance RefLibC.libc.


(** C7 as stated fails for arrays: [a] has two entries, so the
    specification counts it as true, but [if a] does not run its then-branch; it
    reports an error instead. *)
Lemma if_statement_array_condition_counterexample :
  evaluate_expression 5 (Some (identifier "a")) EVAL_ARITHMETIC two_entries
  = Done (Some (RESULT_ASSOC_ARRAY (InVariable 0))) two_entries
  /\ truthy (RESULT_ASSOC_ARRAY (InVariable 0)) two_entries = true
  /\ execute_if_statement 5 if_a_yes two_entries
     = Done tt (printf "Error: Invalid condition type in if statement" two_entries)
  /\ execute_block 4 (link_block [print (literal "yes")]) two_entries
     = Done tt (printf "yes" two_entries)
  /\ execute_if_statement 5 if_a_yes two_entries
     <> execute_block 4 (link_block [print (literal "yes")]) two_entries.
Proof.
  repeat split; try (vm_compute; reflexivity).
  vm_compute. discriminate.
Qed.

Lemma if_statement_runs_branch_of_scalar_condition_witness :
  evaluate_expression 4 (Some (literal "1")) EVAL_ARITHMETIC (initial_state [])
  = Done (Some (RESULT_NUMBER (Double.of_int 1))) (initial_state [])
  /\ execute_if_statement 5 if_1_yes (initial_state [])
     = Done tt (printf "yes" (initial_state [])).
Proof.
  split; [reflexivity |].
  exact (if_statement_runs_branch_of_scalar_condition
           4 None None None (Some (literal "1")) (link_block [print (literal "yes")]) None
           (initial_state []) (initial_state []) (RESULT_NUMBER (Double.of_int 1)) eq_refl).
Defined.





(** C5 as stated fails when [x] already holds other keys: [x = 5]
    adds the default key to the two entries of [x], and reading [x]
    yields the array of three entries, not 5. *)
Lemma assignment_to_array_variable_counterexample :
  evaluate_expression 4 (Some (literal "5")) EVAL_ARITHMETIC x_two_entries
  = Done (Some (RESULT_NUMBER (Double.of_int 5))) x_two_entries
  /\ execute_assignment (evaluate_expression 4) assign_x_5 x_two_entries
     = Done tt x_three_entries
  /\ evaluate_expression 4 (Some (identifier "x")) EVAL_ARITHMETIC x_three_entries
     = Done (Some (RESULT_ASSOC_ARRAY (InVariable 0))) x_three_entries
  /\ size (deref x_three_entries (InVariable 0)) = 3
  /\ RESULT_ASSOC_ARRAY (InVariable 0) <> RESULT_NUMBER (Double.of_int 5).
Proof.
  repeat split; try (vm_compute; reflexivity). discriminate.
Qed.

(** The text of a number keeps six significant digits: after
    [x = 1234567], reading [x] yields 1234570. *)
Example assignment_rounds_to_six_digits :
  outcome_value
    (bind (execute_assignment (evaluate_expression 4) assign_x_1234567)
          (fun _ => evaluate_expression 4 (Some (identifier "x")) EVAL_ARITHMETIC)
          (initial_state []))
  = Some (Some (RESULT_NUMBER (Double.of_int 1234570))).
Proof. vm_compute. reflexivity. Qed.

(** After [x = 10], [x] reads as 10; after [a["lemon"] = 3], [a["lemon"]]
    reads as 3. *)
Lemma assignment_then_read_yields_value_witness :
  (exists st2,
      execute_assignment (evaluate_expression 4) assign_x_10 (initial_state [])
      = Done tt st2
      /\ evaluate_expression 4 (Some (identifier "x")) EVAL_ARITHMETIC st2
         = Done (Some (RESULT_NUMBER (Double.of_int 10))) st2)
  /\ (exists st3,
         execute_assignment (evaluate_expression 4) assign_a_lemon_3 (initial_state [])
         = Done tt st3
         /\ evaluate_expression 4 (Some (array_access "a" (literal "lemon")))
                                EVAL_ARITHMETIC st3
            = Done (Some (RESULT_NUMBER (Double.of_int 3))) st3).
Proof.
  assert (Hfree : holds_at_most_default "x" (initial_state []))
    by (unfold holds_at_most_default; simpl; unfold MAX_VARIABLES; lia).
  assert (Hstore : can_store "a" (initial_state []))
    by (unfold can_store; simpl; unfold MAX_VARIABLES; lia).
  assert (H10 : evaluate_expression 4 (Some (literal "10")) EVAL_ARITHMETIC
                                     (initial_state [])
                 = Done (Some (RESULT_NUMBER (Double.of_int 10))) (initial_state []))
    by (vm_compute; reflexivity).
  assert (H3 : evaluate_expression 4 (Some (literal "3")) EVAL_ARITHMETIC
                                    (initial_state [])
                = Done (Some (RESULT_NUMBER (Double.of_int 3))) (initial_state []))
    by (vm_compute; reflexivity).
  assert (Hback10 : result_of_text "10" = RESULT_NUMBER (Double.of_int 10))
    by (vm_compute; reflexivity).
  assert (Hback3 : result_of_text "3" = RESULT_NUMBER (Double.of_int 3))
    by (vm_compute; reflexivity).
  assert (Htext10 : scalar_text (RESULT_NUMBER (Double.of_int 10)) = Some "10")
    by (vm_compute; reflexivity).
  assert (Htext3 : scalar_text (RESULT_NUMBER (Double.of_int 3)) = Some "3")
    by (vm_compute; reflexivity).
  split.
  - destruct (proj1 assignment_then_read_yields_value
                    4 None None None None (Some (literal "10")) None "x"
                    (initial_state []) (initial_state [])
                    (RESULT_NUMBER (Double.of_int 10)) "10"
                    H10 Htext10 Hback10 Hfree) as (st2 & Hrun & Hread).
    exists st2. split; [exact Hrun | apply (Hread 3)].
  - destruct (proj2 assignment_then_read_yields_value
                    4 (Some (literal "lemon")) None None (Some (literal "3")) None "a"
                    (initial_state []) (initial_state []) (initial_state [])
                    (RESULT_NUMBER (Double.of_int 3)) (RESULT_STRING "lemon") "3" "lemon"
                    H3 Htext3 Hback3 eq_refl eq_refl Hstore) as (st3 & Hrun & Hread).
    exists st3. split; [exact Hrun |].
    apply (Hread 3 (Some (literal "lemon")) None None (RESULT_STRING "lemon"));
      [| reflexivity].
    destruct st3; reflexivity.
Defined.

(** C6 as stated fails when the body changes the array: [a] has two
    entries when the loop starts, the body adds a third one, and the
    body runs three times. *)
Lemma for_loop_growing_array_counterexample :
  evaluate_expression 10 (Some (identifier "a")) EVAL_PRINT two_entries
  = Done (Some (RESULT_ASSOC_ARRAY (InVariable 0))) two_entries
  /\ size (deref two_entries (InVariable 0)) = 2
  /\ option_map output (outcome_state (execute_for_statement 10 growing_loop two_entries))
     = Some ["1"; "2"; "9"]
  /\ option_map output
       (outcome_state
          (for_each (for_iteration (execute_block 10) "i" (link_block growing_loop_body))
                    (pairs (deref two_entries (InVariable 0))) two_entries))
     = Some ["1"; "2"].
Proof.
  repeat split; vm_compute; reflexivity.
Qed.

(** The invariant of [loop_print_k]. *)
Lemma a_is_first_kept fuel p s s' :
  a_is_first s ->
  for_iteration (execute_block fuel) "k" (link_block [print (identifier "k")]) p s
  = Done tt s' ->
  a_is_first s'.
Proof.
  intros [Hslot Hcount] H. unfold for_iteration in H.
  assert (Hname : var_name (slot (variables s) 0) <> "k")
    by (rewrite Hslot; discriminate).
  apply bind_inv in H. destruct H as ([] & s1 & Hset & H).
  apply bind_inv in H. destruct H as ([] & s2 & Hbody & Hclear).
  unfold try_modify in Hset.
  destruct (set_variable_value "k" (Some (key p)) (value p) s) as [s1' |] eqn:E;
    [| discriminate].
  injection Hset as ->.
  destruct (set_variable_value_keeps_others _ _ _ _ _ 0 E Hcount Hname) as [Hs1 Hc1].
  apply execute_block_print_frame in Hbody; [| reflexivity].
  assert (Hv2 : variables s2 = variables s1) by (unfold frame in Hbody; congruence).
  assert (Hc2 : variable_count s2 = variable_count s1)
    by (unfold frame in Hbody; congruence).
  injection Hclear as <-. split.
  - rewrite clear_variable_keeps_others; rewrite Hv2, Hs1; [exact Hslot | exact Hname].
  - rewrite clear_variable_count, Hc2. lia.
Qed.

Lemma a_is_first_stable s :
  a_is_first s ->
  pairs (deref s (InVariable 0)) = entries_of_a
  /\ forall i, copies_onto_itself "k" (InVariable 0) i s = false.
Proof.
  intros [Hslot Hcount]. split; [simpl; rewrite Hslot; reflexivity |].
  intros i. unfold copies_onto_itself.
  destruct (get_variable "k" s) as [v |] eqn:Hvar; [| reflexivity].
  apply find_variable_bounds in Hvar. destruct Hvar as [_ Hv].
  destruct v as [| v]; [| reflexivity].
  rewrite Hslot in Hv. discriminate Hv.
Qed.

(** [for k in a ... print(k) ... end] with the two entries of [a] runs
    its body twice, for [x] and then for [y]. *)
Lemma for_loop_runs_body_once_per_entry_witness :
  a_is_first two_entries
  /\ for_each (for_iteration (execute_block 5) "k" (link_block [print (identifier "k")]))
              entries_of_a two_entries
     = Done tt (state_after 12 [] [ assignment (array_access "a" (literal "x")) (literal "1");
                                    assignment (array_access "a" (literal "y")) (literal "2");
                                    loop_print_k ])
  /\ execute_for_statement 9 loop_print_k two_entries
     = Done tt (state_after 12 [] [ assignment (array_access "a" (literal "x")) (literal "1");
                                    assignment (array_access "a" (literal "y")) (literal "2");
                                    loop_print_k ])
  /\ output (state_after 12 [] [ assignment (array_access "a" (literal "x")) (literal "1");
                                 assignment (array_access "a" (literal "y")) (literal "2");
                                 loop_print_k ])
     = ["1"; "2"].
Proof.
  assert (HI : a_is_first two_entries)
    by (split; [reflexivity | vm_compute; repeat constructor]).
  assert (Hexpr : evaluate_expression 5 (Some (identifier "a")) EVAL_PRINT two_entries
                  = Done (Some (RESULT_ASSOC_ARRAY (InVariable 0))) two_entries)
    by (vm_compute; reflexivity).
  assert (Hrun :
            for_each (for_iteration (execute_block 5) "k"
                                    (link_block [print (identifier "k")]))
                     entries_of_a two_entries
            = Done tt (state_after 12 []
                         [ assignment (array_access "a" (literal "x")) (literal "1");
                           assignment (array_access "a" (literal "y")) (literal "2");
                           loop_print_k ]))
    by (vm_compute; reflexivity).
  split; [exact HI | split; [exact Hrun | split; [| vm_compute; reflexivity]]].
  exact (for_loop_runs_body_once_per_entry
           5 None None None (Some (identifier "a")) (link_block [print (identifier "k")])
           "k" two_entries two_entries _ (InVariable 0) entries_of_a a_is_first
           Hexpr HI a_is_first_stable
           (fun s p s' H _ => a_is_first_kept 5 p s s' H) Hrun 9 (le_n 9)).
Defined.

(** ** Where the program departs from its specification *)

(** C2.  The caller's frame is not as it was after a call.  At the top
    level [x] is the one variable; after the call [f()] the table is
    restored but [variable_count] is the callee's count, 0, and [x] is
    no longer found. *)
Theorem call_leaves_callee_variable_count :
  variable_count x_is_1 = 1
  /\ get_variable "x" x_is_1 = Some 0
  /\ execute_function_call 6 call_f x_is_1
     = Done (return_number (Double.of_int 0))
            (mkState [f_returns_0] (variables x_is_1) 0 [] [])
  /\ get_variable "x" (mkState [f_returns_0] (variables x_is_1) 0 [] []) = None
  /\ evaluate_expression 2 (Some (identifier "x")) EVAL_ARITHMETIC
                         (mkState [f_returns_0] (variables x_is_1) 0 [] [])
     = Done None (mkState [f_returns_0] (variables x_is_1) 0 []
                          ["Error: Undefined variable 'x'"]).
Proof.
  repeat split; vm_compute; reflexivity.
Qed.

(** C3.  A return nested in an if block of a function body does not
    end the call: the if statement is not executed at all inside a
    function, it is reported as an unknown node, and the call evaluates
    to the value of the later return, 7 and not 5. *)
Theorem nested_return_is_not_executed :
  evaluate_expression 8 (Some call_f) EVAL_ARITHMETIC (initial_state [f_nested_return])
  = Done (Some (RESULT_NUMBER (Double.of_int 7)))
         (printf "Error: While executing the AST (with return) - Unknown AST node type"
                 (initial_state [f_nested_return])).
Proof. vm_compute. reflexivity. Qed.

(** C8.  A call whose argument fails to evaluate pops a frame that it
    never pushed.  Inside the body of [f] the depth is 1; the call
    [g(nosuch)] leaves it at 0, so that the pop that ends [f] finds the
    stack empty. *)
Theorem failed_argument_pops_a_frame :
  scope_depth inside_f = 1
  /\ option_map scope_depth (outcome_state (execute_function_call 6 call_g_nosuch inside_f))
     = Some 0
  /\ option_map output
       (outcome_state (execute_function_call 8 call_f
                                             (initial_state [g_identity; f_calls_g])))
     = Some [ "Error: Undefined variable 'nosuch'";
              "Error: Failed to evaluate argument";
              "Error: Scope stack underflow" ].
Proof.
  repeat split; vm_compute; reflexivity.
Qed.


(** The call [f(1)] starts and ends at depth 0. *)
Lemma scope_depth_never_exceeds_maximum_witness :
  scope_depth (initial_state [f_returns_5]) <= MAX_SCOPES
  /\ execute_function_call 6 f_of_1 (initial_state [f_returns_5])
     = Done (return_number (Double.of_int 5)) (pop_scope frame_of_f_1)
  /\ scope_depth (pop_scope frame_of_f_1) <= MAX_SCOPES.
Proof.
  assert (Hdepth : scope_depth (initial_state [f_returns_5]) <= MAX_SCOPES)
    by (vm_compute; repeat constructor).
  assert (Hcall : execute_function_call 6 f_of_1 (initial_state [f_returns_5])
                  = Done (return_number (Double.of_int 5)) (pop_scope frame_of_f_1))
    by (vm_compute; reflexivity).
  split; [exact Hdepth | split; [exact Hcall |]].
  exact (proj1 (proj2 (scope_depth_never_exceeds_maximum
                         6 (initial_state [f_returns_5]) Hdepth))
               f_of_1 _ _ Hcall).
Defined.

(** [x["b"] = a] with the two entries of [a]: an error is reported, and
    no variable [x] appears. *)
Lemma rejected_assignment_changes_nothing_witness :
  evaluate_expression 4 (Some (identifier "a")) EVAL_ARITHMETIC two_entries
  = Done (Some (RESULT_ASSOC_ARRAY (InVariable 0))) two_entries
  /\ execute_assignment (evaluate_expression 4) assign_x_b_a two_entries
     = Done tt (printf "Error: Cannot assign an associative array to an array element"
                       two_entries)
  /\ get_variable "x"
       (printf "Error: Cannot assign an associative array to an array element" two_entries)
     = get_variable "x" two_entries.
Proof.
  assert (He : evaluate_expression 4 (Some (identifier "a")) EVAL_ARITHMETIC two_entries
               = Done (Some (RESULT_ASSOC_ARRAY (InVariable 0))) two_entries)
    by (vm_compute; reflexivity).
  assert (Hk : evaluate_expression 4 (Some (literal "b")) EVAL_PRINT two_entries
               = Done (Some (RESULT_STRING "b")) two_entries)
    by (vm_compute; reflexivity).
  pose proof (rejected_assignment_changes_nothing
                4 (Some (literal "b")) None None (Some (identifier "a")) None "x"
                two_entries two_entries (InVariable 0) He) as [Hrun Hframe].
  split; [exact He |].
  split; [exact (Hrun (RESULT_STRING "b") two_entries Hk eq_refl) |].
  exact (proj2 (Hframe _ eq_refl eq_refl
                       (Hrun (RESULT_STRING "b") two_entries Hk eq_refl))).
Defined.

(** ** The end-to-end programs of the documentation

    The parsed form of each program, run from the initial state, writes
    the documented lines. *)

(** [print(1+2*3)] writes 7. *)
Example prints_arithmetic :
  output_of []
    [print (binary_op OP_ADD (literal "1")
                      (binary_op OP_MULTIPLY (literal "2") (literal "3")))]
  = Some ["7"].
Proof. vm_compute. reflexivity. Qed.

(** [x = 10] then [print(x)] writes 10. *)
Example prints_variable :
  output_of [] [assignment (identifier "x") (literal "10"); print (identifier "x")]
  = Some ["10"].
Proof. vm_compute. reflexivity. Qed.

(** [a["lemon"] = 3], [a["lime"] = 5], [print(a)], then a loop over [a]
    that prints each value. *)
Example prints_array_and_loops :
  output_of []
    [assignment (array_access "a" (literal "lemon")) (literal "3");
     assignment (array_access "a" (literal "lime")) (literal "5");
     print (identifier "a");
     for_statement "k" (identifier "a") [print (identifier "k")]]
  = Some ["{" +++ pairs_text [mkPair "lemon" "3"; mkPair "lime" "5"] +++ "}"; "3"; "5"].
Proof. vm_compute. reflexivity. Qed.

(** [def square(n) return n*n end] and [print(square(7))] writes 49. *)
Example prints_square :
  output_of
    [function_entry "square" ["n"]
       [return_statement (binary_op OP_MULTIPLY (identifier "n") (identifier "n"))]]
    [print (function_call "square" [literal "7"])]
  = Some ["49"].
Proof. vm_compute. reflexivity. Qed.

(** [i = 0], then [while i < 3] printing [i] and adding 1 to it, writes
    0, 1 and 2. *)
Example prints_while :
  output_of []
    [assignment (identifier "i") (literal "0");
     while_statement (binary_op OP_LESS_THAN (identifier "i") (literal "3"))
       [print (identifier "i");
        assignment (identifier "i") (binary_op OP_ADD (identifier "i") (literal "1"))]]
  = Some ["0"; "1"; "2"].
Proof. vm_compute. reflexivity. Qed.

End Instances.

(** * Properties of the code beyond the specification *)

(** ** Arrays and variables *)

Lemma replace_value_other ps k v ps' k' :
  replace_value ps k v = Some ps' -> k' <> k -> lookup_pairs ps' k' = lookup_pairs ps k'.
Proof.
  revert ps'. induction ps as [| p ps IH]; intros ps'; simpl; [discriminate |].
  destruct (String.eqb (key p) k) eqn:E.
  - intros [= <-] Hne. simpl. apply String.eqb_eq in E.
    destruct (String.eqb (key p) k') eqn:E'; [| reflexivity].
    apply String.eqb_eq in E'. congruence.
  - destruct (replace_value ps k v) as [ps'' |]; [| discriminate].
    intros [= <-] Hne. simpl. rewrite (IH ps'' eq_refl Hne). reflexivity.
Qed.

Lemma lookup_pairs_app_other ps k v k' :
  k' <> k -> lookup_pairs (ps ++ [mkPair k v]) k' = lookup_pairs ps k'.
Proof.
  intros Hne. induction ps as [| p ps IH]; simpl.
  - destruct (String.eqb k k') eqn:E; [| reflexivity].
    apply String.eqb_eq in E. congruence.
  - rewrite IH. reflexivity.
Qed.

Lemma replace_value_keys ps k v :
  match replace_value ps k v with
  | Some ps' => List.map key ps' = List.map key ps /\ existsb (String.eqb k) (List.map key ps) = true
  | None => existsb (String.eqb k) (List.map key ps) = false
  end.
Proof.
  induction ps as [| p ps IH]; simpl; [reflexivity |].
  rewrite (String.eqb_sym k (key p)).
  destruct (String.eqb (key p) k) eqn:E; simpl.
  - split; reflexivity.
  - destruct (replace_value ps k v) as [ps' |]; simpl.
    + destruct IH as [-> ->]. split; reflexivity.
    + exact IH.
Qed.

Lemma set_assoc_array_value_room (a : AssocArray) (k v : string) :
  well_formed_array a ->
  exists a', set_assoc_array_value a k v = Some a' /\ well_formed_array a'.
Proof.
  intros [Hsize Hcap]. unfold set_assoc_array_value.
  destruct (replace_value (pairs a) k v) as [ps |] eqn:E.
  - exists (mkArray ps (capacity a)). split; [reflexivity |].
    pose proof (replace_value_keys (pairs a) k v) as Hkeys. rewrite E in Hkeys.
    destruct Hkeys as [Hkeys _].
    unfold well_formed_array, size in *. simpl.
    rewrite <- (length_map key ps), Hkeys, length_map. split; assumption.
  - assert (Hroom : (size a <? (if size a =? capacity a then capacity a * 2
                                else capacity a)) = true).
    { apply Nat.ltb_lt. destruct (Nat.eqb_spec (size a) (capacity a)); lia. }
    rewrite Hroom. eexists. split; [reflexivity |].
    unfold well_formed_array, size in *. simpl. rewrite length_app. simpl.
    destruct (Nat.eqb_spec (List.length (pairs a)) (capacity a)); lia.
Qed.

(** A value stored into a well-formed array is the value that a lookup
    of its key returns; the values of all other keys are what they
    were, and the array stays well formed, so that the next store
    succeeds as well. *)
Theorem stored_value_is_found (a : AssocArray) (k v : string) :
  well_formed_array a ->
  exists a',
    set_assoc_array_value a k v = Some a'
    /\ get_assoc_array_value a' k = Some v
    /\ (forall k', k' <> k -> get_assoc_array_value a' k' = get_assoc_array_value a k')
    /\ well_formed_array a'.
Proof.
  intros Hwf.
  destruct (set_assoc_array_value_room a k v Hwf) as (a' & Hset & Hwf').
  exists a'. split; [exact Hset |]. split; [| split; [| exact Hwf']];
    unfold set_assoc_array_value in Hset; unfold get_assoc_array_value;
    destruct (replace_value (pairs a) k v) as [ps |] eqn:E.
  - injection Hset as <-. simpl. eapply replace_value_lookup. exact E.
  - destruct (size a <? _); [| discriminate]. injection Hset as <-. simpl.
    apply replace_value_none_lookup. exact E.
  - injection Hset as <-. simpl. intros k' Hne. eapply replace_value_other; eassumption.
  - destruct (size a <? _); [| discriminate]. injection Hset as <-. simpl.
    intros k' Hne. apply lookup_pairs_app_other. exact Hne.
Qed.

Lemma NoDup_snoc (l : list string) (k : string) :
  NoDup l -> ~ In k l -> NoDup (l ++ [k]).
Proof.
  intros Hl Hk. induction Hl as [| x l Hx Hl IH]; simpl.
  - constructor; [intros [] | constructor].
  - constructor.
    + rewrite in_app_iff. intros [H | [H | []]]; [exact (Hx H) |].
      apply Hk. left. symmetry. exact H.
    + apply IH. intros H. apply Hk. right. exact H.
Qed.

(** A store keeps the keys of an array in the order of their first
    insertion: a key that is present stays where it is, a new key goes
    to the end.  Keys that are distinct stay distinct, and the capacity
    never shrinks. *)
Theorem store_keeps_the_order_of_keys (a a' : AssocArray) (k v : string) :
  set_assoc_array_value a k v = Some a' ->
  keys a' = (if has_key a k then keys a else keys a ++ [k])
  /\ (NoDup (keys a) -> NoDup (keys a'))
  /\ capacity a <= capacity a'.
Proof.
  unfold set_assoc_array_value, keys, has_key.
  pose proof (replace_value_keys (pairs a) k v) as Hkeys.
  destruct (replace_value (pairs a) k v) as [ps |].
  - destruct Hkeys as [Hmap Hhas]. intros [= <-]. simpl. unfold keys. rewrite Hhas, Hmap.
    split; [reflexivity |]. split; [exact (fun H => H) | lia].
  - destruct (size a <? _) eqn:Hroom; [| discriminate].
    intros [= <-]. simpl. unfold keys. rewrite Hkeys, map_app. simpl.
    split; [reflexivity |]. split.
    + intros Hnd. apply NoDup_snoc; [exact Hnd |].
      intros Hin.
      assert (existsb (String.eqb k) (List.map key (pairs a)) = true) as Hex.
      { apply existsb_exists. exists k. split; [exact Hin | apply String.eqb_refl]. }
      congruence.
    + destruct (size a =? capacity a); lia.
Qed.

Lemma find_variable_snoc name vars i n :
  find_variable name vars i (S n) =
  match find_variable name vars i n with
  | Some j => Some j
  | None => if String.eqb (var_name (slot vars (i + n))) name then Some (i + n) else None
  end.
Proof.
  revert i. induction n as [| n IH]; intros i.
  - simpl. rewrite Nat.add_0_r. reflexivity.
  - change (find_variable name vars i (S (S n)))
      with (if String.eqb (var_name (slot vars i)) name then Some i
            else find_variable name vars (S i) (S n)).
    rewrite IH. simpl.
    destruct (String.eqb (var_name (slot vars i)) name); [reflexivity |].
    replace (i + S n) with (S i + n) by lia. reflexivity.
Qed.

Lemma get_variable_new_variable_other name other st :
  other <> name ->
  get_variable other (new_variable name st) = get_variable other st.
Proof.
  intros Hne. unfold get_variable, new_variable, with_variables.
  cbn [variables variable_count]. rewrite find_variable_snoc.
  rewrite (find_variable_ext other _ (variables st) 0 (variable_count st)).
  - destruct (find_variable other (variables st) 0 (variable_count st)); [reflexivity |].
    simpl. rewrite slot_set_slot_eq. simpl.
    destruct (String.eqb name other) eqn:E; [| reflexivity].
    apply String.eqb_eq in E. congruence.
  - intros j Hj. rewrite slot_set_slot_ne by lia. reflexivity.
Qed.

(** After [set_variable_value] the variable exists and holds the value
    under the key (under the empty key when none is given).  Every
    other variable is found as before with the slot that it had, and
    the functions, the scope stack and the output are unchanged. *)
Theorem variable_holds_what_was_stored
        (name : string) (k : option string) (v : string) (st : State) :
  can_store name st ->
  exists st' i,
    set_variable_value name k v st = Some st'
    /\ get_variable name st' = Some i
    /\ get_assoc_array_value (var_array (slot (variables st') i))
                             (match k with Some k => k | None => EmptyString end)
       = Some v
    /\ (forall other, other <> name ->
          get_variable other st' = get_variable other st
          /\ forall j, get_variable other st = Some j ->
                       slot (variables st') j = slot (variables st) j)
    /\ functions st' = functions st
    /\ scope_stack st' = scope_stack st
    /\ output st' = output st.
Proof.
  intros Hcan.
  set (k0 := match k with Some k => k | None => EmptyString end).
  assert (Hk : set_variable_value name k v st = set_variable_value name (Some k0) v st)
    by (destruct k; reflexivity).
  rewrite Hk. clear Hk.
  destruct (set_variable_value_key name k0 v st Hcan) as (st' & i & Hset & Hvar & Hget).
  exists st', i. split; [exact Hset |]. split; [exact Hvar |]. split; [exact Hget |].
  unfold set_variable_value in Hset. unfold can_store in Hcan.
  destruct (get_variable name st) as [i0 |] eqn:Hold.
  - split.
    + intros other Hne. unfold store in Hset.
      destruct (set_assoc_array_value _ k0 v) as [a' |]; [| discriminate].
      injection Hset as <-. split; [apply get_variable_set_array |].
      intros j Hj. unfold set_array, with_variables. simpl.
      apply slot_set_slot_ne.
      apply find_variable_bounds in Hold. apply find_variable_bounds in Hj.
      intros ->. destruct Hold as [_ Hold], Hj as [_ Hj]. congruence.
    + unfold store in Hset.
      destruct (set_assoc_array_value _ k0 v) as [a' |]; [| discriminate].
      injection Hset as <-. repeat split.
  - assert (Hfull : (MAX_VARIABLES <=? variable_count st) = false)
      by (apply Nat.leb_gt; exact Hcan).
    rewrite Hfull in Hset. unfold store in Hset.
    destruct (set_assoc_array_value _ k0 v) as [a' |]; [| discriminate].
    injection Hset as <-. split.
    + intros other Hne. split.
      * rewrite get_variable_set_array. apply get_variable_new_variable_other. exact Hne.
      * intros j Hj. apply find_variable_bounds in Hj. destruct Hj as [Hj _].
        unfold set_array, new_variable, with_variables. simpl.
        rewrite !slot_set_slot_ne by lia. reflexivity.
    + repeat split.
Qed.

(** ** Invariants that the operations on the state keep *)

Section StepsKeep.

Context {libc : LibC}.

Variable P : State -> Prop.

Hypothesis P_printf : forall line st, P st -> P (printf line st).
Hypothesis P_push_scope : forall st, P st -> P (push_scope st).
Hypothesis P_pop_scope : forall st, P st -> P (pop_scope st).
Hypothesis P_set_variable_value :
  forall name k v st st', P st -> set_variable_value name k v st = Some st' -> P st'.
Hypothesis P_set_variable_assoc_array :
  forall name p st st', P st -> set_variable_assoc_array name p st = Some st' -> P st'.
Hypothesis P_clear_variable_assoc_array :
  forall name st, P st -> P (clear_variable_assoc_array name st).

Lemma P_set_variable_from_eval_result name r st st' :
  P st -> set_variable_from_eval_result name r st = Some st' -> P st'.
Proof.
  destruct r; simpl; intros HP H.
  - eapply P_set_variable_value; eassumption.
  - eapply P_set_variable_value; eassumption.
  - eapply P_set_variable_assoc_array; eassumption.
Qed.

Lemma P_bind_arguments args :
  forall param st rest st',
    P st -> bind_arguments param args st = Some (rest, st') -> P st'.
Proof.
  induction args as [| a args IH]; intros param st rest st' HP; simpl.
  - intros [= _ <-]. exact HP.
  - destruct param as [p |]; [| discriminate].
    destruct (data_identifier p) as [identifier |]; [| discriminate].
    destruct (set_variable_from_eval_result identifier a st) as [st1 |] eqn:E;
      [| discriminate].
    apply IH. eapply P_set_variable_from_eval_result; eassumption.
Qed.

Lemma P_bind_missing :
  forall p st st', P st -> bind_missing p st = Some st' -> P st'.
Proof.
  fix IH 1. intros [l r nb d] st st' HP. simpl.
  destruct (data_identifier (mkASTNode l r nb d)) as [identifier |]; [| discriminate].
  destruct (set_variable_value identifier None "0" st) as [st1 |] eqn:E; [| discriminate].
  apply P_set_variable_value in E; [| exact HP].
  destruct r as [p' |].
  - apply IH. exact E.
  - intros [= <-]. exact E.
Qed.

Lemma P_bind_parameters param args st st' :
  P st -> bind_parameters param args st = Some st' -> P st'.
Proof.
  unfold bind_parameters. intros HP.
  destruct (bind_arguments param args st) as [[[p |] st1] |] eqn:E; [| | discriminate].
  - apply P_bind_missing. eapply P_bind_arguments; eassumption.
  - intros [= <-]. eapply P_bind_arguments; eassumption.
Qed.

Variable eval : option ASTNode -> EvalContext -> M (option EvalResult).
Variable call : ASTNode -> M FunctionReturn.
Variable eval_args :
  option ASTNode -> option ASTNode -> list EvalResult -> M (option (list EvalResult)).
Variable block_with_return : option ASTNode -> M FunctionReturn.
Variable ast_with_return : option ASTNode -> M FunctionReturn.
Variables ast block : option ASTNode -> M unit.
Variables if_statement for_statement while_statement : ASTNode -> M unit.
Variable loop : string -> option ASTNode -> ArrayPointer -> nat -> M unit.

Hypothesis eval_keeps : forall node context, preserves P (eval node context).
Hypothesis call_keeps : forall node, preserves P (call node).
Hypothesis eval_args_keeps :
  forall param arg args, preserves P (eval_args param arg args).
Hypothesis block_with_return_keeps : forall node, preserves P (block_with_return node).
Hypothesis ast_with_return_keeps : forall node, preserves P (ast_with_return node).
Hypothesis ast_keeps : forall node, preserves P (ast node).
Hypothesis block_keeps : forall node, preserves P (block node).
Hypothesis if_statement_keeps : forall node, preserves P (if_statement node).
Hypothesis for_statement_keeps : forall node, preserves P (for_statement node).
Hypothesis while_statement_keeps : forall node, preserves P (while_statement node).
Hypothesis loop_keeps :
  forall loop_var body array i, preserves P (loop loop_var body array i).

Ltac keeps :=
  repeat
    match goal with
    | |- preserves _ (bind _ _) => apply preserves_bind; [ | intros ? ]
    | |- preserves _ (ret _) => apply preserves_ret
    | |- preserves _ (read _) => apply preserves_read
    | |- preserves _ undefined => apply preserves_undefined
    | |- preserves _ (modify push_scope) => apply preserves_modify; exact P_push_scope
    | |- preserves _ (modify pop_scope) => apply preserves_modify; exact P_pop_scope
    | |- preserves _ (modify (clear_variable_assoc_array _)) =>
        apply preserves_modify; intros ?; apply P_clear_variable_assoc_array
    | |- preserves _ (modify (printf _)) =>
        apply preserves_modify; intros ?; apply P_printf
    | |- preserves _ (modify (fun st => print_assoc_array _ st)) =>
        apply preserves_modify; intros ?; apply P_printf
    | |- preserves _ (try_modify (set_variable_value _ _ _)) =>
        apply preserves_try_modify; intros ? ?; apply P_set_variable_value
    | |- preserves _ (try_modify (set_variable_from_eval_result _ _)) =>
        apply preserves_try_modify; intros ? ?; apply P_set_variable_from_eval_result
    | |- preserves _ (try_modify (bind_parameters _ _)) =>
        apply preserves_try_modify; intros ? ?; apply P_bind_parameters
    | H : context [preserves _ (_ _)] |- preserves _ _ => apply H
    | |- preserves _ (match ?x with _ => _ end) => destruct x
    end.

Lemma kvstdlib_call_keeps_invariant f arg : preserves P (kvstdlib_call eval f arg).
Proof.
  unfold kvstdlib_call, kvstdlib_len, kvstdlib_key, kvstdlib_mod, kvstdlib_bar.
  destruct f; keeps.
Qed.

Lemma execute_assignment_keeps_invariant node :
  preserves P (execute_assignment eval node).
Proof. unfold execute_assignment. keeps. Qed.

Lemma evaluate_and_print_keeps_invariant node :
  preserves P (evaluate_and_print eval node).
Proof. unfold evaluate_and_print. keeps. Qed.

Lemma evaluate_expression_step_keeps_invariant node context :
  preserves P (evaluate_expression_step eval call node context).
Proof.
  unfold evaluate_expression_step, evaluate_identifier, evaluate_array_access,
    evaluate_binary_op.
  cbv zeta. keeps.
Qed.

Lemma call_user_function_keeps_invariant entry args :
  preserves P (call_user_function block_with_return entry args).
Proof. unfold call_user_function. keeps. Qed.

Lemma execute_function_call_step_keeps_invariant node :
  preserves P (execute_function_call_step eval eval_args block_with_return node).
Proof.
  unfold execute_function_call_step.
  destruct (node_data node); try apply preserves_undefined.
  destruct (kvstdlib_lookup name); [apply kvstdlib_call_keeps_invariant |].
  apply preserves_bind; [apply preserves_read | intros found].
  destruct found as [[idx entry] |]; [| keeps].
  apply preserves_bind; [apply eval_args_keeps | intros args].
  destruct args; [apply call_user_function_keeps_invariant | keeps].
Qed.

Lemma evaluate_arguments_step_keeps_invariant param arg args :
  preserves P (evaluate_arguments_step eval eval_args param arg args).
Proof. unfold evaluate_arguments_step. keeps. Qed.

Lemma execute_block_with_return_step_keeps_invariant node :
  preserves P (execute_block_with_return_step block_with_return ast_with_return node).
Proof. unfold execute_block_with_return_step. keeps. Qed.

Lemma execute_ast_with_return_step_keeps_invariant node :
  preserves P (execute_ast_with_return_step eval call node).
Proof.
  unfold execute_ast_with_return_step, execute_return_statement.
  destruct node as [n |]; [| keeps].
  destruct (node_data n);
    try (apply preserves_bind;
         [first [apply evaluate_and_print_keeps_invariant
                | apply execute_assignment_keeps_invariant]
         | intros ?]);
    keeps.
Qed.

Lemma execute_ast_step_keeps_invariant node :
  preserves P
            (execute_ast_step eval call block if_statement for_statement
                              while_statement node).
Proof.
  unfold execute_ast_step.
  destruct node as [n |]; [| keeps].
  destruct (node_data n);
    first [apply evaluate_and_print_keeps_invariant
          | apply execute_assignment_keeps_invariant | keeps].
Qed.

Lemma execute_block_step_keeps_invariant node :
  preserves P (execute_block_step ast block node).
Proof. unfold execute_block_step. keeps. Qed.

Lemma execute_if_statement_step_keeps_invariant node :
  preserves P (execute_if_statement_step eval block node).
Proof. unfold execute_if_statement_step. keeps. Qed.

Lemma execute_for_statement_step_keeps_invariant node :
  preserves P (execute_for_statement_step eval loop node).
Proof. unfold execute_for_statement_step. keeps. Qed.

Lemma for_loop_step_keeps_invariant loop_var body array i :
  preserves P (for_loop_step block loop loop_var body array i).
Proof. unfold for_loop_step, for_iteration. keeps. Qed.

Lemma execute_while_statement_step_keeps_invariant node :
  preserves P (execute_while_statement_step eval block while_statement node).
Proof. unfold execute_while_statement_step. keeps. Qed.

End StepsKeep.

Section Invariants.

Context {libc : LibC}.

Variable P : State -> Prop.

Hypothesis P_printf : forall line st, P st -> P (printf line st).
Hypothesis P_push_scope : forall st, P st -> P (push_scope st).
Hypothesis P_pop_scope : forall st, P st -> P (pop_scope st).
Hypothesis P_set_variable_value :
  forall name k v st st', P st -> set_variable_value name k v st = Some st' -> P st'.
Hypothesis P_set_variable_assoc_array :
  forall name p st st', P st -> set_variable_assoc_array name p st = Some st' -> P st'.
Hypothesis P_clear_variable_assoc_array :
  forall name st, P st -> P (clear_variable_assoc_array name st).

Lemma functions_keep_invariant (n : nat) :
  (forall node context, preserves P (evaluate_expression n node context))
  /\ (forall node, preserves P (execute_function_call n node))
  /\ (forall param arg args, preserves P (evaluate_arguments n param arg args))
  /\ (forall node, preserves P (execute_block_with_return n node))
  /\ (forall node, preserves P (execute_ast_with_return n node)).
Proof.
  induction n as [| n (IHe & IHc & IHa & IHb & IHs)].
  - repeat split; intros; apply preserves_out_of_fuel.
  - repeat split; intros.
    + apply evaluate_expression_step_keeps_invariant; assumption.
    + apply execute_function_call_step_keeps_invariant; assumption.
    + apply evaluate_arguments_step_keeps_invariant; assumption.
    + apply execute_block_with_return_step_keeps_invariant; assumption.
    + apply execute_ast_with_return_step_keeps_invariant; assumption.
Qed.

Lemma statements_keep_invariant (n : nat) :
  (forall node, preserves P (execute_ast n node))
  /\ (forall node, preserves P (execute_block n node))
  /\ (forall node, preserves P (execute_if_statement n node))
  /\ (forall node, preserves P (execute_for_statement n node))
  /\ (forall loop_var body array i, preserves P (for_loop n loop_var body array i))
  /\ (forall node, preserves P (execute_while_statement n node)).
Proof.
  induction n as [| n (IHa & IHb & IHi & IHf & IHl & IHw)].
  - repeat split; intros; apply preserves_out_of_fuel.
  - destruct (functions_keep_invariant n) as (He & Hc & _).
    repeat split; intros.
    + apply execute_ast_step_keeps_invariant; assumption.
    + apply execute_block_step_keeps_invariant; assumption.
    + apply execute_if_statement_step_keeps_invariant; assumption.
    + apply execute_for_statement_step_keeps_invariant; assumption.
    + apply for_loop_step_keeps_invariant; assumption.
    + apply execute_while_statement_step_keeps_invariant; assumption.
Qed.

End Invariants.

(** ** The output and the number of variables *)

Lemma appends_output_refl st : appends_output st st.
Proof. split; [reflexivity |]. exists []. symmetry. apply app_nil_r. Qed.

Lemma appends_output_same st0 st st' :
  functions st' = functions st -> output st' = output st ->
  appends_output st0 st -> appends_output st0 st'.
Proof. unfold appends_output. intros -> ->. exact (fun H => H). Qed.

Lemma appends_output_printf st0 line st :
  appends_output st0 st -> appends_output st0 (printf line st).
Proof.
  intros [Hf [lines Hout]]. split; [exact Hf |].
  exists (lines ++ [line]). simpl. rewrite Hout. symmetry. apply app_assoc.
Qed.

Lemma store_functions_output i k v st st' :
  store i k v st = Some st' -> functions st' = functions st /\ output st' = output st.
Proof.
  unfold store. destruct (set_assoc_array_value _ k v); [| discriminate].
  intros [= <-]. split; reflexivity.
Qed.

Lemma copy_pairs_functions_output i ps :
  forall st st',
    copy_pairs i ps st = Some st' -> functions st' = functions st /\ output st' = output st.
Proof.
  induction ps as [| p ps IH]; intros st st'; simpl.
  - intros [= <-]. split; reflexivity.
  - destruct (store i (key p) (value p) st) as [st1 |] eqn:E; [| discriminate].
    intros H. apply IH in H. apply store_functions_output in E.
    destruct H as [-> ->]. exact E.
Qed.

Lemma copy_pairs_count i ps :
  forall st st', copy_pairs i ps st = Some st' -> variable_count st' = variable_count st.
Proof.
  induction ps as [| p ps IH]; intros st st'; simpl.
  - intros [= <-]. reflexivity.
  - destruct (store i (key p) (value p) st) as [st1 |] eqn:E; [| discriminate].
    intros H. apply IH in H. apply store_count in E. congruence.
Qed.

Lemma appends_output_push_scope st0 st :
  appends_output st0 st -> appends_output st0 (push_scope st).
Proof.
  unfold push_scope. destruct (MAX_SCOPES <=? scope_depth st).
  - apply appends_output_printf.
  - exact (fun H => H).
Qed.

Lemma appends_output_pop_scope st0 st :
  appends_output st0 st -> appends_output st0 (pop_scope st).
Proof.
  unfold pop_scope. destruct (scope_stack st) as [| [saved count] rest].
  - apply appends_output_printf.
  - exact (fun H => H).
Qed.

Lemma appends_output_set_variable_value st0 name k v st st' :
  appends_output st0 st -> set_variable_value name k v st = Some st' ->
  appends_output st0 st'.
Proof.
  unfold set_variable_value. intros H0.
  destruct (get_variable name st).
  - intros H. apply store_functions_output in H. destruct H as [Hf Ho].
    eapply appends_output_same; eassumption.
  - destruct (MAX_VARIABLES <=? variable_count st).
    + intros [= <-]. apply appends_output_printf. exact H0.
    + intros H. apply store_functions_output in H. destruct H as [Hf Ho].
      eapply appends_output_same; eassumption.
Qed.

Lemma appends_output_set_variable_assoc_array st0 name p st st' :
  appends_output st0 st -> set_variable_assoc_array name p st = Some st' ->
  appends_output st0 st'.
Proof.
  unfold set_variable_assoc_array. intros H0.
  destruct (get_variable name st).
  - intros H. apply copy_pairs_functions_output in H. destruct H as [Hf Ho].
    eapply appends_output_same; eassumption.
  - destruct (MAX_VARIABLES <=? variable_count st).
    + intros [= <-]. apply appends_output_printf. exact H0.
    + intros H. apply copy_pairs_functions_output in H. destruct H as [Hf Ho].
      eapply appends_output_same; eassumption.
Qed.

Lemma appends_output_clear_variable st0 name st :
  appends_output st0 st -> appends_output st0 (clear_variable_assoc_array name st).
Proof.
  unfold clear_variable_assoc_array. destruct (get_variable name st); exact (fun H => H).
Qed.

Lemma count_bounded_set_variable_value name k v st st' :
  count_bounded st -> set_variable_value name k v st = Some st' -> count_bounded st'.
Proof.
  unfold count_bounded, set_variable_value. intros H0.
  destruct (get_variable name st).
  - intros H. apply store_count in H. rewrite H. exact H0.
  - destruct (Nat.leb_spec MAX_VARIABLES (variable_count st)) as [Hfull | Hroom].
    + intros [= <-]. exact H0.
    + intros H. apply store_count in H. rewrite H. exact Hroom.
Qed.

Lemma count_bounded_set_variable_assoc_array name p st st' :
  count_bounded st -> set_variable_assoc_array name p st = Some st' -> count_bounded st'.
Proof.
  unfold count_bounded, set_variable_assoc_array. intros H0.
  destruct (get_variable name st).
  - intros H. apply copy_pairs_count in H. rewrite H. exact H0.
  - destruct (Nat.leb_spec MAX_VARIABLES (variable_count st)) as [Hfull | Hroom].
    + intros [= <-]. exact H0.
    + intros H. apply copy_pairs_count in H. rewrite H. exact Hroom.
Qed.

Lemma count_bounded_push_scope st : count_bounded st -> count_bounded (push_scope st).
Proof.
  unfold count_bounded, push_scope. destruct (MAX_SCOPES <=? scope_depth st).
  - exact (fun H => H).
  - intros _. apply Nat.le_0_l.
Qed.

Lemma count_bounded_pop_scope st : count_bounded st -> count_bounded (pop_scope st).
Proof.
  unfold count_bounded, pop_scope. destruct (scope_stack st) as [| [saved count] rest];
    exact (fun H => H).
Qed.

Lemma count_bounded_clear_variable name st :
  count_bounded st -> count_bounded (clear_variable_assoc_array name st).
Proof. unfold count_bounded. rewrite clear_variable_count. exact (fun H => H). Qed.

Section StateInvariants.

Context {libc : LibC}.

(** Evaluation and execution never change the table of functions and
    never take back a line of the output: the output at the end is the
    output at the start followed by the lines written. *)
Theorem execution_only_appends_to_the_output :
  forall (fuel : nat) (st : State),
    (forall node context r st',
        evaluate_expression fuel node context st = Done r st' ->
        functions st' = functions st /\ exists lines, output st' = output st ++ lines)
    /\ (forall call_node r st',
           execute_function_call fuel call_node st = Done r st' ->
           functions st' = functions st /\ exists lines, output st' = output st ++ lines)
    /\ (forall node st',
           execute_ast fuel node st = Done tt st' ->
           functions st' = functions st /\ exists lines, output st' = output st ++ lines).
Proof.
  intros fuel st.
  assert (Hf := functions_keep_invariant (appends_output st)
                  (appends_output_printf st) (appends_output_push_scope st)
                  (appends_output_pop_scope st) (appends_output_set_variable_value st)
                  (appends_output_set_variable_assoc_array st) fuel).
  assert (Hs := statements_keep_invariant (appends_output st)
                  (appends_output_printf st) (appends_output_push_scope st)
                  (appends_output_pop_scope st) (appends_output_set_variable_value st)
                  (appends_output_set_variable_assoc_array st)
                  (appends_output_clear_variable st) fuel).
  destruct Hf as (He & Hc & _). destruct Hs as (Ha & _).
  repeat split; intros.
  - eapply (He node context st r st' (appends_output_refl st)); eassumption.
  - eapply (He node context st r st' (appends_output_refl st)); eassumption.
  - eapply (Hc call_node st r st' (appends_output_refl st)); eassumption.
  - eapply (Hc call_node st r st' (appends_output_refl st)); eassumption.
  - eapply (Ha node st tt st' (appends_output_refl st)); eassumption.
  - eapply (Ha node st tt st' (appends_output_refl st)); eassumption.
Qed.

(** The number of variables never exceeds [MAX_VARIABLES]: from a state
    within the bound, every expression, call and statement that ends
    leaves the count within the bound. *)
Theorem variable_count_never_exceeds_maximum :
  forall (fuel : nat) (st : State),
    variable_count st <= MAX_VARIABLES ->
    (forall node context r st',
        evaluate_expression fuel node context st = Done r st' ->
        variable_count st' <= MAX_VARIABLES)
    /\ (forall call_node r st',
           execute_function_call fuel call_node st = Done r st' ->
           variable_count st' <= MAX_VARIABLES)
    /\ (forall node st',
           execute_ast fuel node st = Done tt st' -> variable_count st' <= MAX_VARIABLES).
Proof.
  intros fuel st Hcount.
  assert (Hf := functions_keep_invariant count_bounded
                  (fun _ _ H => H) count_bounded_push_scope
                  count_bounded_pop_scope count_bounded_set_variable_value
                  count_bounded_set_variable_assoc_array fuel).
  assert (Hs := statements_keep_invariant count_bounded
                  (fun _ _ H => H) count_bounded_push_scope
                  count_bounded_pop_scope count_bounded_set_variable_value
                  count_bounded_set_variable_assoc_array
                  count_bounded_clear_variable fuel).
  destruct Hf as (He & Hc & _). destruct Hs as (Ha & _).
  repeat split; intros.
  - exact (He node context st r st' Hcount H).
  - exact (Hc call_node st r st' Hcount H).
  - exact (Ha node st tt st' Hcount H).
Qed.

End StateInvariants.

(** ** Binary operations *)

Section Expressions.

Context {libc : LibC}.

Lemma binary_operation_operands
        (fuel : nat) (op : OperatorType) (l r nb : option ASTNode)
        (context : EvalContext) (st st' : State) (v : EvalResult) :
  evaluate_expression (S fuel) (Some (mkASTNode l r nb (AST_BINARY_OP op))) context st
  = Done (Some v) st' ->
  exists lres rres st1,
    evaluate_expression fuel l (operand_context op context) st = Done (Some lres) st1
    /\ evaluate_expression fuel r (operand_context op context) st1 = Done (Some rres) st'
    /\ match lres, rres with
       | RESULT_NUMBER x, RESULT_NUMBER y => v = RESULT_NUMBER (apply_operator op x y)
       | _, _ => False
       end.
Proof.
  intros H.
  simpl in H. unfold evaluate_binary_op in H. cbv zeta in H.
  fold (operand_context op context) in H.
  apply bind_inv in H. destruct H as (lres & st1 & Hl & H).
  destruct lres as [lres |]; [| discriminate H].
  apply bind_inv in H. destruct H as (rres & st2 & Hr & H).
  destruct rres as [rres |]; [| discriminate H].
  exists lres, rres, st1.
  destruct lres as [ls | x | lp]; try discriminate H;
    destruct rres as [rs | y | rp]; try discriminate H.
  injection H as <- <-. repeat split; assumption.
Qed.

(** A binary operation has a value only if both operands have numbers
    as values, the left one evaluated first; the value is then the
    number that the operator gives for them.  An operand that is a
    string or an array makes the operation fail. *)
Theorem binary_operation_yields_a_number
        (fuel : nat) (op : OperatorType) (l r nb : option ASTNode)
        (context : EvalContext) (st st' : State) (v : EvalResult) :
  evaluate_expression fuel (Some (mkASTNode l r nb (AST_BINARY_OP op))) context st
  = Done (Some v) st' ->
  exists fuel' x y st1,
    fuel = S fuel'
    /\ evaluate_expression fuel' l (operand_context op context) st
       = Done (Some (RESULT_NUMBER x)) st1
    /\ evaluate_expression fuel' r (operand_context op context) st1
       = Done (Some (RESULT_NUMBER y)) st'
    /\ v = RESULT_NUMBER (apply_operator op x y).
Proof.
  destruct fuel as [| fuel]; [discriminate |]. intros H.
  apply binary_operation_operands in H.
  destruct H as (lres & rres & st1 & Hl & Hr & Hv).
  destruct lres as [ls | x | lp]; try contradiction;
    destruct rres as [rs | y | rp]; try contradiction.
  exists fuel, x, y, st1. repeat split; assumption.
Qed.

Lemma identifier_is_no_number_in_print_context fuel node st x st' :
  is_identifier node = true ->
  evaluate_expression fuel node EVAL_PRINT st = Done (Some (RESULT_NUMBER x)) st' ->
  False.
Proof.
  destruct node as [[l r nb d] |]; [| discriminate].
  destruct d; try discriminate. intros _.
  destruct fuel as [| fuel]; [discriminate |].
  simpl. unfold evaluate_identifier. intros H. done_cases H.
Qed.

(** In print context the operands of a comparison are evaluated in
    print context too, where a variable yields a string or an array and
    never a number: a comparison with a variable as an operand, as in
    [print(x < 3)], has no value. *)
Theorem comparison_of_a_variable_fails_in_print_context
        (fuel : nat) (op : OperatorType) (l r nb : option ASTNode)
        (st st' : State) (res : option EvalResult) :
  is_arithmetic_operator op = false ->
  is_identifier l = true \/ is_identifier r = true ->
  evaluate_expression fuel (Some (mkASTNode l r nb (AST_BINARY_OP op))) EVAL_PRINT st
  = Done res st' ->
  res = None.
Proof.
  intros Hop Hid H. destruct res as [v |]; [| reflexivity]. exfalso.
  destruct fuel as [| fuel]; [discriminate |].
  apply binary_operation_operands in H.
  destruct H as (lres & rres & st1 & Hl & Hr & Hv).
  unfold operand_context in Hl, Hr. rewrite Hop in Hl, Hr.
  destruct lres as [ls | x | lp]; try contradiction;
    destruct rres as [rs | y | rp]; try contradiction.
  destruct Hid as [Hid | Hid].
  - exact (identifier_is_no_number_in_print_context _ _ _ _ _ Hid Hl).
  - exact (identifier_is_no_number_in_print_context _ _ _ _ _ Hid Hr).
Qed.

(** A division by zero reports nothing and has the value of the IEEE
    division: an infinity when the dividend is not zero, negative when
    the signs of the operands differ, and a NaN when the dividend is
    zero or a NaN. *)
Theorem division_by_zero_is_not_an_error
        (fuel : nat) (l r nb : option ASTNode) (context : EvalContext)
        (st st1 st2 : State) (x : double) (s0 : bool) :
  evaluate_expression fuel l EVAL_ARITHMETIC st = Done (Some (RESULT_NUMBER x)) st1 ->
  evaluate_expression fuel r EVAL_ARITHMETIC st1
  = Done (Some (RESULT_NUMBER (S754_zero s0))) st2 ->
  evaluate_expression (S fuel) (Some (mkASTNode l r nb (AST_BINARY_OP OP_DIVIDE))) context st
  = Done (Some (RESULT_NUMBER
                  match x with
                  | S754_finite s _ _ | S754_infinity s => S754_infinity (xorb s s0)
                  | S754_zero _ | S754_nan => S754_nan
                  end)) st2.
Proof.
  intros Hl Hr. simpl. unfold evaluate_binary_op. simpl.
  rewrite (bind_done _ _ _ _ _ Hl). simpl.
  rewrite (bind_done _ _ _ _ _ Hr). simpl.
  destruct x; reflexivity.
Qed.

End Expressions.

(** ** The built-in [len] and [key] *)

Section Library.

Context {libc : LibC}.

#[local] Arguments get_variable : simpl never.
#[local] Arguments size : simpl never.
#[local] Arguments slot : simpl never.

(** [len(x)] of a variable is the number of the entries of its array,
    in any context and without a change of the state; it is 1 for a
    variable that holds a scalar, which is an array of one entry. *)
Theorem len_counts_the_entries_of_a_variable
        (fuel : nat) (x : string) (l r nb xl xnb : option ASTNode)
        (context : EvalContext) (st : State) (i : nat) :
  get_variable x st = Some i ->
  evaluate_expression
    (S (S (S fuel)))
    (Some (mkASTNode l r nb
             (AST_FUNCTION_CALL "len" (Some (mkASTNode xl None xnb (AST_IDENTIFIER x))))))
    context st
  = Done (Some (RESULT_NUMBER
                  (Double.of_int (Z.of_nat (size (var_array (slot (variables st) i)))))))
         st.
Proof.
  intros Hvar. simpl. unfold execute_function_call_step. simpl.
  unfold kvstdlib_len. simpl.
  unfold evaluate_identifier, bind, read, ret. rewrite Hvar.
  destruct (Nat.eqb_spec (size (var_array (slot (variables st) i))) 1) as [Hone | Hmany].
  - unfold size in Hone.
    destruct (pairs (var_array (slot (variables st) i))) as [| p ps] eqn:Hp;
      [discriminate |].
    simpl. unfold size. rewrite Hp, Hone. reflexivity.
  - simpl. reflexivity.
Qed.

(** [key(x)] of a variable that is not empty is the key of its first
    entry.  [key(a[i])] is the text of the index [i], whether the array
    [a] has that key or not, or exists at all. *)
Theorem key_returns_the_first_key_or_the_index
        (fuel : nat) (l r nb xl xnb : option ASTNode) (context : EvalContext) :
  (forall (x : string) (st : State) (i : nat) (p : KeyValuePair) (ps : list KeyValuePair),
      get_variable x st = Some i ->
      pairs (var_array (slot (variables st) i)) = p :: ps ->
      evaluate_expression
        (S (S fuel))
        (Some (mkASTNode l r nb
                 (AST_FUNCTION_CALL "key" (Some (mkASTNode xl None xnb (AST_IDENTIFIER x))))))
        context st
      = Done (Some (RESULT_STRING (key p))) st)
  /\ (forall (a : string) (index : option ASTNode) (st st1 : State)
             (res : EvalResult) (text : string),
         evaluate_expression fuel index EVAL_ARITHMETIC st = Done (Some res) st1 ->
         scalar_text res = Some text ->
         evaluate_expression
           (S (S fuel))
           (Some (mkASTNode l r nb
                    (AST_FUNCTION_CALL "key"
                       (Some (mkASTNode index None xnb (AST_ARRAY_ACCESS a))))))
           context st
         = Done (Some (RESULT_STRING text)) st1).
Proof.
  split.
  - intros x st i p ps Hvar Hp. simpl. unfold execute_function_call_step. simpl.
    unfold kvstdlib_key. simpl.
    unfold bind, read, ret. rewrite Hvar, Hp. reflexivity.
  - intros a index st st1 res text He Ht. simpl. unfold execute_function_call_step. simpl.
    unfold kvstdlib_key. simpl.
    unfold bind at 1. unfold bind at 1. rewrite He. rewrite Ht. reflexivity.
Qed.

End Library.

(** ** Loops *)

Section Statements.

Context {libc : LibC}.

#[local] Arguments get_variable : simpl never.
#[local] Arguments size : simpl never.
#[local] Arguments slot : simpl never.


(** A [for] loop over an expression whose value is a number or a string
    runs its body once, with the loop variable set to the text of the
    value under the empty key. *)
Theorem for_loop_over_a_scalar_runs_once
        (fuel : nat) (loop_var : string) (expression body l r nb : option ASTNode)
        (st st1 st2 : State) (res : EvalResult) (text : string) :
  evaluate_expression fuel expression EVAL_PRINT st = Done (Some res) st1 ->
  scalar_text res = Some text ->
  for_iteration (execute_block fuel) loop_var body (mkPair EmptyString text) st1
  = Done tt st2 ->
  execute_for_statement (S (S (S fuel)))
                        (mkASTNode l r nb (AST_FOR_STATEMENT loop_var expression body)) st
  = Done tt st2.
Proof.
  intros Heval Htext Hiter.
  apply (evaluate_expression_fuel fuel (S (S fuel))) in Heval; [| lia].
  apply (for_iteration_fuel fuel (S fuel)) in Hiter; [| lia].
  change (execute_for_statement (S (S (S fuel))) ?n)
    with (execute_for_statement_step (evaluate_expression (S (S fuel)))
                                     (for_loop (S (S fuel))) n).
  unfold execute_for_statement_step. cbn [node_data].
  rewrite (bind_done _ _ _ _ _ Heval).
  assert (Harray : for_array res
                   = Some (Detached (mkArray [mkPair EmptyString text] 4))).
  { destruct res; simpl in Htext; try discriminate; injection Htext as <-; reflexivity. }
  rewrite Harray.
  change (for_loop (S (S fuel)) ?v ?b ?a ?i)
    with (for_loop_step (execute_block (S fuel)) (for_loop (S fuel)) v b a i).
  unfold for_loop_step. unfold bind at 1. unfold read at 1. cbn [deref pairs nth_error].
  unfold bind at 1. unfold read at 1.
  assert (Hoverlap : copies_onto_itself
                       loop_var (Detached (mkArray [mkPair EmptyString text] 4)) 0 st1
                     = false) by reflexivity.
  rewrite Hoverlap.
  rewrite (bind_done _ _ _ _ _ Hiter).
  reflexivity.
Qed.

End Statements.

(** ** The frame of a call *)

Section Calls.

Context {libc : LibC}.

#[local] Arguments size : simpl never.
#[local] Arguments slot : simpl never.

(** The body of a function does not see the variables of its caller:
    in a function without parameters, [return x] reports that [x] is
    undefined, whatever the caller holds, and the call has the value 0.
    After the call the table of variables is that of the caller, but
    the count is 0, the count in the frame of the function. *)
Theorem function_body_cannot_read_the_variables_of_the_caller
        (fuel : nat) (name x : string)
        (arguments l r nb bl br bnb xl xr xnb : option ASTNode)
        (context : EvalContext) (st : State) (idx : nat) (entry : FunctionEntry) :
  kvstdlib_lookup name = None ->
  find_function name st = Some (idx, entry) ->
  fn_parameters entry = None ->
  fn_body entry
  = Some (mkASTNode bl br bnb
            (AST_RETURN_STATEMENT (Some (mkASTNode xl xr xnb (AST_IDENTIFIER x))))) ->
  scope_depth st < MAX_SCOPES ->
  evaluate_expression (5 + fuel)
                      (Some (mkASTNode l r nb (AST_FUNCTION_CALL name arguments)))
                      context st
  = Done (Some (RESULT_NUMBER Double.zero))
         (mkState (functions st) (variables st) 0 (scope_stack st)
                  (output st
                   ++ [ ("Error: Undefined variable '" +++ x +++ "'")%string;
                        "Error: Failed to evaluate return expression"%string ])).
Proof.
  intros Hbuiltin Hfound Hparams Hbody Hdepth.
  change (5 + fuel) with (S (S (S (S (S fuel))))).
  cbn [evaluate_expression]. unfold evaluate_expression_step. cbn [node_data].
  cbn [execute_function_call]. unfold execute_function_call_step. cbn [node_data].
  rewrite Hbuiltin.
  assert (Hpush : push_scope st
                  = mkState (functions st) (variables st) 0
                            ((variables st, variable_count st) :: scope_stack st)
                            (output st)).
  { unfold push_scope. apply Nat.leb_gt in Hdepth. rewrite Hdepth. reflexivity. }
  unfold bind, read. cbn beta iota. rewrite Hfound. cbn beta iota.
  rewrite Hparams.
  cbn [evaluate_arguments]. unfold evaluate_arguments_step, ret. cbn beta iota.
  unfold call_user_function, bind, modify, try_modify. cbn beta iota.
  rewrite Hpush, Hparams, Hbody. cbn [bind_parameters bind_arguments].
  cbn beta iota.
  cbn [execute_block_with_return]. unfold execute_block_with_return_step, bind.
  cbn [execute_ast_with_return]. unfold execute_ast_with_return_step. cbn [node_data].
  unfold execute_return_statement, bind.
  cbn [evaluate_expression]. unfold evaluate_expression_step. cbn [node_data].
  unfold evaluate_identifier, bind, read, modify, ret.
  cbn.
  rewrite <- app_assoc. reflexivity.
Qed.

End Calls.

(** ** Assignment of arrays *)

Lemma store_appends i k v st :
  let a := var_array (slot (variables st) i) in
  well_formed_array a ->
  ~ In k (keys a) ->
  exists st',
    store i k v st = Some st'
    /\ pairs (var_array (slot (variables st') i)) = pairs a ++ [mkPair k v]
    /\ well_formed_array (var_array (slot (variables st') i))
    /\ var_name (slot (variables st') i) = var_name (slot (variables st) i).
Proof.
  intros a Hwf Hnew.
  destruct (set_assoc_array_value_room a k v Hwf) as (a' & Hset & Hwf').
  exists (set_array i a' st). unfold store. fold a. rewrite Hset.
  split; [reflexivity |]. rewrite array_set_array_eq.
  split; [| split; [exact Hwf' |]].
  - unfold set_assoc_array_value in Hset.
    pose proof (replace_value_keys (pairs a) k v) as Hkeys.
    destruct (replace_value (pairs a) k v) as [ps |].
    + destruct Hkeys as [_ Hex]. apply existsb_exists in Hex.
      destruct Hex as (k' & Hin & Heq). apply String.eqb_eq in Heq. subst k'.
      contradiction.
    + destruct (size a <? _); [| discriminate]. injection Hset as <-. reflexivity.
  - unfold set_array, with_variables. simpl. rewrite slot_set_slot_eq. reflexivity.
Qed.

Lemma copy_pairs_appends i ps :
  forall st,
    well_formed_array (var_array (slot (variables st) i)) ->
    NoDup (keys (var_array (slot (variables st) i)) ++ List.map key ps) ->
    exists st',
      copy_pairs i ps st = Some st'
      /\ pairs (var_array (slot (variables st') i))
         = pairs (var_array (slot (variables st) i)) ++ ps
      /\ (forall j, var_name (slot (variables st') j) = var_name (slot (variables st) j))
      /\ (forall j, j <> i -> slot (variables st') j = slot (variables st) j)
      /\ variable_count st' = variable_count st.
Proof.
  induction ps as [| p ps IH]; intros st Hwf Hnd.
  - exists st. simpl. rewrite app_nil_r. repeat split; reflexivity.
  - simpl in Hnd.
    assert (Hnew : ~ In (key p) (keys (var_array (slot (variables st) i)))).
    { intros Hin. apply NoDup_remove_2 in Hnd. apply Hnd.
      apply in_or_app. left. exact Hin. }
    destruct (store_appends i (key p) (value p) st Hwf Hnew)
      as (st1 & Hstore & Hpairs & Hwf1 & Hname).
    destruct (IH st1 Hwf1) as (st' & Hcopy & Hpairs' & Hnames & Hothers & Hcount).
    { unfold keys. rewrite Hpairs, map_app. simpl. rewrite <- app_assoc. simpl.
      apply NoDup_remove_1 in Hnd as Hnd1.
      apply NoDup_remove_2 in Hnd as Hnd2.
      clear - Hnd1 Hnd2.
      set (l1 := List.map key (pairs (var_array (slot (variables st) i)))) in *.
      set (l2 := List.map key ps) in *.
      revert Hnd1 Hnd2. unfold keys. fold l1.
      induction l1 as [| x l1 IHl]; simpl; intros Hnd1 Hnd2.
      - constructor; assumption.
      - inversion Hnd1 as [| ? ? Hx Hrest]; subst. constructor.
        + rewrite in_app_iff in *. simpl. intros [H | [H | H]].
          * apply Hx. left. exact H.
          * apply Hnd2. left. symmetry. exact H.
          * apply Hx. right. exact H.
        + apply IHl; [exact Hrest |]. intros H. apply Hnd2. right. exact H. }
    exists st'. simpl. rewrite Hstore. split; [exact Hcopy |].
    split; [rewrite Hpairs', Hpairs, <- app_assoc; destruct p; reflexivity |].
    split; [| split].
    + intros j. rewrite Hnames.
      destruct (Nat.eq_dec i j) as [<- | Hne]; [exact Hname |].
      rewrite (store_keeps_others _ _ _ _ _ _ Hstore Hne). reflexivity.
    + intros j Hne. rewrite (Hothers j Hne).
      apply (store_keeps_others _ _ _ _ _ _ Hstore). congruence.
    + rewrite Hcount. apply (store_count _ _ _ _ _ Hstore).
Qed.

(** [set_variable_assoc_array] gives a variable the entries of another
    array, in their order, and leaves that array as it was. *)
Theorem array_assignment_copies_the_entries
        (name : string) (p : ArrayPointer) (st : State) :
  NoDup (keys (deref st p)) ->
  not_the_array_of name p st ->
  (get_variable name st = None -> variable_count st < MAX_VARIABLES) ->
  exists st' i,
    set_variable_assoc_array name p st = Some st'
    /\ get_variable name st' = Some i
    /\ pairs (var_array (slot (variables st') i)) = pairs (deref st p)
    /\ p <> InVariable i
    /\ deref st' p = deref st p.
Proof.
  intros Hnd Hother Hroom. unfold set_variable_assoc_array.
  destruct (get_variable name st) as [i |] eqn:Hvar.
  - assert (Hi := find_variable_bounds _ _ _ _ _ Hvar). destruct Hi as [_ Hi].
    assert (Hsrc : deref (set_array i init_assoc_array st) p = deref st p).
    { destruct p as [j | a]; [| reflexivity]. simpl. destruct Hother as [_ Hj].
      apply array_set_array_ne. congruence. }
    rewrite Hsrc.
    destruct (copy_pairs_appends i (pairs (deref st p)) (set_array i init_assoc_array st))
      as (st' & Hcopy & Hpairs & Hnames & Hothers & Hcount).
    { rewrite array_set_array_eq. unfold well_formed_array, size. simpl. lia. }
    { rewrite array_set_array_eq. exact Hnd. }
    exists st', i. split; [exact Hcopy |].
    split; [| split; [| split]].
    + rewrite <- (get_variable_set_array name i init_assoc_array st) in Hvar.
      rewrite <- Hvar. unfold get_variable. rewrite Hcount.
      apply find_variable_ext. intros j _. apply Hnames.
    + rewrite Hpairs, array_set_array_eq. reflexivity.
    + destruct p as [j | a]; [| discriminate]. destruct Hother as [_ Hj].
      intros [= ->]. congruence.
    + destruct p as [j | a]; [| reflexivity]. simpl. destruct Hother as [_ Hj].
      rewrite Hothers by congruence. apply array_set_array_ne. congruence.
  - specialize (Hroom eq_refl).
    assert (Hfull : (MAX_VARIABLES <=? variable_count st) = false)
      by (apply Nat.leb_gt; exact Hroom).
    rewrite Hfull.
    assert (Hsrc : deref (new_variable name st) p = deref st p).
    { destruct p as [j | a]; [| reflexivity]. simpl. destruct Hother as [Hj _].
      unfold new_variable, with_variables. simpl. rewrite slot_set_slot_ne by lia.
      reflexivity. }
    rewrite Hsrc.
    destruct (copy_pairs_appends (variable_count st) (pairs (deref st p))
                                 (new_variable name st))
      as (st' & Hcopy & Hpairs & Hnames & Hothers & Hcount).
    { rewrite array_new_variable. unfold well_formed_array, size. simpl. lia. }
    { rewrite array_new_variable. exact Hnd. }
    exists st', (variable_count st). split; [exact Hcopy |].
    split; [| split; [| split]].
    + rewrite <- (get_variable_new_variable name st Hvar).
      unfold get_variable. rewrite Hcount.
      apply find_variable_ext. intros j _. apply Hnames.
    + rewrite Hpairs, array_new_variable. reflexivity.
    + destruct p as [j | a]; [| discriminate]. destruct Hother as [Hj _].
      intros [= ->]. lia.
    + destruct p as [j | a]; [| reflexivity]. simpl. destruct Hother as [Hj _].
      rewrite Hothers by lia.
      unfold new_variable, with_variables. simpl. rewrite slot_set_slot_ne by lia.
      reflexivity.
Qed.

Section SelfAssignment.

Context {libc : LibC}.

#[local] Arguments size : simpl never.
#[local] Arguments slot : simpl never.
#[local] Arguments get_variable : simpl never.

(** The assignment [x = x] of a variable with no entry or with several
    leaves [x] empty: the array of [x] is cleared before it is copied
    from itself. *)
Theorem self_assignment_empties_an_array
        (fuel : nat) (x : string) (nb tl tr tnb el er enb : option ASTNode)
        (st : State) (i : nat) :
  get_variable x st = Some i ->
  size (var_array (slot (variables st) i)) <> 1 ->
  execute_ast (S (S (S fuel)))
              (Some (mkASTNode (Some (mkASTNode tl tr tnb (AST_IDENTIFIER x)))
                               (Some (mkASTNode el er enb (AST_IDENTIFIER x)))
                               nb AST_ASSIGNMENT))
              st
  = Done tt (set_array i init_assoc_array st).
Proof.
  intros Hvar Hsize.
  cbn [execute_ast]. unfold execute_ast_step. cbn [node_data].
  unfold execute_assignment. cbn [node_data node_right node_left].
  cbn [evaluate_expression]. unfold evaluate_expression_step. cbn [node_data].
  unfold evaluate_identifier, bind, read. cbn beta iota. rewrite Hvar.
  apply Nat.eqb_neq in Hsize. rewrite Hsize. unfold ret. cbn beta iota.
  unfold try_modify. cbn [set_variable_from_eval_result].
  unfold set_variable_assoc_array. rewrite Hvar.
  cbn [deref]. rewrite array_set_array_eq. reflexivity.
Qed.

End SelfAssignment.

(** ** The lexer *)

Lemma span_append test line run after :
  span test line = (run, after) -> line = (run ++ after)%string.
Proof.
  revert run after. induction line as [| c rest IH]; intros run after; simpl.
  - intros [= <- <-]. reflexivity.
  - destruct (test c).
    + destruct (span test rest) as [run' after']. intros [= <- <-].
      simpl. f_equal. apply IH. reflexivity.
    + intros [= <- <-]. reflexivity.
Qed.

Lemma string_length_append (a b : string) :
  String.length (a ++ b) = String.length a + String.length b.
Proof. induction a as [| c a IH]; simpl; [reflexivity | rewrite IH; reflexivity]. Qed.

Lemma span_length test line run after :
  span test line = (run, after) ->
  String.length line = String.length run + String.length after.
Proof.
  intros H. rewrite (span_append _ _ _ _ H) at 1. apply string_length_append.
Qed.

Lemma span_first test c rest run after :
  test c = true -> span test (String c rest) = (run, after) ->
  exists run', run = String c run' /\ span test rest = (run', after).
Proof.
  intros Hc. simpl. rewrite Hc. destruct (span test rest) as [run' after'].
  intros [= <- <-]. exists run'. split; reflexivity.
Qed.

Lemma span_forall test line run after :
  span test line = (run, after) -> string_forall test run = true.
Proof.
  revert run after. induction line as [| c rest IH]; intros run after; simpl.
  - intros [= <- <-]. reflexivity.
  - destruct (test c) eqn:Hc.
    + destruct (span test rest) as [run' after'] eqn:E. intros [= <- <-].
      simpl. rewrite Hc. simpl. eapply IH. reflexivity.
    + intros [= <- <-]. reflexivity.
Qed.

Lemma span_stops test s c rest :
  test c = false ->
  span test (s ++ String c rest)
  = (fst (span test s), (snd (span test s) ++ String c rest)%string).
Proof.
  intros Hc. induction s as [| c' s IH]; simpl.
  - rewrite Hc. reflexivity.
  - destruct (test c').
    + rewrite IH. destruct (span test s). reflexivity.
    + reflexivity.
Qed.

Lemma string_forall_append test a b :
  string_forall test (a ++ b) = string_forall test a && string_forall test b.
Proof.
  induction a as [| c a IH]; simpl; [reflexivity |].
  rewrite IH. apply andb_assoc.
Qed.

Lemma substring_length_le n s : String.length (substring 0 n s) <= n.
Proof.
  revert s. induction n as [| n IH]; intros [| c s]; simpl; try lia.
  specialize (IH s). lia.
Qed.

Lemma emit_done capacity tokens type text continue :
  String.length text < MAX_TOKEN_LENGTH -> List.length tokens < capacity ->
  emit capacity tokens type text continue = continue (tokens ++ [mkToken type text]).
Proof.
  intros Htext Hroom. unfold emit.
  apply Nat.leb_gt in Htext. apply Nat.leb_gt in Hroom. rewrite Htext, Hroom.
  reflexivity.
Qed.

Lemma tokenize_from_short capacity :
  forall fuel line tokens st,
    String.length line < fuel ->
    String.length line < MAX_TOKEN_LENGTH ->
    List.length tokens + String.length line <= capacity ->
    exists ts st',
      tokenize_from fuel capacity line tokens st = Done ts st'
      /\ List.length ts <= List.length tokens + String.length line
      /\ frame st' = frame st.
Proof.
  induction fuel as [| fuel IH]; intros line tokens st Hfuel Hshort Hroom; [lia |].
  destruct line as [| c rest].
  - exists tokens, st. simpl. repeat split. lia.
  - cbn [tokenize_from]. cbn [String.length] in *.
    assert (Hnext : forall text after type st0,
               frame st0 = frame st ->
               String.length text + String.length after <= S (String.length rest) ->
               0 < S (String.length rest) - String.length after ->
               exists ts st',
                 emit capacity tokens type text (tokenize_from fuel capacity after) st0
                 = Done ts st'
                 /\ List.length ts <= List.length tokens + S (String.length rest)
                 /\ frame st' = frame st).
    { intros text after type st0 Hframe Hlen Hprogress.
      rewrite emit_done by lia.
      destruct (IH after (tokens ++ [mkToken type text]) st0) as (ts & st' & H & Hts & Hf).
      - lia.
      - lia.
      - rewrite length_app. simpl. lia.
      - exists ts, st'. split; [exact H |]. rewrite length_app in Hts. simpl in Hts.
        split; [lia | congruence]. }
    assert (Hskip : forall after st0,
               frame st0 = frame st ->
               String.length after <= String.length rest ->
               exists ts st',
                 tokenize_from fuel capacity after tokens st0 = Done ts st'
                 /\ List.length ts <= List.length tokens + S (String.length rest)
                 /\ frame st' = frame st).
    { intros after st0 Hframe Hlen.
      destruct (IH after tokens st0) as (ts & st' & H & Hts & Hf); try lia.
      exists ts, st'. split; [exact H |]. split; [lia | congruence]. }
    destruct (isspace c); [apply Hskip; [reflexivity | lia] |].
    destruct (Ascii.eqb c "#").
    { rewrite emit_done.
      - eexists. eexists. split; [reflexivity |]. rewrite length_app. simpl.
        split; [lia | reflexivity].
      - pose proof (substring_length_le (MAX_TOKEN_LENGTH - 1) (String c rest)).
        unfold MAX_TOKEN_LENGTH in *. lia.
      - lia. }
    destruct (Ascii.eqb c double_quote || Ascii.eqb c "'").
    { destruct (span (fun x => negb (Ascii.eqb x c)) rest) as [text after] eqn:E.
      apply span_length in E. destruct after as [| q after'].
      - eexists. eexists. split; [reflexivity |]. split; [lia | reflexivity].
      - simpl in E. apply Hnext; [reflexivity | lia | lia]. }
    destruct (isdigit c) eqn:Hdigit.
    { destruct (span isdigit (String c rest)) as [text after] eqn:E.
      destruct (span_first _ _ _ _ _ Hdigit E) as (run' & -> & E').
      apply span_length in E'. simpl. apply Hnext; [reflexivity | simpl; lia | lia]. }
    destruct (isalpha c || Ascii.eqb c "_") eqn:Halpha.
    { destruct (span (fun x => isalnum x || Ascii.eqb x "_") (String c rest))
        as [text after] eqn:E.
      assert (Hc : (fun x => isalnum x || Ascii.eqb x "_") c = true).
      { unfold isalnum. apply orb_true_iff in Halpha. destruct Halpha as [-> | ->].
        - reflexivity.
        - apply orb_true_r. }
      destruct (span_first _ _ _ _ _ Hc E) as (run' & -> & E').
      apply span_length in E'. apply Hnext; [reflexivity | simpl; lia | lia]. }
    destruct (is_operator_char c) eqn:Hop.
    { destruct (span is_operator_char (String c rest)) as [text after] eqn:E.
      destruct (span_first _ _ _ _ _ Hop E) as (run' & -> & E').
      apply span_length in E'.
      assert (Hlen : (MAX_TOKEN_LENGTH <=? String.length (String c run')) = false).
      { apply Nat.leb_gt. simpl. lia. }
      rewrite Hlen. destruct (is_operator (String c run')).
      - apply Hnext; [reflexivity | simpl; lia | lia].
      - unfold bind, modify. apply Hskip; [reflexivity | lia]. }
    destruct (is_delimiter_char c).
    { apply Hnext; [reflexivity | simpl; lia | lia]. }
    unfold bind, modify. apply Hskip; [reflexivity | lia].
Qed.

(** A line of fewer than [MAX_TOKEN_LENGTH] characters, and of no more
    characters than the array of tokens has cells, is always tokenized:
    no buffer overflows.  There are at most as many tokens as
    characters, and only the output can change. *)
Theorem short_lines_are_tokenized_within_bounds
        (capacity : nat) (line : string) (st : State) :
  String.length line < MAX_TOKEN_LENGTH ->
  String.length line <= capacity ->
  exists tokens st',
    tokenize_line capacity line st = Done tokens st'
    /\ List.length tokens <= String.length line
    /\ frame st' = frame st.
Proof.
  intros Hshort Hroom. unfold tokenize_line.
  destruct (tokenize_from_short capacity (S (String.length line)) line [] st)
    as (ts & st' & H & Hts & Hf); try lia.
  - simpl. exact Hroom.
  - exists ts, st'. split; [exact H |]. simpl in Hts. split; [exact Hts | exact Hf].
Qed.

Lemma emit_inv capacity tokens type text continue st ts st' :
  emit capacity tokens type text continue st = Done ts st' ->
  String.length text < MAX_TOKEN_LENGTH
  /\ continue (tokens ++ [mkToken type text]) st = Done ts st'.
Proof.
  unfold emit.
  destruct (Nat.leb_spec MAX_TOKEN_LENGTH (String.length text)) as [Hlong | Hshort];
    [discriminate |].
  destruct (capacity <=? List.length tokens); [discriminate |].
  intros Hdone. split; assumption.
Qed.

Lemma forallb_snoc {A : Type} (f : A -> bool) (l : list A) (a : A) :
  forallb f l = true -> f a = true -> forallb f (l ++ [a]) = true.
Proof. intros Hl Ha. rewrite forallb_app, Hl. simpl. rewrite Ha. reflexivity. Qed.

Lemma tokenize_from_well_formed capacity :
  forall fuel line tokens st ts st',
    forallb well_formed_token tokens = true ->
    tokenize_from fuel capacity line tokens st = Done ts st' ->
    forallb well_formed_token ts = true.
Proof.
  induction fuel as [| fuel IH]; intros line tokens st ts st' Hwf H; [discriminate |].
  destruct line as [| c rest]; [injection H as <- _; exact Hwf |].
  cbn [tokenize_from] in H.
  assert (Hnext : forall text after type,
             (String.length text < MAX_TOKEN_LENGTH ->
              well_formed_token (mkToken type text) = true) ->
             emit capacity tokens type text (tokenize_from fuel capacity after) st
             = Done ts st' ->
             forallb well_formed_token ts = true).
  { intros text after type Hok He. apply emit_inv in He. destruct He as [Hlen He].
    eapply IH; [| exact He]. apply forallb_snoc; [exact Hwf | exact (Hok Hlen)]. }
  assert (Hlt : forall text (b : bool),
             String.length text < MAX_TOKEN_LENGTH -> b = true ->
             (String.length text <? MAX_TOKEN_LENGTH) && b = true).
  { intros text b Hlen ->. apply Nat.ltb_lt in Hlen. rewrite Hlen. reflexivity. }
  destruct (isspace c); [eapply IH; eassumption |].
  destruct (Ascii.eqb c "#") eqn:Hhash.
  { apply emit_inv in H. destruct H as [Hlen H]. injection H as <- _.
    apply forallb_snoc; [exact Hwf |]. unfold well_formed_token.
    apply Hlt; [exact Hlen |]. simpl. exact Hhash. }
  destruct (Ascii.eqb c double_quote || Ascii.eqb c "'").
  { destruct (span (fun x => negb (Ascii.eqb x c)) rest) as [text after] eqn:E.
    destruct after as [| q after'].
    - unfold bind, modify, ret in H. injection H as <- _. exact Hwf.
    - eapply Hnext; [| exact H]. intros Hlen. unfold well_formed_token.
      apply Hlt; [exact Hlen | reflexivity]. }
  destruct (isdigit c) eqn:Hdigit.
  { destruct (span isdigit (String c rest)) as [text after] eqn:E.
    eapply Hnext; [| exact H]. intros Hlen. unfold well_formed_token.
    apply Hlt; [exact Hlen |]. cbn [token_type token_value].
    rewrite (span_forall _ _ _ _ E).
    destruct (span_first _ _ _ _ _ Hdigit E) as (run' & -> & _). reflexivity. }
  destruct (isalpha c || Ascii.eqb c "_") eqn:Halpha.
  { destruct (span (fun x => isalnum x || Ascii.eqb x "_") (String c rest))
      as [text after] eqn:E.
    eapply Hnext; [| exact H]. intros Hlen. unfold well_formed_token.
    apply Hlt; [exact Hlen |].
    assert (Hc : (fun x => isalnum x || Ascii.eqb x "_") c = true).
    { unfold isalnum. apply orb_true_iff in Halpha. destruct Halpha as [-> | ->].
      - reflexivity.
      - apply orb_true_r. }
    destruct (is_keyword text) eqn:Hkey; cbn [token_type token_value].
    - exact Hkey.
    - rewrite (span_forall _ _ _ _ E), Hkey.
      destruct (span_first _ _ _ _ _ Hc E) as (run' & -> & _).
      rewrite Halpha. reflexivity. }
  destruct (is_operator_char c).
  { destruct (span is_operator_char (String c rest)) as [text after] eqn:E.
    destruct (MAX_TOKEN_LENGTH <=? String.length text); [discriminate |].
    destruct (is_operator text) eqn:Hop.
    - eapply Hnext; [| exact H]. intros Hlen. unfold well_formed_token.
      apply Hlt; [exact Hlen | exact Hop].
    - unfold bind, modify in H. eapply IH; eassumption. }
  destruct (is_delimiter_char c) eqn:Hdelim.
  { eapply Hnext; [| exact H]. intros Hlen. unfold well_formed_token.
    apply Hlt; [exact Hlen | exact Hdelim]. }
  unfold bind, modify in H. eapply IH; eassumption.
Qed.

(** Every token that the lexer returns fits its buffer and has the
    form of its type: a number is a sequence of digits that is not
    empty, an identifier starts with a letter or an underscore and is
    no keyword, a keyword and an operator are in their tables, a
    delimiter is a single character and a comment starts with [#].  No
    token has the type [TOKEN_EOF] or [TOKEN_UNKNOWN]. *)
Theorem tokens_are_well_formed
        (capacity : nat) (line : string) (st st' : State) (tokens : list Token) :
  tokenize_line capacity line st = Done tokens st' ->
  forallb well_formed_token tokens = true.
Proof. apply tokenize_from_well_formed. reflexivity. Qed.

Lemma span_forall_after test P line run after :
  span test line = (run, after) -> string_forall P line = true ->
  string_forall P after = true.
Proof.
  intros E H. rewrite (span_append _ _ _ _ E), string_forall_append in H.
  apply andb_true_iff in H. tauto.
Qed.

Lemma bind_emit {B : Type} capacity tokens type text continue (k : list Token -> M B) st :
  bind (emit capacity tokens type text continue) k st
  = (if (MAX_TOKEN_LENGTH <=? String.length text) || (capacity <=? List.length tokens)
     then Undefined
     else bind (continue (tokens ++ [mkToken type text])) k st).
Proof.
  unfold emit, bind.
  destruct ((MAX_TOKEN_LENGTH <=? String.length text) || (capacity <=? List.length tokens));
    reflexivity.
Qed.

Lemma emit_unfold capacity tokens type text continue st :
  emit capacity tokens type text continue st
  = (if (MAX_TOKEN_LENGTH <=? String.length text) || (capacity <=? List.length tokens)
     then Undefined
     else continue (tokens ++ [mkToken type text]) st).
Proof.
  unfold emit.
  destruct ((MAX_TOKEN_LENGTH <=? String.length text) || (capacity <=? List.length tokens));
    reflexivity.
Qed.

Ltac emit_cases :=
  rewrite emit_unfold, bind_emit;
  match goal with
  | |- (if ?b then _ else _) = _ => destruct b; [reflexivity |]
  end.

Lemma tokenize_from_before_comment capacity rest :
  forall n s tokens st f1 f2,
    String.length s < n ->
    String.length s + S (String.length rest) < f1 ->
    String.length s < f2 ->
    string_forall outside_literals_and_comments s = true ->
    tokenize_from f1 capacity (s ++ String "#" rest) tokens st
    = bind (tokenize_from f2 capacity s tokens)
           (fun ts => emit capacity ts TOKEN_COMMENT
                           (substring 0 (MAX_TOKEN_LENGTH - 1) (String "#" rest)) ret)
           st.
Proof.
  induction n as [| n IH]; intros s tokens st f1 f2 Hn Hf1 Hf2 Hs; [lia |].
  destruct f1 as [| f1]; [lia |]. destruct f2 as [| f2]; [lia |].
  destruct s as [| c s].
  - reflexivity.
  - cbn [String.append tokenize_from]. cbn [String.length] in *.
    cbn [string_forall] in Hs. apply andb_true_iff in Hs. destruct Hs as [Hc Hs].
    unfold outside_literals_and_comments in Hc. apply negb_true_iff in Hc.
    apply orb_false_iff in Hc. destruct Hc as [Hc Hq1].
    apply orb_false_iff in Hc. destruct Hc as [Hhash Hq2].
    assert (Hrec : forall after toks st0,
               String.length after <= String.length s ->
               string_forall outside_literals_and_comments after = true ->
               tokenize_from f1 capacity (after ++ String "#" rest) toks st0
               = bind (tokenize_from f2 capacity after toks)
                      (fun ts => emit capacity ts TOKEN_COMMENT
                                      (substring 0 (MAX_TOKEN_LENGTH - 1) (String "#" rest))
                                      ret)
                      st0).
    { intros after toks st0 Hlen Hafter. apply IH; [lia | lia | lia | exact Hafter]. }
    destruct (isspace c); [apply Hrec; [lia | exact Hs] |].
    rewrite Hhash, Hq2, Hq1. cbn [orb].
    assert (Hspan : forall test text after,
               test "#"%char = false ->
               span test (String c s) = (text, after) ->
               span test (String c (s ++ String "#" rest))
               = (text, (after ++ String "#" rest)%string)
               /\ (test c = true -> String.length after <= String.length s)
               /\ string_forall outside_literals_and_comments after = true).
    { intros test text after Htest E.
      change (String c (s ++ String "#" rest)) with (String c s ++ String "#" rest)%string.
      rewrite (span_stops test (String c s) "#" rest Htest), E. split; [reflexivity |].
      split.
      - intros Hfirst. destruct (span_first _ _ _ _ _ Hfirst E) as (run' & -> & E').
        apply span_length in E'. lia.
      - apply (span_forall_after _ _ _ _ _ E). cbn [string_forall].
        unfold outside_literals_and_comments at 1. rewrite Hhash, Hq2, Hq1. exact Hs. }
    destruct (isdigit c) eqn:Hdigit.
    { destruct (span isdigit (String c s)) as [text after] eqn:E.
      destruct (Hspan isdigit text after eq_refl E) as (-> & Hlen & Hafter).
      emit_cases. apply Hrec; [exact (Hlen Hdigit) | exact Hafter]. }
    destruct (isalpha c || Ascii.eqb c "_") eqn:Halpha.
    { destruct (span (fun x => isalnum x || Ascii.eqb x "_") (String c s))
        as [text after] eqn:E.
      assert (Hfirst : (fun x => isalnum x || Ascii.eqb x "_") c = true).
      { unfold isalnum. apply orb_true_iff in Halpha. destruct Halpha as [-> | ->].
        - reflexivity.
        - apply orb_true_r. }
      destruct (Hspan _ text after eq_refl E) as (-> & Hlen & Hafter).
      emit_cases. apply Hrec; [exact (Hlen Hfirst) | exact Hafter]. }
    destruct (is_operator_char c) eqn:Hop.
    { destruct (span is_operator_char (String c s)) as [text after] eqn:E.
      destruct (Hspan is_operator_char text after eq_refl E) as (-> & Hlen & Hafter).
      destruct (MAX_TOKEN_LENGTH <=? String.length text); [reflexivity |].
      destruct (is_operator text).
      - emit_cases. apply Hrec; [exact (Hlen Hop) | exact Hafter].
      - rewrite bind_assoc. unfold bind at 1. unfold modify at 1.
        unfold bind at 2. unfold modify at 1.
        apply Hrec; [exact (Hlen Hop) | exact Hafter]. }
    destruct (is_delimiter_char c).
    { emit_cases. apply Hrec; [lia | exact Hs]. }
    rewrite bind_assoc. unfold bind at 1. unfold modify at 1.
    unfold bind at 2. unfold modify at 1.
    apply Hrec; [lia | exact Hs].
Qed.

(** A [#] that no quote precedes starts a comment that extends to the
    end of the text, across the ends of the lines: the tokens are those
    of the text before it, followed by one token with the comment, cut
    to [MAX_TOKEN_LENGTH - 1] characters. *)
Theorem a_comment_ends_the_tokenization
        (capacity : nat) (s rest : string) (st : State) :
  string_forall outside_literals_and_comments s = true ->
  tokenize_line capacity (s ++ String "#" rest) st
  = bind (tokenize_line capacity s)
         (fun tokens =>
            emit capacity tokens TOKEN_COMMENT
                 (substring 0 (MAX_TOKEN_LENGTH - 1) (String "#" rest)) ret)
         st.
Proof.
  intros Hs. unfold tokenize_line.
  apply (tokenize_from_before_comment capacity rest (S (String.length s))).
  - lia.
  - rewrite string_length_append. simpl. lia.
  - lia.
  - exact Hs.
Qed.

Lemma delimiter_branch c :
  delimiter_character c = true ->
  isspace c = false /\ Ascii.eqb c "#" = false
  /\ Ascii.eqb c double_quote || Ascii.eqb c "'" = false
  /\ isdigit c = false /\ isalpha c || Ascii.eqb c "_" = false
  /\ is_operator_char c = false /\ is_delimiter_char c = true.
Proof.
  unfold delimiter_character, is_delimiter_char, delimiters. cbn [strchr].
  intros H. apply andb_true_iff in H. destruct H as [H Hz].
  apply negb_true_iff in Hz. rewrite Hz in H. rewrite !orb_false_r in H.
  repeat (apply orb_true_iff in H; destruct H as [H | H]);
    apply Ascii.eqb_eq in H; subst c; repeat split; reflexivity.
Qed.

Lemma tokenize_from_overflow capacity :
  forall line fuel tokens st,
    string_forall delimiter_character line = true ->
    String.length line < fuel ->
    List.length tokens <= capacity ->
    capacity < List.length tokens + String.length line ->
    tokenize_from fuel capacity line tokens st = Undefined.
Proof.
  induction line as [| c rest IH]; intros fuel tokens st Hall Hfuel Hfit Hover.
  - simpl in Hover. lia.
  - destruct fuel as [| fuel]; [lia |]. cbn [tokenize_from].
    cbn [string_forall] in Hall. apply andb_true_iff in Hall. destruct Hall as [Hc Hall].
    destruct (delimiter_branch c Hc) as (-> & -> & -> & -> & -> & -> & ->).
    rewrite emit_unfold.
    assert (Hone : (MAX_TOKEN_LENGTH <=? String.length (String c EmptyString)) = false)
      by reflexivity.
    rewrite Hone. cbn [orb].
    destruct (Nat.leb_spec capacity (List.length tokens)) as [Hfull | Hroom];
      [reflexivity |].
    apply IH.
    + exact Hall.
    + simpl in Hfuel. lia.
    + rewrite length_app. simpl. lia.
    + rewrite length_app. simpl in *. lia.
Qed.

(** The lexer does not check the number of tokens: a line of more
    delimiters than the array of the caller has cells writes beyond the
    array. *)
Theorem too_many_tokens_overflow_the_array
        (capacity : nat) (line : string) (st : State) :
  string_forall delimiter_character line = true ->
  capacity < String.length line ->
  tokenize_line capacity line st = Undefined.
Proof.
  intros Hall Hover. unfold tokenize_line. apply tokenize_from_overflow.
  - exact Hall.
  - lia.
  - simpl. lia.
  - simpl. exact Hover.
Qed.

(** ** The table of functions *)

Lemma find_function_app name fs fs' out vars count stack :
  find_function name (mkState (fs ++ fs') vars count stack out)
  = match find_function name (mkState fs vars count stack out) with
    | Some found => Some found
    | None =>
        match find_function name (mkState fs' vars count stack out) with
        | Some (i, f) => Some (List.length fs + i, f)
        | None => None
        end
    end.
Proof.
  unfold find_function. simpl.
  set (search := fix search (fs0 : list FunctionEntry) (i : nat) {struct fs0} :=
         match fs0 with
         | [] => None
         | f :: fs'0 =>
             if String.eqb (fn_name f) name then Some (i, f) else search fs'0 (S i)
         end).
  assert (Hshift : forall l i j,
             search l (i + j)
             = match search l j with
               | Some (k, f) => Some (i + k, f)
               | None => None
               end).
  { induction l as [| f l IH]; intros i j; simpl; [reflexivity |].
    destruct (String.eqb (fn_name f) name); [reflexivity |].
    replace (S (i + j)) with (i + S j) by lia. apply IH. }
  assert (Happ : forall l i,
             search (l ++ fs') i
             = match search l i with
               | Some found => Some found
               | None => search fs' (List.length l + i)
               end).
  { induction l as [| f l IH]; intros i; simpl; [reflexivity |].
    destruct (String.eqb (fn_name f) name); [reflexivity |].
    rewrite IH. replace (List.length l + S i) with (S (List.length l + i)) by lia.
    reflexivity. }
  rewrite Happ. destruct (search fs 0); [reflexivity |].
  rewrite Hshift. destruct (search fs' 0) as [[k f] |]; reflexivity.
Qed.

(** A function cannot be redefined.  The definition of a name that is
    already in the table does not change what [find_function] finds for
    it; a new name is found with its definition if the table has room,
    and otherwise only the error is reported.  No other name is
    affected. *)
Theorem the_first_definition_of_a_function_wins (entry : FunctionEntry) (st : State) :
  match find_function (fn_name entry) st with
  | Some found => find_function (fn_name entry) (register_function entry st) = Some found
  | None =>
      if function_count st <? MAX_FUNCTIONS
      then find_function (fn_name entry) (register_function entry st)
           = Some (function_count st, entry)
      else register_function entry st = printf "Error: Too many functions defined" st
  end
  /\ forall other,
       other <> fn_name entry ->
       find_function other (register_function entry st) = find_function other st.
Proof.
  destruct st as [fs vars count stack out].
  unfold register_function, function_count. cbn [functions].
  assert (Hsame : forall name line,
             find_function name (printf line (mkState fs vars count stack out))
             = find_function name (mkState fs vars count stack out)) by reflexivity.
  split.
  - destruct (find_function (fn_name entry) (mkState fs vars count stack out))
      as [found |] eqn:Hfind.
    + destruct (List.length fs <? MAX_FUNCTIONS).
      * cbn [variables variable_count scope_stack output].
        rewrite find_function_app, Hfind. reflexivity.
      * rewrite Hsame. exact Hfind.
    + destruct (List.length fs <? MAX_FUNCTIONS); [| reflexivity].
      cbn [variables variable_count scope_stack output].
      rewrite find_function_app, Hfind. unfold find_function. simpl.
      rewrite String.eqb_refl. rewrite Nat.add_0_r. reflexivity.
  - intros other Hother.
    destruct (List.length fs <? MAX_FUNCTIONS); [| apply Hsame].
    cbn [variables variable_count scope_stack output].
    rewrite find_function_app.
    destruct (find_function other (mkState fs vars count stack out)); [reflexivity |].
    unfold find_function. simpl.
    destruct (String.eqb (fn_name entry) other) eqn:E; [| reflexivity].
    apply String.eqb_eq in E. congruence.
Qed.

(** ** Comments *)

Lemma tokenize_from_spaces capacity :
  forall ws fuel tokens st,
    string_forall isspace ws = true -> String.length ws < fuel ->
    tokenize_from fuel capacity ws tokens st = Done tokens st.
Proof.
  induction ws as [| c ws IH]; intros fuel tokens st Hws Hfuel;
    (destruct fuel as [| fuel]; [simpl in Hfuel; lia |]).
  - reflexivity.
  - cbn [tokenize_from]. cbn [string_forall] in Hws.
    apply andb_true_iff in Hws. destruct Hws as [-> Hws].
    apply IH; [exact Hws | simpl in Hfuel; lia].
Qed.

Lemma spaces_outside_literals ws :
  string_forall isspace ws = true ->
  string_forall outside_literals_and_comments ws = true.
Proof.
  induction ws as [| c ws IH]; [reflexivity |]. cbn [string_forall].
  intros H. apply andb_true_iff in H. destruct H as [Hc Hws].
  rewrite (IH Hws), andb_true_r.
  unfold outside_literals_and_comments.
  destruct (Ascii.eqb_spec c "#") as [-> | _]; [discriminate Hc |].
  destruct (Ascii.eqb_spec c double_quote) as [-> | _]; [discriminate Hc |].
  destruct (Ascii.eqb_spec c "'") as [-> | _]; [discriminate Hc |].
  reflexivity.
Qed.

Section Scripts.

Context {libc : LibC}.

(** A script whose first token is a comment executes nothing: the
    comment takes the rest of the file, no statement starts with a
    comment, and the one line written is the error with the text of the
    comment. *)
Theorem a_script_that_starts_with_a_comment_only_reports_an_error
        (fuel : nat) (ws rest : string) (st : State) :
  string_forall isspace ws = true ->
  String.length (ws ++ String "#" rest) < MAX_LINE_LENGTH * 1000 ->
  run_script (S (S (S fuel))) (ws ++ String "#" rest) st
  = Done tt (printf ("Error: Unrecognized statement starting with '"
                     +++ substring 0 (MAX_TOKEN_LENGTH - 1) (String "#" rest) +++ "'")
                    st).
Proof.
  intros Hws Hlen. unfold run_script.
  apply Nat.leb_gt in Hlen. rewrite Hlen.
  unfold bind at 1.
  assert (Hcomment :
            tokenize_line (MAX_TOKENS * 100) (ws ++ String "#" rest) st
            = bind (tokenize_line (MAX_TOKENS * 100) ws)
                   (fun tokens =>
                      emit (MAX_TOKENS * 100) tokens TOKEN_COMMENT
                           (substring 0 (MAX_TOKEN_LENGTH - 1) (String "#" rest)) ret)
                   st).
  { unfold tokenize_line.
    apply (tokenize_from_before_comment _ rest (S (String.length ws)));
      [lia | rewrite string_length_append; simpl; lia | lia
       | exact (spaces_outside_literals ws Hws)]. }
  rewrite Hcomment.
  unfold bind at 1. unfold tokenize_line.
  rewrite (tokenize_from_spaces _ ws _ [] st Hws) by lia.
  rewrite emit_unfold.
  assert (Hfit : (MAX_TOKEN_LENGTH
                  <=? String.length (substring 0 (MAX_TOKEN_LENGTH - 1) (String "#" rest)))
                 = false).
  { apply Nat.leb_gt.
    pose proof (substring_length_le (MAX_TOKEN_LENGTH - 1) (String "#" rest)).
    unfold MAX_TOKEN_LENGTH in *. lia. }
  rewrite Hfit.
  assert (Hroom : (MAX_TOKENS * 100 <=? @List.length Token []) = false) by reflexivity.
  rewrite Hroom. cbn [orb app ret].
  set (text := substring 0 (MAX_TOKEN_LENGTH - 1) (String "#" rest)).
  cbn [parse_and_execute List.length Nat.ltb Nat.leb].
  cbn [parse_statement]. unfold parse_statement_step. cbn [nth_error].
  reflexivity.
Qed.

End Scripts.

(** ** Empty blocks *)

Lemma parse_parameters_names names :
  forall rest pos params,
    parse_parameters (parameter_tokens names ++ mkToken TOKEN_DELIMITER ")" :: rest)
                     pos params
    = (Some (params ++ names), pos + List.length (parameter_tokens names)).
Proof.
  induction names as [| name names IH]; intros rest pos params.
  - simpl. rewrite app_nil_r, Nat.add_0_r. reflexivity.
  - destruct names as [| name' names].
    + simpl. rewrite Nat.add_1_r. reflexivity.
    + change (parameter_tokens (name :: name' :: names))
        with (mkToken TOKEN_IDENTIFIER name :: mkToken TOKEN_DELIMITER ","
              :: parameter_tokens (name' :: names)).
      cbn [app parse_parameters token_type token_value TokenType_eqb first_char
           Ascii.eqb andb Bool.eqb].
      rewrite IH. rewrite <- app_assoc. cbn [List.length app].
      f_equal. lia.
Qed.

(** A function definition with an empty body does not parse, whatever
    its name and parameters are: two errors are reported, the function
    is not registered, and the position is left at the [end]. *)
Theorem a_function_with_an_empty_body_is_rejected
        (fuel : nat) (name : string) (names : list string) (rest : list Token)
        (st : State) :
  parse_statement
    (S (S (S (S fuel))))
    (mkToken TOKEN_KEYWORD "def" :: mkToken TOKEN_IDENTIFIER name
     :: mkToken TOKEN_DELIMITER "("
     :: parameter_tokens names
        ++ mkToken TOKEN_DELIMITER ")" :: mkToken TOKEN_KEYWORD "end" :: rest)
    0 st
  = Done (None, 4 + List.length (parameter_tokens names))
         (printf "Error: Unrecognized statement starting with 'end'"
                 (printf "Error: Expected block after function definition" st)).
Proof.
  set (n := List.length (parameter_tokens names)).
  set (closing := mkToken TOKEN_DELIMITER ")" :: mkToken TOKEN_KEYWORD "end" :: rest).
  set (tokens := mkToken TOKEN_KEYWORD "def" :: mkToken TOKEN_IDENTIFIER name
                 :: mkToken TOKEN_DELIMITER "(" :: parameter_tokens names ++ closing).
  assert (Hat : forall i, nth_error tokens (S (S (S (n + i)))) = nth_error closing i).
  { intros i. unfold tokens. cbn [nth_error].
    rewrite nth_error_app2 by (fold n; lia). f_equal. fold n. lia. }
  assert (Hclose : nth_error tokens (S (S (S n))) = Some (mkToken TOKEN_DELIMITER ")")).
  { rewrite <- (Nat.add_0_r n). rewrite Hat. reflexivity. }
  assert (Hend : nth_error tokens (S (S (S (S n)))) = Some (mkToken TOKEN_KEYWORD "end")).
  { rewrite <- (Nat.add_1_r n). rewrite Hat. reflexivity. }
  cbn [parse_statement]. unfold parse_statement_step.
  assert (H0 : nth_error tokens 0 = Some (mkToken TOKEN_KEYWORD "def")) by reflexivity.
  rewrite H0. cbn [first_success].
  assert (Hfor : parse_for_statement (S (S (S fuel))) tokens 0 st = Done (None, 0) st)
    by reflexivity.
  rewrite (bind_done _ _ _ _ _ Hfor). cbn [fst snd].
  assert (Hif : parse_if_statement (S (S (S fuel))) tokens 0 st = Done (None, 0) st)
    by reflexivity.
  rewrite (bind_done _ _ _ _ _ Hif). cbn [fst snd].
  assert (Hwhile : parse_while_statement (S (S (S fuel))) tokens 0 st = Done (None, 0) st)
    by reflexivity.
  rewrite (bind_done _ _ _ _ _ Hwhile). cbn [fst snd].
  assert (Hdef : parse_function_definition (S (S (S fuel))) tokens 0 st
                 = Done (None, S (S (S (S n))))
                        (printf "Error: Expected block after function definition" st)).
  { cbn [parse_function_definition]. unfold parse_function_definition_step.
    assert (Hkw : keyword_at tokens 0 "def" = true) by reflexivity.
    rewrite Hkw.
    assert (H1 : nth_error tokens 1 = Some (mkToken TOKEN_IDENTIFIER name)) by reflexivity.
    rewrite H1. cbn [token_type token_value TokenType_eqb].
    assert (Hopen : delimiter_at tokens 2 "(" = true) by reflexivity.
    rewrite Hopen.
    assert (Hskip : skipn 3 tokens = parameter_tokens names ++ closing) by reflexivity.
    rewrite Hskip. unfold closing. rewrite parse_parameters_names. fold closing.
    cbn [fst snd app Nat.add]. fold n.
    assert (Hparen : delimiter_at tokens (S (S (S n))) ")" = true).
    { unfold delimiter_at, token_is. rewrite Hclose. reflexivity. }
    rewrite Hparen.
    assert (Hblock : parse_block (S (S fuel)) tokens (S (S (S (S n)))) st
                     = Done (None, S (S (S (S n)))) st).
    { cbn [parse_block parse_block_loop]. unfold parse_block_loop_step.
      rewrite Hend. reflexivity. }
    rewrite (bind_done _ _ _ _ _ Hblock). reflexivity. }
  rewrite (bind_done _ _ _ _ _ Hdef). cbn [fst snd].
  set (st1 := printf "Error: Expected block after function definition" st).
  assert (Hkw : forall k, k <> "end"%string -> keyword_at tokens (S (S (S (S n)))) k = false).
  { intros k Hk. unfold keyword_at, token_is. rewrite Hend.
    cbn [token_type token_value TokenType_eqb andb].
    apply String.eqb_neq. congruence. }
  set (pos := S (S (S (S n)))) in *.
  assert (Hret : forall expression,
             parse_return_statement_step tokens expression pos st1 = Done (None, pos) st1).
  { intros expression. unfold parse_return_statement_step.
    rewrite (Hkw "return"%string) by discriminate. reflexivity. }
  rewrite (bind_done _ _ _ _ _ (Hret _)). cbn [fst snd].
  assert (Hcall : forall arguments,
             parse_function_call_step tokens arguments pos st1 = Done (None, pos) st1).
  { intros arguments. unfold parse_function_call_step, token_at, bind.
    rewrite Hend. reflexivity. }
  rewrite (bind_done _ _ _ _ _ (Hcall _)). cbn [fst snd].
  assert (Hprint : forall expression,
             parse_print_statement_step tokens expression pos st1 = Done (None, pos) st1).
  { intros expression. unfold parse_print_statement_step, token_at, bind.
    rewrite Hend. reflexivity. }
  rewrite (bind_done _ _ _ _ _ (Hprint _)). cbn [fst snd].
  assert (Hassign : forall expression,
             parse_assignment_statement_step tokens expression pos st1
             = Done (None, pos) st1).
  { intros expression. unfold parse_assignment_statement_step, token_at, bind.
    rewrite Hend. reflexivity. }
  rewrite (bind_done _ _ _ _ _ (Hassign _)). cbn [fst snd].
  unfold token_at, bind. rewrite Hend. reflexivity.
Qed.

(** ** More fuel does not change what the parser returns *)

Section ParserStepsMonotone.

Variable tokens : list Token.
Variables expression expression' additive additive' term term' factor factor'
  : nat -> M ParseResult.
Variables loop loop' : ASTNode -> nat -> M ParseResult.
Variables arguments arguments'
  : option string -> list ASTNode -> nat -> M (option (list ASTNode) * nat).

Hypothesis expression_le : forall pos, le_M (expression pos) (expression' pos).
Hypothesis loop_le : forall l pos, le_M (loop l pos) (loop' l pos).
Hypothesis arguments_le :
  forall message args pos, le_M (arguments message args pos) (arguments' message args pos).

Lemma binary_loop_step_le operator_of l pos :
  le_M (binary_loop_step tokens operator_of expression loop l pos)
       (binary_loop_step tokens operator_of expression' loop' l pos).
Proof. unfold binary_loop_step. mono. Qed.

Lemma binary_level_step_le pos :
  le_M (binary_level_step expression loop pos) (binary_level_step expression' loop' pos).
Proof. unfold binary_level_step. mono. Qed.

Lemma parse_arguments_step_le message args pos :
  le_M (parse_arguments_step tokens expression arguments message args pos)
       (parse_arguments_step tokens expression' arguments' message args pos).
Proof. unfold parse_arguments_step. mono. Qed.

Lemma parse_factor_step_le pos :
  le_M (parse_factor_step tokens expression arguments pos)
       (parse_factor_step tokens expression' arguments' pos).
Proof. unfold parse_factor_step. mono. Qed.

End ParserStepsMonotone.

Lemma expression_fuel_S (n : nat) (tokens : list Token) :
  (forall pos, le_M (parse_comparison n tokens pos) (parse_comparison (S n) tokens pos))
  /\ (forall l pos, le_M (comparison_loop n tokens l pos) (comparison_loop (S n) tokens l pos))
  /\ (forall pos, le_M (parse_additive n tokens pos) (parse_additive (S n) tokens pos))
  /\ (forall l pos, le_M (additive_loop n tokens l pos) (additive_loop (S n) tokens l pos))
  /\ (forall pos, le_M (parse_term n tokens pos) (parse_term (S n) tokens pos))
  /\ (forall l pos, le_M (term_loop n tokens l pos) (term_loop (S n) tokens l pos))
  /\ (forall pos, le_M (parse_factor n tokens pos) (parse_factor (S n) tokens pos))
  /\ (forall message args pos,
         le_M (parse_arguments n tokens message args pos)
              (parse_arguments (S n) tokens message args pos)).
Proof.
  induction n as [| n (IHc & IHcl & IHa & IHal & IHt & IHtl & IHf & IHargs)].
  - repeat split; intros; apply le_M_out_of_fuel.
  - repeat split; intros.
    + apply binary_level_step_le; assumption.
    + apply binary_loop_step_le; assumption.
    + apply binary_level_step_le; assumption.
    + apply binary_loop_step_le; assumption.
    + apply binary_level_step_le; assumption.
    + apply binary_loop_step_le; assumption.
    + apply parse_factor_step_le; assumption.
    + apply parse_arguments_step_le; assumption.
Qed.

Lemma parse_level_monotone lvl tokens pos :
  monotone (fun n => parse_level lvl n tokens pos).
Proof.
  apply monotone_of_S. intros n.
  destruct (expression_fuel_S n tokens) as (Hc & _ & Ha & _ & Ht & _ & Hf & _).
  destruct lvl as [| [| [| lvl]]]; simpl; auto.
Qed.

Lemma loop_level_monotone lvl tokens l pos :
  monotone (fun n => loop_level lvl n tokens l pos).
Proof.
  apply monotone_of_S. intros n.
  destruct (expression_fuel_S n tokens) as (_ & Hc & _ & Ha & _ & Ht & _).
  destruct lvl as [| [| lvl]]; simpl; auto.
Qed.

Lemma parse_level_fuel lvl n m tokens pos st a st' :
  n <= m ->
  parse_level lvl n tokens pos st = Done a st' ->
  parse_level lvl m tokens pos st = Done a st'.
Proof.
  intros Hle. apply (monotone_done (fun n => parse_level lvl n tokens pos)).
  - apply parse_level_monotone.
  - exact Hle.
Qed.

Lemma loop_level_fuel lvl n m tokens l pos st a st' :
  n <= m ->
  loop_level lvl n tokens l pos st = Done a st' ->
  loop_level lvl m tokens l pos st = Done a st'.
Proof.
  intros Hle. apply (monotone_done (fun n => loop_level lvl n tokens l pos)).
  - apply loop_level_monotone.
  - exact Hle.
Qed.

(** ** Expressions are parsed as they are written *)

Lemma parse_level_unfold k fuel tokens pos :
  k <= 2 ->
  parse_level k (S fuel) tokens pos
  = binary_level_step (parse_level (S k) fuel tokens) (loop_level k fuel tokens) pos.
Proof. intros Hk. destruct k as [| [| [| k]]]; try lia; reflexivity. Qed.

Lemma loop_level_unfold k fuel tokens l pos :
  k <= 2 ->
  loop_level k (S fuel) tokens l pos
  = binary_loop_step tokens (operator_level k) (parse_level (S k) fuel tokens)
                     (loop_level k fuel tokens) l pos.
Proof. intros Hk. destruct k as [| [| [| k]]]; try lia; reflexivity. Qed.

Lemma nth_error_at (tokens : list Token) pos :
  nth_error tokens pos = hd_error (skipn pos tokens).
Proof.
  revert tokens. induction pos as [| pos IH]; intros [| t tokens]; simpl; auto.
Qed.

Lemma skipn_next (tokens : list Token) pos t rest :
  skipn pos tokens = t :: rest -> skipn (S pos) tokens = rest.
Proof.
  intros H. replace (S pos) with (1 + pos) by lia.
  rewrite <- skipn_skipn, H. reflexivity.
Qed.

Lemma skipn_past (tokens : list Token) pos a b :
  skipn pos tokens = a ++ b -> skipn (pos + List.length a) tokens = b.
Proof.
  intros H. rewrite Nat.add_comm, <- skipn_skipn, H.
  rewrite skipn_app, skipn_all, Nat.sub_diag. reflexivity.
Qed.

Lemma below_monotone a b rest : a <= b -> below a rest = true -> below b rest = true.
Proof.
  intros Hab. destruct rest as [| t rest]; [reflexivity |]. simpl.
  intros H. apply andb_true_iff in H. destruct H as [-> H]. simpl.
  destruct (token_level t) as [j |]; [| reflexivity].
  apply Nat.ltb_lt in H. apply Nat.ltb_lt. lia.
Qed.

Lemma operator_level_token k t op :
  k <= 2 ->
  TokenType_eqb (token_type t) TOKEN_OPERATOR = true ->
  operator_level k (token_value t) = Some op ->
  exists j, token_level t = Some j /\ k <= j.
Proof.
  intros Hk Htype Hop. unfold token_level. rewrite Htype.
  destruct k as [| [| [| k]]]; try lia; simpl in Hop.
  - rewrite Hop.
    destruct (term_operator (token_value t)); [exists 2; split; [reflexivity | lia] |].
    destruct (additive_operator (token_value t)); [exists 1; split; [reflexivity | lia] |].
    exists 0. split; [reflexivity | lia].
  - rewrite Hop.
    destruct (term_operator (token_value t)); [exists 2; split; [reflexivity | lia] |].
    exists 1. split; [reflexivity | lia].
  - rewrite Hop. exists 2. split; [reflexivity | lia].
Qed.

(** The loop of a level stops at a token that is no operator of the
    level. *)
Lemma loop_level_stops k fuel tokens l pos rest st :
  k <= 2 ->
  skipn pos tokens = rest ->
  below k rest = true ->
  loop_level k (S fuel) tokens l pos st = Done (Some l, pos) st.
Proof.
  intros Hk Hrest Hbelow. rewrite loop_level_unfold by exact Hk.
  unfold binary_loop_step. rewrite nth_error_at, Hrest.
  destruct rest as [| t rest]; [reflexivity |]. simpl.
  destruct (TokenType_eqb (token_type t) TOKEN_OPERATOR) eqn:Htype; [| reflexivity].
  destruct (operator_level k (token_value t)) as [op |] eqn:Hop; [| reflexivity].
  destruct (operator_level_token k t op Hk Htype Hop) as (j & Hj & Hkj).
  simpl in Hbelow. rewrite Hj in Hbelow.
  apply andb_true_iff in Hbelow. destruct Hbelow as [_ Hlt].
  apply Nat.ltb_lt in Hlt. lia.
Qed.

Lemma reaches_level k tokens pos st t p st1 r st' :
  k <= 2 ->
  reaches (fun fuel => parse_level (S k) fuel tokens pos) st (Some t, p) st1 ->
  reaches (fun fuel => loop_level k fuel tokens t p) st1 r st' ->
  reaches (fun fuel => parse_level k fuel tokens pos) st r st'.
Proof.
  intros Hk [f1 H1] [f2 H2]. exists (S (Nat.max f1 f2)).
  rewrite parse_level_unfold by exact Hk. unfold binary_level_step.
  apply (parse_level_fuel _ f1 (Nat.max f1 f2)) in H1; [| apply Nat.le_max_l].
  apply (loop_level_fuel _ f2 (Nat.max f1 f2)) in H2; [| apply Nat.le_max_r].
  rewrite (bind_done _ _ _ _ _ H1). exact H2.
Qed.

Lemma continues_of_parses k tree toks :
  k <= 2 -> parses_at (S k) tree toks -> continues_at k tree toks.
Proof.
  intros Hk Hparse tokens pos rest st r st' Htoks Hbelow Hloop.
  eapply reaches_level; [exact Hk | | exact Hloop].
  eapply Hparse; eassumption.
Qed.

Lemma parses_of_continues k tree toks :
  k <= 2 -> continues_at k tree toks -> parses_at k tree toks.
Proof.
  intros Hk Hcont tokens pos rest st Htoks Hbelow.
  eapply Hcont; [exact Htoks | | ].
  - eapply below_monotone; [| exact Hbelow]. lia.
  - exists 1. eapply loop_level_stops; [exact Hk | | exact Hbelow].
    apply skipn_past. exact Htoks.
Qed.

(** From level [b] down to level [a]. *)
Lemma parses_down tree toks a b :
  a <= b -> b <= 3 -> parses_at b tree toks ->
  parses_at a tree toks /\ forall k, a <= k -> k < b -> continues_at k tree toks.
Proof.
  intros Hab Hb Hparse. induction Hab as [| b Hab IH].
  - split; [exact Hparse | intros k H1 H2; lia].
  - assert (Hc : continues_at b tree toks) by (apply continues_of_parses; [lia | exact Hparse]).
    destruct IH as [Ha Hk]; [lia | apply parses_of_continues; [lia | exact Hc] |].
    split; [exact Ha |]. intros k H1 H2.
    destruct (Nat.eq_dec k b) as [-> | Hne]; [exact Hc | apply Hk; lia].
Qed.

Lemma operator_level_text op :
  operator_level (level op) (operator_text op) = Some op.
Proof. destruct op; reflexivity. Qed.

Lemma level_le_2 op : level op <= 2.
Proof. destruct op; simpl; lia. Qed.

Lemma below_operator op rest :
  below (S (level op)) (mkToken TOKEN_OPERATOR (operator_text op) :: rest) = true.
Proof. destruct op; reflexivity. Qed.

(** The loop of the level of an operator, at that operator. *)
Lemma continues_operation op l r ltoks rtoks :
  continues_at (level op) l ltoks ->
  parses_at (S (level op)) r rtoks ->
  continues_at (level op) (Syntax.binary_op op l r)
               (ltoks ++ mkToken TOKEN_OPERATOR (operator_text op) :: rtoks).
Proof.
  intros Hl Hr tokens pos rest st res st' Htoks Hbelow Hloop.
  pose proof (level_le_2 op) as Hk.
  rewrite <- app_assoc in Htoks. simpl in Htoks.
  eapply Hl; [exact Htoks | apply below_operator |].
  assert (Hop := skipn_past _ _ _ _ Htoks).
  assert (Hright := skipn_next _ _ _ _ Hop).
  destruct (Hr tokens (S (pos + List.length ltoks)) rest st Hright Hbelow) as [f1 H1].
  destruct Hloop as [f2 H2].
  exists (S (Nat.max f1 f2)). rewrite loop_level_unfold by exact Hk.
  unfold binary_loop_step. rewrite nth_error_at, Hop. simpl.
  rewrite operator_level_text.
  apply (parse_level_fuel _ f1 (Nat.max f1 f2)) in H1; [| apply Nat.le_max_l].
  apply (loop_level_fuel _ f2 (Nat.max f1 f2)) in H2; [| apply Nat.le_max_r].
  rewrite (bind_done _ _ _ _ _ H1). simpl.
  rewrite length_app in H2. simpl in H2.
  match goal with
  | |- loop_level _ _ _ _ ?p _ = _ =>
      replace p with (pos + (List.length ltoks + S (List.length rtoks))) by lia
  end.
  exact H2.
Qed.

Lemma delimiter_at_next (tokens : list Token) pos rest c :
  skipn pos tokens = rest ->
  delimiter_at tokens pos c
  = match rest with
    | t :: _ =>
        TokenType_eqb (token_type t) TOKEN_DELIMITER
        && Ascii.eqb (first_char (token_value t)) c
    | [] => false
    end.
Proof.
  intros H. unfold delimiter_at, token_is. rewrite nth_error_at, H.
  destruct rest; reflexivity.
Qed.

Lemma below_no_call (lvl : nat) (rest : list Token) (tokens : list Token) pos :
  skipn pos tokens = rest -> below lvl rest = true ->
  delimiter_at tokens pos "(" = false /\ delimiter_at tokens pos "[" = false.
Proof.
  intros Hrest Hbelow. rewrite !(delimiter_at_next _ _ _ _ Hrest).
  destruct rest as [| t rest]; [split; reflexivity |]. simpl in Hbelow.
  apply andb_true_iff in Hbelow. destruct Hbelow as [Hopen _].
  apply negb_true_iff in Hopen.
  destruct (TokenType_eqb (token_type t) TOKEN_DELIMITER); [| split; reflexivity].
  simpl in *. apply orb_false_iff in Hopen. exact Hopen.
Qed.

Lemma parses_literal type text :
  type = TOKEN_NUMBER \/ type = TOKEN_STRING ->
  parses_at 3 (Syntax.literal text) [mkToken type text].
Proof.
  intros Htype tokens pos rest st Htoks Hbelow. exists 1. simpl.
  unfold parse_factor_step. rewrite nth_error_at, Htoks. simpl.
  rewrite Nat.add_1_r. destruct Htype as [-> | ->]; reflexivity.
Qed.

Lemma parses_name name :
  parses_at 3 (Syntax.identifier name) [mkToken TOKEN_IDENTIFIER name].
Proof.
  intros tokens pos rest st Htoks Hbelow. exists 1. simpl.
  unfold parse_factor_step. rewrite nth_error_at, Htoks. simpl.
  destruct (below_no_call 3 rest tokens (S pos) (skipn_next _ _ _ _ Htoks) Hbelow)
    as [-> ->].
  rewrite Nat.add_1_r. reflexivity.
Qed.

Lemma parses_element name index toks :
  parses_at 0 index toks ->
  parses_at 3 (Syntax.array_access name index)
            (mkToken TOKEN_IDENTIFIER name :: mkToken TOKEN_DELIMITER "["
             :: toks ++ [mkToken TOKEN_DELIMITER "]"]).
Proof.
  intros Hindex tokens pos rest st Htoks Hbelow.
  assert (Htoks' := Htoks). simpl in Htoks'.
  assert (H1 := skipn_next _ _ _ _ Htoks').
  assert (H2 := skipn_next _ _ _ _ H1).
  rewrite <- app_assoc in H2. cbn [app] in H2.
  destruct (Hindex tokens (S (S pos)) (mkToken TOKEN_DELIMITER "]" :: rest) st H2 eq_refl)
    as [f Hf].
  exists (S f). simpl. unfold parse_factor_step.
  rewrite nth_error_at, Htoks. simpl.
  rewrite (delimiter_at_next _ _ _ "(" H1), (delimiter_at_next _ _ _ "[" H1). simpl.
  change (parse_comparison f tokens (S (S pos))) with (parse_level 0 f tokens (S (S pos))).
  rewrite (bind_done _ _ _ _ _ Hf). cbn [fst snd].
  rewrite (delimiter_at_next _ _ _ "]" (skipn_past _ _ _ _ H2)). simpl.
  unfold ret. rewrite length_app. cbn [List.length].
  replace (pos + S (S (List.length toks + 1))) with (S (S (S pos) + List.length toks)) by lia.
  reflexivity.
Qed.

Lemma parses_parentheses tree toks :
  parses_at 0 tree toks ->
  parses_at 3 tree (mkToken TOKEN_DELIMITER "(" :: toks ++ [mkToken TOKEN_DELIMITER ")"]).
Proof.
  intros Hbody tokens pos rest st Htoks Hbelow.
  assert (Htoks' := Htoks). simpl in Htoks'.
  assert (H1 := skipn_next _ _ _ _ Htoks').
  rewrite <- app_assoc in H1. cbn [app] in H1.
  destruct (Hbody tokens (S pos) (mkToken TOKEN_DELIMITER ")" :: rest) st H1 eq_refl)
    as [f Hf].
  exists (S f). simpl. unfold parse_factor_step.
  rewrite nth_error_at, Htoks. simpl.
  change (parse_comparison f tokens (S pos)) with (parse_level 0 f tokens (S pos)).
  rewrite (bind_done _ _ _ _ _ Hf). cbn [fst snd].
  rewrite (delimiter_at_next _ _ _ ")" (skipn_past _ _ _ _ H1)). simpl.
  unfold ret. rewrite length_app. cbn [List.length].
  replace (pos + S (List.length toks + 1)) with (S (S pos + List.length toks)) by lia.
  reflexivity.
Qed.

Lemma atoms_parse tree toks :
  parses_at 3 tree toks ->
  (forall lvl, lvl <= 3 -> parses_at lvl tree toks)
  /\ (forall k, k <= 2 -> continues_at k tree toks).
Proof.
  intros H3. split.
  - intros lvl Hlvl. apply (parses_down tree toks lvl 3 Hlvl (le_n 3) H3).
  - intros k Hk. apply (parses_down tree toks 0 3 (Nat.le_0_l 3) (le_n 3) H3); lia.
Qed.

Lemma expressions_parse (e : Expression) :
  (forall lvl, lvl <= 3 -> parses_at lvl (tree_of e) (tokens_of lvl e))
  /\ (forall k, k <= 2 -> continues_at k (tree_of e) (tokens_of k e)).
Proof.
  induction e as [digits | text | name | name index [IHindex _]
                 | op l [IHl IHlc] r [IHr IHrc]].
  - apply (atoms_parse (Syntax.literal digits) [mkToken TOKEN_NUMBER digits]).
    apply parses_literal. left. reflexivity.
  - apply (atoms_parse (Syntax.literal text) [mkToken TOKEN_STRING text]).
    apply parses_literal. right. reflexivity.
  - apply (atoms_parse (Syntax.identifier name) [mkToken TOKEN_IDENTIFIER name]).
    apply parses_name.
  - apply (atoms_parse (Syntax.array_access name (tree_of index))
                       (mkToken TOKEN_IDENTIFIER name :: mkToken TOKEN_DELIMITER "["
                        :: tokens_of 0 index ++ [mkToken TOKEN_DELIMITER "]"])).
    apply parses_element. apply IHindex. lia.
  - pose proof (level_le_2 op) as Hj.
    set (j := level op) in *.
    set (body := tokens_of j l ++ mkToken TOKEN_OPERATOR (operator_text op)
                                :: tokens_of (S j) r).
    assert (Hprint : forall lvl,
               tokens_of lvl (Operation op l r)
               = if j <? lvl
                 then mkToken TOKEN_DELIMITER "(" :: body ++ [mkToken TOKEN_DELIMITER ")"]
                 else body) by reflexivity.
    assert (Cj : continues_at j (tree_of (Operation op l r)) body).
    { apply continues_operation; [apply IHlc; exact Hj | apply IHr; lia]. }
    assert (Pj : parses_at j (tree_of (Operation op l r)) body)
      by (apply parses_of_continues; assumption).
    assert (P0 : parses_at 0 (tree_of (Operation op l r)) body)
      by (apply (parses_down _ body 0 j (Nat.le_0_l j) ltac:(lia) Pj)).
    assert (P3 := parses_parentheses _ _ P0).
    split.
    + intros lvl Hlvl. rewrite Hprint.
      destruct (Nat.ltb_spec j lvl) as [Hlt | Hge].
      * apply (parses_down _ _ lvl 3 Hlvl (le_n 3) P3).
      * apply (parses_down _ body lvl j Hge ltac:(lia) Pj).
    + intros k Hk. rewrite Hprint.
      destruct (Nat.ltb_spec j k) as [Hlt | Hge].
      * apply (parses_down _ _ k 3 ltac:(lia) (le_n 3) P3); lia.
      * destruct (Nat.eq_dec k j) as [-> | Hne]; [exact Cj |].
        apply (parses_down _ body k j Hge ltac:(lia) Pj); lia.
Qed.

(** The parser inverts the printing of expressions.  The tokens of an
    expression without calls, written with the parentheses that the
    levels of the operators require and followed by a token that cannot
    continue it, parse to the tree of the expression, with any
    sufficient fuel; the position ends after its tokens and nothing is
    written.  So [*] and [/] bind tighter than [+] and [-], these
    tighter than the comparisons, and all operators associate to the
    left. *)
Theorem expressions_are_parsed_as_they_are_written
        (e : Expression) (tokens : list Token) (pos : nat) (rest : list Token)
        (st : State) :
  skipn pos tokens = tokens_of 0 e ++ rest ->
  ends_expression rest = true ->
  exists n,
    forall fuel,
      n <= fuel ->
      parse_expression fuel tokens pos st
      = Done (Some (tree_of e), pos + List.length (tokens_of 0 e)) st.
Proof.
  intros Htoks Hends.
  destruct (expressions_parse e) as [Hparse _].
  destruct (Hparse 0 (Nat.le_0_l 3) tokens pos rest st Htoks Hends) as [n Hn].
  exists n. intros fuel Hfuel.
  exact (parse_level_fuel 0 n fuel tokens pos st _ st Hfuel Hn).
Qed.

(** ** Tokens are read as they are written *)

Lemma span_all test s c rest :
  string_forall test s = true -> test c = false ->
  span test (s ++ String c rest) = (s, String c rest).
Proof.
  intros Hs Hc. induction s as [| x s IH]; simpl.
  - rewrite Hc. reflexivity.
  - simpl in Hs. apply andb_true_iff in Hs. destruct Hs as [-> Hs].
    rewrite (IH Hs). reflexivity.
Qed.

Lemma string_append_assoc (a b c : string) :
  ((a ++ b) ++ c)%string = (a ++ (b ++ c))%string.
Proof. induction a as [| x a IH]; simpl; [reflexivity | rewrite IH; reflexivity]. Qed.

Ltac ascii_cases c := destruct c as [[] [] [] [] [] [] [] []].

Lemma digit_branch c :
  isdigit c = true ->
  isspace c = false /\ Ascii.eqb c "#" = false
  /\ Ascii.eqb c double_quote || Ascii.eqb c "'" = false.
Proof.
  ascii_cases c; intros H; vm_compute in H; try discriminate H;
    repeat split; reflexivity.
Qed.

Lemma letter_branch c :
  isalpha c || Ascii.eqb c "_" = true ->
  isspace c = false /\ Ascii.eqb c "#" = false
  /\ Ascii.eqb c double_quote || Ascii.eqb c "'" = false
  /\ isdigit c = false.
Proof.
  ascii_cases c; intros H; vm_compute in H; try discriminate H;
    repeat split; reflexivity.
Qed.

Lemma tokenize_space f capacity rest acc st :
  tokenize_from (S f) capacity (String " " rest) acc st
  = tokenize_from f capacity rest acc st.
Proof. reflexivity. Qed.

Lemma keyword_shape v :
  is_keyword v = true ->
  exists c v', v = String c v' /\ isalpha c || Ascii.eqb c "_" = true
               /\ string_forall (fun x => isalnum x || Ascii.eqb x "_") v = true.
Proof.
  unfold is_keyword, keywords. cbn [existsb]. intros H.
  repeat (apply orb_true_iff in H; destruct H as [H | H]); try discriminate H;
    apply String.eqb_eq in H; subst v; do 2 eexists; repeat split; reflexivity.
Qed.

Lemma operator_shape v :
  is_operator v = true ->
  exists c v', v = String c v'
               /\ isspace c = false /\ Ascii.eqb c "#" = false
               /\ Ascii.eqb c double_quote || Ascii.eqb c "'" = false
               /\ isdigit c = false /\ isalpha c || Ascii.eqb c "_" = false
               /\ is_operator_char c = true
               /\ string_forall is_operator_char v = true.
Proof.
  unfold is_operator, operators. cbn [existsb]. intros H.
  repeat (apply orb_true_iff in H; destruct H as [H | H]); try discriminate H;
    apply String.eqb_eq in H; subst v; do 2 eexists; repeat split; reflexivity.
Qed.

Lemma tokenize_word capacity type v rest f acc st :
  (if is_keyword v then TOKEN_KEYWORD else TOKEN_IDENTIFIER) = type ->
  (exists c v', v = String c v' /\ isalpha c || Ascii.eqb c "_" = true) ->
  string_forall (fun x => isalnum x || Ascii.eqb x "_") v = true ->
  String.length v < MAX_TOKEN_LENGTH ->
  List.length acc < capacity ->
  tokenize_from (S (S f)) capacity (v ++ String " " rest) acc st
  = tokenize_from f capacity rest (acc ++ [mkToken type v]) st.
Proof.
  intros Htype (c & v' & -> & Hc) Hall Hlen Hroom.
  destruct (letter_branch c Hc) as (Hspace & Hhash & Hquote & Hdigit).
  cbn [tokenize_from append].
  rewrite Hspace, Hhash, Hquote, Hdigit, Hc.
  change (String c (v' ++ String " " rest)) with (String c v' ++ String " " rest)%string.
  rewrite (span_all _ _ " " rest Hall eq_refl).
  rewrite Htype, emit_unfold.
  apply Nat.leb_gt in Hlen, Hroom. rewrite Hlen, Hroom. reflexivity.
Qed.

Lemma tokenize_token capacity t rest f acc st :
  writable t = true ->
  List.length acc < capacity ->
  tokenize_from (S (S f)) capacity (token_text t ++ String " " rest) acc st
  = tokenize_from f capacity rest (acc ++ [t]) st.
Proof.
  destruct t as [type v]. unfold writable, well_formed_token, token_text.
  cbn [token_type token_value]. intros H Hroom.
  apply andb_true_iff in H. destruct H as [H Hw].
  apply andb_true_iff in H. destruct H as [Hlen H].
  apply Nat.ltb_lt in Hlen.
  destruct type; try discriminate H; try discriminate Hw.
  - (* identifier *)
    apply andb_true_iff in H. destruct H as [H Hkey].
    apply andb_true_iff in H. destruct H as [Hfirst Hall].
    apply negb_true_iff in Hkey.
    apply tokenize_word; try assumption.
    + rewrite Hkey. reflexivity.
    + destruct v as [| c v']; [discriminate Hfirst |]. exists c, v'. split; [reflexivity | exact Hfirst].
  - (* number *)
    apply andb_true_iff in H. destruct H as [Hne Hall].
    destruct v as [| c v']; [discriminate Hne |].
    assert (Hc : isdigit c = true).
    { simpl in Hall. apply andb_true_iff in Hall. exact (proj1 Hall). }
    destruct (digit_branch c Hc) as (Hspace & Hhash & Hquote).
    cbn [tokenize_from append].
    rewrite Hspace, Hhash, Hquote, Hc.
    change (String c (v' ++ String " " rest)) with (String c v' ++ String " " rest)%string.
    rewrite (span_all _ _ " " rest Hall eq_refl).
    rewrite emit_unfold.
    apply Nat.leb_gt in Hlen, Hroom. rewrite Hlen, Hroom. reflexivity.
  - (* string literal *)
    cbn [tokenize_from append].
    change (isspace double_quote) with false.
    change (Ascii.eqb double_quote "#") with false.
    change (Ascii.eqb double_quote double_quote || Ascii.eqb double_quote "'") with true.
    cbv iota.
    rewrite string_append_assoc. cbn [append].
    rewrite (span_all (fun x => negb (Ascii.eqb x double_quote)) v double_quote
                      (String " " rest) Hw eq_refl).
    rewrite emit_unfold.
    apply Nat.leb_gt in Hlen, Hroom. rewrite Hlen, Hroom. reflexivity.
  - (* keyword *)
    destruct (keyword_shape v H) as (c & v' & Hv & Hc & Hall).
    apply tokenize_word; try assumption.
    + rewrite H. reflexivity.
    + exists c, v'. split; assumption.
  - (* operator *)
    destruct (operator_shape v H)
      as (c & v' & -> & Hspace & Hhash & Hquote & Hdigit & Hletter & Hc & Hall).
    cbn [tokenize_from append].
    rewrite Hspace, Hhash, Hquote, Hdigit, Hletter, Hc.
    change (String c (v' ++ String " " rest)) with (String c v' ++ String " " rest)%string.
    rewrite (span_all _ _ " " rest Hall eq_refl).
    assert (Hlen' := Hlen). apply Nat.leb_gt in Hlen'. rewrite Hlen', H.
    rewrite emit_unfold.
    apply Nat.leb_gt in Hroom. rewrite Hlen', Hroom. reflexivity.
  - (* delimiter *)
    destruct v as [| c [| c' v']]; try discriminate H.
    simpl in Hw. rewrite andb_true_r in Hw.
    destruct (delimiter_branch c Hw)
      as (Hspace & Hhash & Hquote & Hdigit & Hletter & Hop & Hdelim).
    cbn [tokenize_from append].
    rewrite Hspace, Hhash, Hquote, Hdigit, Hletter, Hop, Hdelim.
    rewrite emit_unfold.
    apply Nat.leb_gt in Hroom. rewrite Hroom. reflexivity.
Qed.

Lemma tokenize_from_text capacity st :
  forall tokens f acc,
    forallb writable tokens = true ->
    2 * List.length tokens < f ->
    List.length acc + List.length tokens <= capacity ->
    tokenize_from f capacity (text_of tokens) acc st = Done (acc ++ tokens) st.
Proof.
  induction tokens as [| t tokens IH]; intros f acc Hw Hf Hroom.
  - destruct f as [| f]; [simpl in Hf; lia |]. simpl. rewrite app_nil_r. reflexivity.
  - cbn [forallb] in Hw. apply andb_true_iff in Hw. destruct Hw as [Ht Hw].
    cbn [List.length] in Hf, Hroom.
    destruct f as [| [| f]]; try lia.
    cbn [text_of]. rewrite tokenize_token by (assumption || lia).
    rewrite IH; [| assumption | lia | rewrite length_app; simpl; lia].
    rewrite <- app_assoc. reflexivity.
Qed.

Lemma token_text_length t : writable t = true -> 0 < String.length (token_text t).
Proof.
  destruct t as [type v]. unfold writable, well_formed_token, token_text.
  cbn [token_type token_value]. intros H.
  apply andb_true_iff in H. destruct H as [H Hw].
  apply andb_true_iff in H. destruct H as [_ H].
  destruct type; try discriminate H; try discriminate Hw;
    try (simpl; lia);
    destruct v; try (simpl; lia); try discriminate H.
Qed.

Lemma text_of_length tokens :
  forallb writable tokens = true ->
  2 * List.length tokens <= String.length (text_of tokens).
Proof.
  induction tokens as [| t tokens IH]; intros Hw; [simpl; lia |].
  cbn [forallb] in Hw. apply andb_true_iff in Hw. destruct Hw as [Ht Hw].
  cbn [text_of List.length]. rewrite string_length_append. cbn [String.length].
  pose proof (token_text_length t Ht). specialize (IH Hw). lia.
Qed.

(** The lexer inverts the writing of tokens.  The text of a list of
    writable tokens, each followed by a space, is tokenized to that
    list when the array has a cell for each; nothing is written and
    the state is unchanged. *)
Theorem tokens_are_read_as_they_are_written
        (capacity : nat) (tokens : list Token) (st : State) :
  forallb writable tokens = true ->
  List.length tokens <= capacity ->
  tokenize_line capacity (text_of tokens) st = Done tokens st.
Proof.
  intros Hw Hroom. unfold tokenize_line.
  pose proof (text_of_length tokens Hw).
  apply (tokenize_from_text capacity st tokens _ [] Hw); [lia | exact Hroom].
Qed.

(** ** Statements are parsed as they are written *)

Lemma expression_parses (e : Expression) tokens pos rest st :
  skipn pos tokens = tokens_of 0 e ++ rest ->
  ends_expression rest = true ->
  exists n,
    forall fuel,
      n <= fuel ->
      parse_expression fuel tokens pos st
      = Done (Some (tree_of e), pos + List.length (tokens_of 0 e)) st.
Proof.
  intros Htoks Hends.
  destruct (expressions_parse e) as [Hparse _].
  destruct (Hparse 0 (Nat.le_0_l 3) tokens pos rest st Htoks Hends) as [n Hn].
  exists n. intros fuel Hfuel.
  exact (parse_level_fuel 0 n fuel tokens pos st _ st Hfuel Hn).
Qed.

Lemma ends_statement_expression rest : ends_statement rest = true -> ends_expression rest = true.
Proof.
  destruct rest as [| [type v] rest]; [reflexivity |].
  unfold ends_statement, ends_expression, below, token_level. cbn [token_type token_value].
  destruct type; try discriminate; reflexivity.
Qed.

Lemma ends_block_statement rest : ends_block rest = true -> ends_statement rest = true.
Proof.
  destruct rest as [| [type v] rest]; [reflexivity |].
  unfold ends_block, ends_statement. cbn [token_type token_value].
  destruct type; try discriminate; reflexivity.
Qed.

Lemma starts_ends_statement t rest : starts_statement t = true -> ends_statement (t :: rest) = true.
Proof.
  unfold starts_statement, ends_statement. destruct t as [type v]. cbn [token_type token_value].
  destruct type; try discriminate; reflexivity.
Qed.

Lemma statement_starts s : exists t ts, statement_tokens s = t :: ts /\ starts_statement t = true.
Proof. destruct s; do 2 eexists; (split; [reflexivity | reflexivity]). Qed.

Lemma block_starts b : exists t ts, block_tokens b = t :: ts /\ starts_statement t = true.
Proof.
  destruct b as [s | s b]; cbn [block_tokens];
    destruct (statement_starts s) as (t & ts & -> & Ht).
  - exists t, ts. split; [reflexivity | exact Ht].
  - exists t, (ts ++ block_tokens b). split; [reflexivity | exact Ht].
Qed.

(** The alternatives of [parse_statement] that a token rules out. *)

Lemma keyword_at_token tokens pos t k :
  nth_error tokens pos = Some t -> keyword_at tokens pos k = keyword_is t k.
Proof. intros H. unfold keyword_at, token_is, keyword_is. rewrite H. reflexivity. Qed.

Lemma token_at_token tokens pos t st :
  nth_error tokens pos = Some t -> token_at tokens pos st = Done t st.
Proof. intros H. unfold token_at. rewrite H. reflexivity. Qed.

Lemma skip_for f tokens pos t st :
  nth_error tokens pos = Some t -> keyword_is t "for" = false ->
  parse_for_statement (S f) tokens pos st = Done (None, pos) st.
Proof.
  intros Ht Hk. cbn [parse_for_statement]. unfold parse_for_statement_step.
  rewrite (keyword_at_token _ _ _ _ Ht), Hk. reflexivity.
Qed.

Lemma skip_if f tokens pos t st :
  nth_error tokens pos = Some t -> keyword_is t "if" = false ->
  parse_if_statement (S f) tokens pos st = Done (None, pos) st.
Proof.
  intros Ht Hk. cbn [parse_if_statement]. unfold parse_if_statement_step.
  rewrite (bind_done _ _ _ _ _ (token_at_token _ _ _ st Ht)).
  unfold keyword_is in Hk. rewrite Hk. reflexivity.
Qed.

Lemma skip_while f tokens pos t st :
  nth_error tokens pos = Some t -> keyword_is t "while" = false ->
  parse_while_statement (S f) tokens pos st = Done (None, pos) st.
Proof.
  intros Ht Hk. cbn [parse_while_statement]. unfold parse_while_statement_step.
  rewrite (keyword_at_token _ _ _ _ Ht), Hk. reflexivity.
Qed.

Lemma skip_definition f tokens pos t st :
  nth_error tokens pos = Some t -> keyword_is t "def" = false ->
  parse_function_definition (S f) tokens pos st = Done (None, pos) st.
Proof.
  intros Ht Hk. cbn [parse_function_definition]. unfold parse_function_definition_step.
  rewrite (keyword_at_token _ _ _ _ Ht), Hk. reflexivity.
Qed.

Lemma skip_return expression tokens pos t st :
  nth_error tokens pos = Some t -> keyword_is t "return" = false ->
  parse_return_statement_step tokens expression pos st = Done (None, pos) st.
Proof.
  intros Ht Hk. unfold parse_return_statement_step.
  rewrite (keyword_at_token _ _ _ _ Ht), Hk. reflexivity.
Qed.

Lemma skip_call arguments tokens pos t st :
  nth_error tokens pos = Some t ->
  TokenType_eqb (token_type t) TOKEN_IDENTIFIER && delimiter_at tokens (S pos) "(" = false ->
  parse_function_call_step tokens arguments pos st = Done (None, pos) st.
Proof.
  intros Ht Hk. unfold parse_function_call_step.
  rewrite (bind_done _ _ _ _ _ (token_at_token _ _ _ st Ht)).
  rewrite Hk. reflexivity.
Qed.

Lemma skip_print expression tokens pos t st :
  nth_error tokens pos = Some t -> keyword_is t "print" = false ->
  parse_print_statement_step tokens expression pos st = Done (None, pos) st.
Proof.
  intros Ht Hk. unfold parse_print_statement_step.
  rewrite (bind_done _ _ _ _ _ (token_at_token _ _ _ st Ht)).
  unfold keyword_is in Hk. rewrite Hk. reflexivity.
Qed.

Lemma first_success_skip tokens alternative alternatives pos st :
  alternative pos st = Done (None, pos) st ->
  first_success tokens (alternative :: alternatives) pos st
  = first_success tokens alternatives pos st.
Proof. intros H. cbn [first_success]. rewrite (bind_done _ _ _ _ _ H). reflexivity. Qed.

Lemma first_success_found tokens alternative alternatives pos st node pos' st' :
  alternative pos st = Done (Some node, pos') st' ->
  first_success tokens (alternative :: alternatives) pos st = Done (Some node, pos') st'.
Proof. intros H. cbn [first_success]. rewrite (bind_done _ _ _ _ _ H). reflexivity. Qed.

Lemma keyword_at_next (tokens : list Token) pos rest k :
  skipn pos tokens = rest ->
  keyword_at tokens pos k
  = match rest with
    | t :: _ => keyword_is t k
    | [] => false
    end.
Proof.
  intros H. unfold keyword_at, token_is, keyword_is. rewrite nth_error_at, H.
  destruct rest; reflexivity.
Qed.

Lemma operator_at_next (tokens : list Token) pos rest op :
  skipn pos tokens = rest ->
  operator_at tokens pos op
  = match rest with
    | t :: _ => TokenType_eqb (token_type t) TOKEN_OPERATOR && String.eqb (token_value t) op
    | [] => false
    end.
Proof.
  intros H. unfold operator_at, token_is. rewrite nth_error_at, H.
  destruct rest; reflexivity.
Qed.

Lemma nth_error_next (tokens : list Token) pos t rest :
  skipn pos tokens = t :: rest -> nth_error tokens pos = Some t.
Proof. intros H. rewrite nth_error_at, H. reflexivity. Qed.

Lemma parse_statement_unfold f tokens pos t st :
  nth_error tokens pos = Some t ->
  parse_statement (S f) tokens pos st
  = first_success tokens
      [ parse_for_statement f tokens; parse_if_statement f tokens;
        parse_while_statement f tokens; parse_function_definition f tokens;
        parse_return_statement_step tokens (parse_expression f tokens);
        parse_function_call_step tokens (parse_arguments f tokens);
        parse_print_statement_step tokens (parse_expression f tokens);
        parse_assignment_statement_step tokens (parse_expression f tokens) ]
      pos st.
Proof.
  intros H. cbn [parse_statement]. unfold parse_statement_step. rewrite H. reflexivity.
Qed.

Lemma done_at {A : Type} (a a' : A) (p p' : nat) (st : State) :
  a = a' -> p = p' -> Done (Some a, p) st = Done (Some a', p') st.
Proof. intros -> ->. reflexivity. Qed.

Ltac skip_alternative Ht :=
  rewrite first_success_skip
    by first [ apply (skip_for _ _ _ _ _ Ht); reflexivity
             | apply (skip_if _ _ _ _ _ Ht); reflexivity
             | apply (skip_while _ _ _ _ _ Ht); reflexivity
             | apply (skip_definition _ _ _ _ _ Ht); reflexivity
             | apply (skip_return _ _ _ _ _ Ht); reflexivity
             | apply (skip_print _ _ _ _ _ Ht); reflexivity ].

Lemma parses_print (e : Expression) tokens pos rest st :
  skipn pos tokens = statement_tokens (S_print e) ++ rest ->
  exists n,
    forall fuel,
      n <= fuel ->
      parse_statement fuel tokens pos st
      = Done (Some (statement_tree (S_print e)),
              pos + List.length (statement_tokens (S_print e))) st.
Proof.
  intros Htoks. cbn [statement_tokens app] in Htoks.
  rewrite <- app_assoc in Htoks. cbn [app] in Htoks.
  pose proof (nth_error_next _ _ _ _ Htoks) as Ht.
  pose proof (skipn_next _ _ _ _ Htoks) as H1.
  pose proof (skipn_next _ _ _ _ H1) as H2.
  destruct (expression_parses e tokens (S (S pos)) _ st H2 eq_refl) as [n He].
  exists (S (S n)). intros fuel Hfuel.
  destruct fuel as [| [| f]]; try lia.
  rewrite (parse_statement_unfold _ _ _ _ _ Ht).
  do 5 skip_alternative Ht.
  rewrite first_success_skip by (apply (skip_call _ _ _ _ _ Ht); reflexivity).
  apply first_success_found.
  unfold parse_print_statement_step.
  rewrite (bind_done _ _ _ _ _ (token_at_token _ _ _ st Ht)).
  cbn [token_type token_value TokenType_eqb String.eqb Ascii.eqb Bool.eqb andb].
  rewrite (delimiter_at_next _ _ _ "(" H1).
  cbn [token_type token_value TokenType_eqb first_char Ascii.eqb Bool.eqb andb].
  rewrite (bind_done _ _ _ _ _ (He (S f) ltac:(lia))). cbn [fst snd].
  rewrite (delimiter_at_next _ _ _ ")" (skipn_past _ _ _ _ H2)).
  cbn [token_type token_value TokenType_eqb first_char Ascii.eqb Bool.eqb andb].
  apply done_at; [reflexivity |].
  cbn [statement_tokens List.length]. rewrite length_app. cbn [List.length]. lia.
Qed.

Ltac token_tests :=
  cbn [token_type token_value TokenType_eqb first_char String.eqb Ascii.eqb Bool.eqb
       andb orb negb keyword_is].

Lemma parses_assign (x : string) (e : Expression) tokens pos rest st :
  skipn pos tokens = statement_tokens (S_assign x e) ++ rest ->
  ends_statement rest = true ->
  exists n,
    forall fuel,
      n <= fuel ->
      parse_statement fuel tokens pos st
      = Done (Some (statement_tree (S_assign x e)),
              pos + List.length (statement_tokens (S_assign x e))) st.
Proof.
  intros Htoks Hrest. cbn [statement_tokens app] in Htoks.
  pose proof (nth_error_next _ _ _ _ Htoks) as Ht.
  pose proof (skipn_next _ _ _ _ Htoks) as H1.
  pose proof (skipn_next _ _ _ _ H1) as H2.
  destruct (expression_parses e tokens (S (S pos)) _ st H2
                              (ends_statement_expression _ Hrest)) as [n He].
  exists (S (S n)). intros fuel Hfuel.
  destruct fuel as [| [| f]]; try lia.
  rewrite (parse_statement_unfold _ _ _ _ _ Ht).
  do 5 skip_alternative Ht.
  rewrite first_success_skip
    by (apply (skip_call _ _ _ _ _ Ht); rewrite (delimiter_at_next _ _ _ "(" H1);
        reflexivity).
  skip_alternative Ht.
  apply first_success_found.
  unfold parse_assignment_statement_step.
  rewrite (bind_done _ _ _ _ _ (token_at_token _ _ _ st Ht)). token_tests.
  rewrite (delimiter_at_next _ _ _ "[" H1). token_tests.
  unfold bind at 1. unfold ret at 1. cbn [fst snd].
  rewrite (operator_at_next _ _ _ "=" H1). token_tests.
  rewrite (bind_done _ _ _ _ _ (He (S f) ltac:(lia))). cbn [fst snd].
  apply done_at; [reflexivity |].
  cbn [statement_tokens List.length]. lia.
Qed.

Lemma parses_assign_element (x : string) (index e : Expression) tokens pos rest st :
  skipn pos tokens = statement_tokens (S_assign_element x index e) ++ rest ->
  ends_statement rest = true ->
  exists n,
    forall fuel,
      n <= fuel ->
      parse_statement fuel tokens pos st
      = Done (Some (statement_tree (S_assign_element x index e)),
              pos + List.length (statement_tokens (S_assign_element x index e))) st.
Proof.
  intros Htoks Hrest. cbn [statement_tokens app] in Htoks.
  rewrite <- app_assoc in Htoks. cbn [app] in Htoks.
  pose proof (nth_error_next _ _ _ _ Htoks) as Ht.
  pose proof (skipn_next _ _ _ _ Htoks) as H1.
  pose proof (skipn_next _ _ _ _ H1) as H2.
  pose proof (skipn_past _ _ _ _ H2) as H3.
  pose proof (skipn_next _ _ _ _ H3) as H4.
  pose proof (skipn_next _ _ _ _ H4) as H5.
  destruct (expression_parses index tokens (S (S pos)) _ st H2 eq_refl) as [ni Hi].
  destruct (expression_parses e tokens _ _ st H5 (ends_statement_expression _ Hrest))
    as [n He].
  exists (S (S (ni + n))). intros fuel Hfuel.
  destruct fuel as [| [| f]]; try lia.
  rewrite (parse_statement_unfold _ _ _ _ _ Ht).
  do 5 skip_alternative Ht.
  rewrite first_success_skip
    by (apply (skip_call _ _ _ _ _ Ht); rewrite (delimiter_at_next _ _ _ "(" H1);
        reflexivity).
  skip_alternative Ht.
  apply first_success_found.
  unfold parse_assignment_statement_step.
  rewrite (bind_done _ _ _ _ _ (token_at_token _ _ _ st Ht)). token_tests.
  rewrite (delimiter_at_next _ _ _ "[" H1). token_tests.
  assert (Haccess :
            parse_array_access_step tokens (parse_expression (S f) tokens) pos st
            = Done (Some (Syntax.array_access x (tree_of index)),
                    S (S (S pos) + List.length (tokens_of 0 index))) st).
  { unfold parse_array_access_step.
    rewrite (bind_done _ _ _ _ _ (token_at_token _ _ _ st Ht)). token_tests.
    rewrite (delimiter_at_next _ _ _ "[" H1). token_tests.
    rewrite (bind_done _ _ _ _ _ (Hi (S f) ltac:(lia))). cbn [fst snd].
    rewrite (delimiter_at_next _ _ _ "]" H3). token_tests.
    reflexivity. }
  rewrite (bind_done _ _ _ _ _ Haccess). cbn [fst snd].
  rewrite (operator_at_next _ _ _ "=" H4). token_tests.
  rewrite (bind_done _ _ _ _ _ (He (S f) ltac:(lia))). cbn [fst snd].
  apply done_at; [reflexivity |].
  cbn [statement_tokens List.length]. rewrite length_app. cbn [List.length]. lia.
Qed.

Lemma parses_return (e : Expression) tokens pos rest st :
  skipn pos tokens = statement_tokens (S_return e) ++ rest ->
  ends_statement rest = true ->
  exists n,
    forall fuel,
      n <= fuel ->
      parse_statement fuel tokens pos st
      = Done (Some (statement_tree (S_return e)),
              pos + List.length (statement_tokens (S_return e))) st.
Proof.
  intros Htoks Hrest. cbn [statement_tokens app] in Htoks.
  pose proof (nth_error_next _ _ _ _ Htoks) as Ht.
  pose proof (skipn_next _ _ _ _ Htoks) as H1.
  destruct (expression_parses e tokens (S pos) _ st H1
                              (ends_statement_expression _ Hrest)) as [n He].
  exists (S (S n)). intros fuel Hfuel.
  destruct fuel as [| [| f]]; try lia.
  rewrite (parse_statement_unfold _ _ _ _ _ Ht).
  do 4 skip_alternative Ht.
  apply first_success_found.
  unfold parse_return_statement_step.
  rewrite (keyword_at_token _ _ _ _ Ht). token_tests.
  rewrite (bind_done _ _ _ _ _ (He (S f) ltac:(lia))). cbn [fst snd].
  apply done_at; [reflexivity |].
  cbn [statement_tokens List.length]. lia.
Qed.

Lemma block_trees_linked b : exists node, Syntax.link_block (block_trees b) = Some node.
Proof. destruct b; cbn [block_trees Syntax.link_block]; eexists; reflexivity. Qed.

Lemma block_ends_expression b rest : ends_expression (block_tokens b ++ rest) = true.
Proof.
  destruct (block_starts b) as (t & ts & -> & Ht). cbn [app].
  apply ends_statement_expression. apply starts_ends_statement. exact Ht.
Qed.

Lemma parses_block b tokens pos rest st :
  block_parses b ->
  skipn pos tokens = block_tokens b ++ rest ->
  ends_block rest = true ->
  exists n,
    forall fuel,
      n <= fuel ->
      parse_block fuel tokens pos st
      = Done (Syntax.link_block (block_trees b), pos + List.length (block_tokens b)) st.
Proof.
  intros Hb Htoks Hrest. destruct (Hb tokens pos rest st [] Htoks Hrest) as [n Hn].
  exists (S n). intros fuel Hfuel. destruct fuel as [| f]; [lia |].
  cbn [parse_block]. apply Hn. lia.
Qed.

Lemma parses_if (c : Expression) (t : Block) tokens pos rest st :
  block_parses t ->
  skipn pos tokens = statement_tokens (S_if c t) ++ rest ->
  exists n,
    forall fuel,
      n <= fuel ->
      parse_statement fuel tokens pos st
      = Done (Some (statement_tree (S_if c t)),
              pos + List.length (statement_tokens (S_if c t))) st.
Proof.
  intros Hblock Htoks. cbn [statement_tokens app] in Htoks.
  rewrite <- !app_assoc in Htoks. cbn [app] in Htoks.
  pose proof (nth_error_next _ _ _ _ Htoks) as Ht.
  pose proof (skipn_next _ _ _ _ Htoks) as H1.
  pose proof (skipn_past _ _ _ _ H1) as H2.
  pose proof (skipn_past _ _ _ _ H2) as H3.
  destruct (expression_parses c tokens (S pos) _ st H1 (block_ends_expression _ _))
    as [nc Hc].
  destruct (parses_block t tokens _ _ st Hblock H2 eq_refl) as [nt Hthen].
  destruct (block_trees_linked t) as [then_branch Hlink].
  exists (S (S (S (nc + nt)))). intros fuel Hfuel.
  destruct fuel as [| [| f]]; try lia.
  rewrite (parse_statement_unfold _ _ _ _ _ Ht).
  skip_alternative Ht.
  apply first_success_found.
  cbn [parse_if_statement]. unfold parse_if_statement_step.
  rewrite (bind_done _ _ _ _ _ (token_at_token _ _ _ st Ht)). token_tests.
  rewrite (bind_done _ _ _ _ _ (Hc f ltac:(lia))). cbn [fst snd].
  rewrite (bind_done _ _ _ _ _ (Hthen f ltac:(lia))). cbn [fst snd].
  rewrite Hlink.
  rewrite (keyword_at_next _ _ _ "else" H3). token_tests.
  unfold bind at 1. unfold ret at 1. cbn [fst snd].
  rewrite (keyword_at_next _ _ _ "end" H3). token_tests.
  apply done_at.
  - cbn [statement_tree]. unfold Syntax.if_statement. rewrite Hlink. reflexivity.
  - cbn [statement_tokens List.length]. rewrite !length_app. cbn [List.length]. lia.
Qed.

Lemma parses_if_else (c : Expression) (t e : Block) tokens pos rest st :
  block_parses t ->
  block_parses e ->
  skipn pos tokens = statement_tokens (S_if_else c t e) ++ rest ->
  exists n,
    forall fuel,
      n <= fuel ->
      parse_statement fuel tokens pos st
      = Done (Some (statement_tree (S_if_else c t e)),
              pos + List.length (statement_tokens (S_if_else c t e))) st.
Proof.
  intros Hblock Hblock' Htoks. cbn [statement_tokens app] in Htoks.
  rewrite <- !app_assoc in Htoks. cbn [app] in Htoks.
  rewrite <- !app_assoc in Htoks. cbn [app] in Htoks.
  pose proof (nth_error_next _ _ _ _ Htoks) as Ht.
  pose proof (skipn_next _ _ _ _ Htoks) as H1.
  pose proof (skipn_past _ _ _ _ H1) as H2.
  pose proof (skipn_past _ _ _ _ H2) as H3.
  pose proof (skipn_next _ _ _ _ H3) as H4.
  pose proof (skipn_past _ _ _ _ H4) as H5.
  destruct (expression_parses c tokens (S pos) _ st H1 (block_ends_expression _ _))
    as [nc Hc].
  destruct (parses_block t tokens _ _ st Hblock H2 eq_refl) as [nt Hthen].
  destruct (parses_block e tokens _ _ st Hblock' H4 eq_refl) as [ne Helse].
  destruct (block_trees_linked t) as [then_branch Hlink].
  destruct (block_trees_linked e) as [else_branch Hlink'].
  exists (S (S (S (nc + nt + ne)))). intros fuel Hfuel.
  destruct fuel as [| [| f]]; try lia.
  rewrite (parse_statement_unfold _ _ _ _ _ Ht).
  skip_alternative Ht.
  apply first_success_found.
  cbn [parse_if_statement]. unfold parse_if_statement_step.
  rewrite (bind_done _ _ _ _ _ (token_at_token _ _ _ st Ht)). token_tests.
  rewrite (bind_done _ _ _ _ _ (Hc f ltac:(lia))). cbn [fst snd].
  rewrite (bind_done _ _ _ _ _ (Hthen f ltac:(lia))). cbn [fst snd].
  rewrite Hlink.
  rewrite (keyword_at_next _ _ _ "else" H3). token_tests.
  rewrite bind_assoc.
  rewrite (bind_done _ _ _ _ _ (Helse f ltac:(lia))). cbn [fst snd].
  rewrite Hlink'.
  unfold bind at 1. unfold ret at 1. cbn [fst snd].
  rewrite (keyword_at_next _ _ _ "end" H5). token_tests.
  apply done_at.
  - cbn [statement_tree]. unfold Syntax.if_statement. rewrite Hlink, Hlink'. reflexivity.
  - cbn [statement_tokens List.length]. rewrite !length_app. cbn [List.length].
    rewrite !length_app. cbn [List.length]. lia.
Qed.

Lemma parses_for (x : string) (e : Expression) (body : Block) tokens pos rest st :
  block_parses body ->
  skipn pos tokens = statement_tokens (S_for x e body) ++ rest ->
  exists n,
    forall fuel,
      n <= fuel ->
      parse_statement fuel tokens pos st
      = Done (Some (statement_tree (S_for x e body)),
              pos + List.length (statement_tokens (S_for x e body))) st.
Proof.
  intros Hblock Htoks. cbn [statement_tokens app] in Htoks.
  rewrite <- !app_assoc in Htoks. cbn [app] in Htoks.
  pose proof (nth_error_next _ _ _ _ Htoks) as Ht.
  pose proof (skipn_next _ _ _ _ Htoks) as H1.
  pose proof (skipn_next _ _ _ _ H1) as H2.
  pose proof (skipn_next _ _ _ _ H2) as H3.
  pose proof (skipn_past _ _ _ _ H3) as H4.
  pose proof (skipn_past _ _ _ _ H4) as H5.
  destruct (expression_parses e tokens _ _ st H3 (block_ends_expression _ _)) as [ne He].
  destruct (parses_block body tokens _ _ st Hblock H4 eq_refl) as [nb Hbody].
  destruct (block_trees_linked body) as [first Hlink].
  exists (S (S (S (ne + nb)))). intros fuel Hfuel.
  destruct fuel as [| [| f]]; try lia.
  rewrite (parse_statement_unfold _ _ _ _ _ Ht).
  apply first_success_found.
  cbn [parse_for_statement]. unfold parse_for_statement_step.
  rewrite (keyword_at_token _ _ _ _ Ht). token_tests.
  rewrite (nth_error_next _ _ _ _ H1). token_tests.
  rewrite (keyword_at_next _ _ _ "in" H2). token_tests.
  rewrite (bind_done _ _ _ _ _ (He f ltac:(lia))). cbn [fst snd].
  rewrite (bind_done _ _ _ _ _ (Hbody f ltac:(lia))). cbn [fst snd].
  rewrite Hlink.
  rewrite (keyword_at_next _ _ _ "end" H5). token_tests.
  apply done_at.
  - cbn [statement_tree]. unfold Syntax.for_statement. rewrite Hlink. reflexivity.
  - cbn [statement_tokens List.length]. rewrite !length_app. cbn [List.length]. lia.
Qed.

Lemma parses_while (c : Expression) (body : Block) tokens pos rest st :
  block_parses body ->
  skipn pos tokens = statement_tokens (S_while c body) ++ rest ->
  exists n,
    forall fuel,
      n <= fuel ->
      parse_statement fuel tokens pos st
      = Done (Some (statement_tree (S_while c body)),
              pos + List.length (statement_tokens (S_while c body))) st.
Proof.
  intros Hblock Htoks. cbn [statement_tokens app] in Htoks.
  rewrite <- !app_assoc in Htoks. cbn [app] in Htoks.
  pose proof (nth_error_next _ _ _ _ Htoks) as Ht.
  pose proof (skipn_next _ _ _ _ Htoks) as H1.
  pose proof (skipn_past _ _ _ _ H1) as H2.
  pose proof (skipn_past _ _ _ _ H2) as H3.
  destruct (expression_parses c tokens (S pos) _ st H1 (block_ends_expression _ _))
    as [nc Hc].
  destruct (parses_block body tokens _ _ st Hblock H2 eq_refl) as [nb Hbody].
  destruct (block_trees_linked body) as [first Hlink].
  exists (S (S (S (nc + nb)))). intros fuel Hfuel.
  destruct fuel as [| [| f]]; try lia.
  rewrite (parse_statement_unfold _ _ _ _ _ Ht).
  do 2 skip_alternative Ht.
  apply first_success_found.
  cbn [parse_while_statement]. unfold parse_while_statement_step.
  rewrite (keyword_at_token _ _ _ _ Ht). token_tests.
  rewrite (bind_done _ _ _ _ _ (Hc f ltac:(lia))). cbn [fst snd].
  rewrite (bind_done _ _ _ _ _ (Hbody f ltac:(lia))). cbn [fst snd].
  rewrite Hlink.
  rewrite (keyword_at_next _ _ _ "end" H3). token_tests.
  apply done_at.
  - cbn [statement_tree]. unfold Syntax.while_statement. rewrite Hlink. reflexivity.
  - cbn [statement_tokens List.length]. rewrite !length_app. cbn [List.length]. lia.
Qed.

Lemma block_loop_ends f tokens stmts pos rest st :
  skipn pos tokens = rest -> ends_block rest = true ->
  parse_block_loop (S f) tokens stmts pos st = Done (Syntax.link_block stmts, pos) st.
Proof.
  intros Htoks Hrest. cbn [parse_block_loop]. unfold parse_block_loop_step.
  rewrite nth_error_at, Htoks. destruct rest as [| t rest]; [reflexivity |].
  cbn [hd_error]. unfold ends_block in Hrest. rewrite Hrest. reflexivity.
Qed.

Lemma block_loop_statement f tokens stmts pos t rest st node pos' :
  skipn pos tokens = t :: rest -> starts_statement t = true ->
  parse_statement f tokens pos st = Done (Some node, pos') st ->
  parse_block_loop (S f) tokens stmts pos st
  = parse_block_loop f tokens (stmts ++ [node]) pos' st.
Proof.
  intros Htoks Ht Hs. cbn [parse_block_loop]. unfold parse_block_loop_step.
  rewrite (nth_error_next _ _ _ _ Htoks).
  assert (Hgo : TokenType_eqb (token_type t) TOKEN_KEYWORD
                && (String.eqb (token_value t) "else" || String.eqb (token_value t) "end")
                = false).
  { unfold starts_statement in Ht. destruct t as [type v]. cbn [token_type token_value] in *.
    destruct type; try reflexivity; try discriminate Ht.
    cbn [TokenType_eqb orb andb] in *. apply negb_true_iff in Ht. exact Ht. }
  rewrite Hgo. rewrite (bind_done _ _ _ _ _ Hs). reflexivity.
Qed.

Lemma parses_last s : statement_parses s -> block_parses (B_last s).
Proof.
  intros Hs tokens pos rest st stmts Htoks Hrest. cbn [block_tokens block_trees] in *.
  destruct (Hs tokens pos rest st Htoks (ends_block_statement _ Hrest)) as [n Hn].
  destruct (statement_starts s) as (t & ts & Hstart & Ht).
  exists (S (S n)). intros fuel Hfuel. destruct fuel as [| [| f]]; try lia.
  assert (Htoks' := Htoks). rewrite Hstart in Htoks'. cbn [app] in Htoks'.
  rewrite (block_loop_statement _ _ _ _ _ _ _ _ _ Htoks' Ht (Hn (S f) ltac:(lia))).
  apply block_loop_ends with (rest := rest); [| exact Hrest].
  exact (skipn_past _ _ _ _ Htoks).
Qed.

Lemma parses_then s b : statement_parses s -> block_parses b -> block_parses (B_then s b).
Proof.
  intros Hs Hb tokens pos rest st stmts Htoks Hrest. cbn [block_tokens block_trees] in *.
  rewrite <- app_assoc in Htoks.
  assert (Hnext : ends_statement (block_tokens b ++ rest) = true).
  { destruct (block_starts b) as (t & ts & -> & Ht). apply starts_ends_statement. exact Ht. }
  destruct (Hs tokens pos _ st Htoks Hnext) as [n Hn].
  destruct (Hb tokens _ rest st (stmts ++ [statement_tree s]) (skipn_past _ _ _ _ Htoks) Hrest)
    as [m Hm].
  destruct (statement_starts s) as (t & ts & Hstart & Ht).
  exists (S (n + m)). intros fuel Hfuel. destruct fuel as [| f]; try lia.
  assert (Htoks' := Htoks). rewrite Hstart in Htoks'. cbn [app] in Htoks'.
  rewrite (block_loop_statement _ _ _ _ _ _ _ _ _ Htoks' Ht (Hn f ltac:(lia))).
  rewrite (Hm f ltac:(lia)). rewrite <- app_assoc. cbn [app].
  rewrite length_app, Nat.add_assoc. reflexivity.
Qed.

Lemma statements_and_blocks_parse :
  (forall s, statement_parses s) /\ (forall b, block_parses b).
Proof.
  apply statement_block_ind.
  - intros e tokens pos rest st Htoks _. exact (parses_print e tokens pos rest st Htoks).
  - intros x e tokens pos rest st. apply parses_assign.
  - intros x index e tokens pos rest st. apply parses_assign_element.
  - intros e tokens pos rest st. apply parses_return.
  - intros c t Ht tokens pos rest st Htoks _. exact (parses_if c t tokens pos rest st Ht Htoks).
  - intros c t Ht e He tokens pos rest st Htoks _.
    exact (parses_if_else c t e tokens pos rest st Ht He Htoks).
  - intros x e body Hbody tokens pos rest st Htoks _.
    exact (parses_for x e body tokens pos rest st Hbody Htoks).
  - intros c body Hbody tokens pos rest st Htoks _.
    exact (parses_while c body tokens pos rest st Hbody Htoks).
  - intros s Hs. apply parses_last. exact Hs.
  - intros s Hs b Hb. apply parses_then; assumption.
Qed.

(** The parser inverts the writing of statements.  The tokens of a
    statement (a print, an assignment to a variable or to an element, a
    return, an [if] with or without [else], a [for] or a [while], with
    blocks of such statements), followed by a keyword, a name or
    nothing, parse to the tree of the statement with any sufficient
    fuel; the position ends after its tokens and nothing is written. *)
Theorem statements_are_parsed_as_they_are_written
        (s : Statement) (tokens : list Token) (pos : nat) (rest : list Token)
        (st : State) :
  skipn pos tokens = statement_tokens s ++ rest ->
  ends_statement rest = true ->
  exists n,
    forall fuel,
      n <= fuel ->
      parse_statement fuel tokens pos st
      = Done (Some (statement_tree s), pos + List.length (statement_tokens s)) st.
Proof. exact (proj1 statements_and_blocks_parse s tokens pos rest st). Qed.

(** ** Programs run as their statements *)

Section Programs.

Context {libc : LibC}.








End Programs.

(** ** Instances of the further properties *)

Section FurtherInstances.

Import Syntax.
Import Example.
Import Sample.
Local Open Scope string_scope.

#[local] Existing Instance RefLibC.libc.

(** A third key stored into the two entries of [a]. *)
Lemma stored_value_is_found_witness :
  well_formed_array array_of_a
  /\ exists a',
       set_assoc_array_value array_of_a "z" "3" = Some a'
       /\ get_assoc_array_value a' "z" = Some "3"
       /\ (forall k', k' <> "z" ->
                      get_assoc_array_value a' k' = get_assoc_array_value array_of_a k')
       /\ well_formed_array a'.
Proof.
  assert (H : well_formed_array array_of_a) by (split; vm_compute; repeat constructor).
  split; [exact H | exact (stored_value_is_found array_of_a "z" "3" H)].
Defined.

(** The key [z] is new to [a] and goes to the end; the key [x] is not
    and stays where it is. *)
Lemma store_keeps_the_order_of_keys_witness :
  set_assoc_array_value array_of_a "z" "3"
  = Some (mkArray (entries_of_a ++ [mkPair "z" "3"]) 4)
  /\ keys (mkArray (entries_of_a ++ [mkPair "z" "3"]) 4) = ["x"; "y"; "z"]
  /\ (NoDup (keys array_of_a) -> NoDup (keys (mkArray (entries_of_a ++ [mkPair "z" "3"]) 4)))
  /\ capacity array_of_a <= 4.
Proof.
  assert (H : set_assoc_array_value array_of_a "z" "3"
              = Some (mkArray (entries_of_a ++ [mkPair "z" "3"]) 4)) by reflexivity.
  split; [exact H | exact (store_keeps_the_order_of_keys array_of_a _ "z" "3" H)].
Defined.

(** A second key stored into [x], which holds [k -> 10]. *)
Lemma variable_holds_what_was_stored_witness :
  can_store "x" singleton_x
  /\ exists st' i,
       set_variable_value "x" (Some "j") "11" singleton_x = Some st'
       /\ get_variable "x" st' = Some i
       /\ get_assoc_array_value (var_array (slot (variables st') i)) "j" = Some "11"
       /\ (forall other, other <> "x" ->
             get_variable other st' = get_variable other singleton_x
             /\ forall j, get_variable other singleton_x = Some j ->
                          slot (variables st') j = slot (variables singleton_x) j)
       /\ functions st' = functions singleton_x
       /\ scope_stack st' = scope_stack singleton_x
       /\ output st' = output singleton_x.
Proof.
  assert (H : can_store "x" singleton_x)
    by (split; vm_compute; repeat constructor).
  split; [exact H | exact (variable_holds_what_was_stored "x" (Some "j") "11" singleton_x H)].
Defined.

(** [print(a)] at the top level adds one line. *)
Lemma execution_only_appends_to_the_output_witness :
  execute_ast 4 (Some (print (literal "7"))) two_entries = Done tt (printf "7" two_entries)
  /\ functions (printf "7" two_entries) = functions two_entries
  /\ exists lines, output (printf "7" two_entries) = (output two_entries ++ lines)%list.
Proof.
  assert (H : execute_ast 4 (Some (print (literal "7"))) two_entries
              = Done tt (printf "7" two_entries)) by (vm_compute; reflexivity).
  split; [exact H |].
  exact (proj2 (proj2 (execution_only_appends_to_the_output 4 two_entries)) _ _ H).
Defined.

(** The call [f(1)] binds one variable in its frame. *)
Lemma variable_count_never_exceeds_maximum_witness :
  variable_count (initial_state [f_returns_5]) <= MAX_VARIABLES
  /\ execute_function_call 6 f_of_1 (initial_state [f_returns_5])
     = Done (return_number (Double.of_int 5)) (pop_scope frame_of_f_1)
  /\ variable_count (pop_scope frame_of_f_1) <= MAX_VARIABLES.
Proof.
  assert (Hcount : variable_count (initial_state [f_returns_5]) <= MAX_VARIABLES)
    by (simpl; apply Nat.le_0_l).
  assert (Hcall : execute_function_call 6 f_of_1 (initial_state [f_returns_5])
                  = Done (return_number (Double.of_int 5)) (pop_scope frame_of_f_1))
    by (vm_compute; reflexivity).
  split; [exact Hcount | split; [exact Hcall |]].
  exact (proj1 (proj2 (variable_count_never_exceeds_maximum
                         6 (initial_state [f_returns_5]) Hcount))
               f_of_1 _ _ Hcall).
Defined.

(** [1 + 2] *)
Lemma binary_operation_yields_a_number_witness :
  evaluate_expression 2 (Some (binary_op OP_ADD (literal "1") (literal "2")))
                      EVAL_PRINT (initial_state [])
  = Done (Some (RESULT_NUMBER (Double.of_int 3))) (initial_state [])
  /\ exists fuel' x y st1,
       2 = S fuel'
       /\ evaluate_expression fuel' (Some (literal "1")) EVAL_ARITHMETIC (initial_state [])
          = Done (Some (RESULT_NUMBER x)) st1
       /\ evaluate_expression fuel' (Some (literal "2")) EVAL_ARITHMETIC st1
          = Done (Some (RESULT_NUMBER y)) (initial_state [])
       /\ RESULT_NUMBER (Double.of_int 3) = RESULT_NUMBER (apply_operator OP_ADD x y).
Proof.
  assert (H : evaluate_expression 2 (Some (binary_op OP_ADD (literal "1") (literal "2")))
                                  EVAL_PRINT (initial_state [])
              = Done (Some (RESULT_NUMBER (Double.of_int 3))) (initial_state []))
    by (vm_compute; reflexivity).
  split; [exact H |].
  exact (binary_operation_yields_a_number
           2 OP_ADD (Some (literal "1")) (Some (literal "2")) None EVAL_PRINT
           (initial_state []) (initial_state []) (RESULT_NUMBER (Double.of_int 3)) H).
Defined.

(** [print(x < 3)] after [x = 1] reports an error. *)
Lemma comparison_of_a_variable_fails_in_print_context_witness :
  is_arithmetic_operator OP_LESS_THAN = false
  /\ is_identifier (Some (identifier "x")) = true
  /\ exists res,
       evaluate_expression 2 (Some x_below_3) EVAL_PRINT x_is_1
       = Done res
              (printf "Error: Both operands must be numbers for arithmetic or relational operations"
                      x_is_1)
       /\ res = None.
Proof.
  assert (H : evaluate_expression 2 (Some x_below_3) EVAL_PRINT x_is_1
              = Done None
                     (printf "Error: Both operands must be numbers for arithmetic or relational operations"
                             x_is_1))
    by (vm_compute; reflexivity).
  split; [reflexivity | split; [reflexivity |]].
  exists None. split; [exact H |].
  exact (comparison_of_a_variable_fails_in_print_context
           2 OP_LESS_THAN (Some (identifier "x")) (Some (literal "3")) None
           x_is_1 _ None eq_refl (or_introl eq_refl) H).
Defined.

(** [1 / 0] is infinite. *)
Lemma division_by_zero_is_not_an_error_witness :
  evaluate_expression 1 (Some (literal "1")) EVAL_ARITHMETIC (initial_state [])
  = Done (Some (RESULT_NUMBER (Double.of_int 1))) (initial_state [])
  /\ evaluate_expression 1 (Some (literal "0")) EVAL_ARITHMETIC (initial_state [])
     = Done (Some (RESULT_NUMBER (S754_zero false))) (initial_state [])
  /\ evaluate_expression 2 (Some (binary_op OP_DIVIDE (literal "1") (literal "0")))
                         EVAL_PRINT (initial_state [])
     = Done (Some (RESULT_NUMBER (S754_infinity false))) (initial_state []).
Proof.
  assert (H1 : evaluate_expression 1 (Some (literal "1")) EVAL_ARITHMETIC (initial_state [])
               = Done (Some (RESULT_NUMBER (Double.of_int 1))) (initial_state []))
    by (vm_compute; reflexivity).
  assert (H0 : evaluate_expression 1 (Some (literal "0")) EVAL_ARITHMETIC (initial_state [])
               = Done (Some (RESULT_NUMBER (S754_zero false))) (initial_state []))
    by (vm_compute; reflexivity).
  split; [exact H1 | split; [exact H0 |]].
  exact (division_by_zero_is_not_an_error
           1 (Some (literal "1")) (Some (literal "0")) None EVAL_PRINT
           (initial_state []) (initial_state []) (initial_state [])
           (Double.of_int 1) false H1 H0).
Defined.

(** [len(a)] for the two entries of [a]. *)
Lemma len_counts_the_entries_of_a_variable_witness :
  get_variable "a" two_entries = Some 0
  /\ evaluate_expression 3 (Some (function_call "len" [identifier "a"]))
                         EVAL_PRINT two_entries
     = Done (Some (RESULT_NUMBER (Double.of_int 2))) two_entries.
Proof.
  split; [reflexivity |].
  exact (len_counts_the_entries_of_a_variable
           0 "a" None None None None None EVAL_PRINT two_entries 0 eq_refl).
Defined.

(** [key(a)] for the two entries of [a]. *)
Lemma key_returns_the_first_key_or_the_index_witness :
  get_variable "a" two_entries = Some 0
  /\ evaluate_expression 2 (Some (function_call "key" [identifier "a"]))
                         EVAL_PRINT two_entries
     = Done (Some (RESULT_STRING "x")) two_entries.
Proof.
  split; [reflexivity |].
  exact (proj1 (key_returns_the_first_key_or_the_index 0 None None None None None EVAL_PRINT)
               "a" two_entries 0 (mkPair "x" "1") [mkPair "y" "2"] eq_refl eq_refl).
Defined.


(** [for k in 7 print(k) end] prints 7 once. *)
Lemma for_loop_over_a_scalar_runs_once_witness :
  evaluate_expression 3 (Some (literal "7")) EVAL_PRINT (initial_state [])
  = Done (Some (RESULT_NUMBER (Double.of_int 7))) (initial_state [])
  /\ output after_loop_over_7 = ["7"]
  /\ execute_for_statement 6 loop_over_7 (initial_state []) = Done tt after_loop_over_7.
Proof.
  assert (He : evaluate_expression 3 (Some (literal "7")) EVAL_PRINT (initial_state [])
               = Done (Some (RESULT_NUMBER (Double.of_int 7))) (initial_state []))
    by (vm_compute; reflexivity).
  assert (Hi : for_iteration (execute_block 3) "k" (link_block [print (identifier "k")])
                             (mkPair "" "7") (initial_state [])
               = Done tt after_loop_over_7) by (vm_compute; reflexivity).
  split; [exact He | split; [vm_compute; reflexivity |]].
  exact (for_loop_over_a_scalar_runs_once
           3 "k" (Some (literal "7")) (link_block [print (identifier "k")]) None None None
           (initial_state []) (initial_state []) after_loop_over_7
           (RESULT_NUMBER (Double.of_int 7)) "7" He eq_refl Hi).
Defined.

(** After [x = 1] the call [f()] of [def f() return x end] gives 0 and
    two errors. *)
Lemma function_body_cannot_read_the_variables_of_the_caller_witness :
  get_variable "x" x_is_1_beside_f = Some 0
  /\ find_function "f" x_is_1_beside_f = Some (0, f_returns_x)
  /\ scope_depth x_is_1_beside_f < MAX_SCOPES
  /\ evaluate_expression 5 (Some (function_call "f" [])) EVAL_PRINT x_is_1_beside_f
     = Done (Some (RESULT_NUMBER Double.zero))
            (mkState (functions x_is_1_beside_f) (variables x_is_1_beside_f) 0
                     (scope_stack x_is_1_beside_f)
                     (output x_is_1_beside_f
                      ++ [ "Error: Undefined variable '" +++ "x" +++ "'";
                           "Error: Failed to evaluate return expression" ])%list).
Proof.
  assert (Hdepth : scope_depth x_is_1_beside_f < MAX_SCOPES)
    by (vm_compute; repeat constructor).
  split; [reflexivity | split; [reflexivity | split; [exact Hdepth |]]].
  exact (function_body_cannot_read_the_variables_of_the_caller
           0 "f" "x" None None None None None None None None None None
           EVAL_PRINT x_is_1_beside_f 0 f_returns_x
           eq_refl eq_refl eq_refl eq_refl Hdepth).
Defined.

(** [b = a] with the two entries of [a]. *)
Lemma array_assignment_copies_the_entries_witness :
  NoDup (keys (deref two_entries (InVariable 0)))
  /\ not_the_array_of "b" (InVariable 0) two_entries
  /\ exists st' i,
       set_variable_assoc_array "b" (InVariable 0) two_entries = Some st'
       /\ get_variable "b" st' = Some i
       /\ pairs (var_array (slot (variables st') i)) = pairs (deref two_entries (InVariable 0))
       /\ InVariable 0 <> InVariable i
       /\ deref st' (InVariable 0) = deref two_entries (InVariable 0).
Proof.
  assert (Hkeys : NoDup (keys (deref two_entries (InVariable 0)))).
  { change (NoDup ["x"; "y"]).
    repeat constructor; simpl; intuition discriminate. }
  assert (Hother : not_the_array_of "b" (InVariable 0) two_entries).
  { split; [vm_compute; repeat constructor | vm_compute; discriminate]. }
  assert (Hroom : get_variable "b" two_entries = None ->
                  variable_count two_entries < MAX_VARIABLES).
  { intros _. vm_compute. repeat constructor. }
  split; [exact Hkeys | split; [exact Hother |]].
  exact (array_assignment_copies_the_entries "b" (InVariable 0) two_entries
                                             Hkeys Hother Hroom).
Defined.

(** [a = a] with the two entries of [a] leaves [a] empty. *)
Lemma self_assignment_empties_an_array_witness :
  get_variable "a" two_entries = Some 0
  /\ size (var_array (slot (variables two_entries) 0)) <> 1
  /\ execute_ast 3 (Some (assignment (identifier "a") (identifier "a"))) two_entries
     = Done tt (set_array 0 init_assoc_array two_entries).
Proof.
  assert (Hsize : size (var_array (slot (variables two_entries) 0)) <> 1)
    by (vm_compute; discriminate).
  split; [reflexivity | split; [exact Hsize |]].
  exact (self_assignment_empties_an_array
           0 "a" None None None None None None None two_entries 0 eq_refl Hsize).
Defined.

(** The line [print(1+2*3)] on a line of the prompt. *)
Lemma short_lines_are_tokenized_within_bounds_witness :
  String.length "print(1+2*3)" < MAX_TOKEN_LENGTH
  /\ String.length "print(1+2*3)" <= MAX_TOKENS
  /\ exists tokens st',
       tokenize_line MAX_TOKENS "print(1+2*3)" (initial_state []) = Done tokens st'
       /\ List.length tokens <= String.length "print(1+2*3)"
       /\ frame st' = frame (initial_state []).
Proof.
  assert (H1 : String.length "print(1+2*3)" < MAX_TOKEN_LENGTH)
    by (vm_compute; repeat constructor).
  assert (H2 : String.length "print(1+2*3)" <= MAX_TOKENS)
    by (vm_compute; repeat constructor).
  split; [exact H1 | split; [exact H2 |]].
  exact (short_lines_are_tokenized_within_bounds
           MAX_TOKENS "print(1+2*3)" (initial_state []) H1 H2).
Defined.

(** The tokens of [x = 10]. *)
Lemma tokens_are_well_formed_witness :
  tokenize_line MAX_TOKENS "x = 10" (initial_state [])
  = Done [mkToken TOKEN_IDENTIFIER "x"; mkToken TOKEN_OPERATOR "=";
          mkToken TOKEN_NUMBER "10"]
         (initial_state [])
  /\ forallb well_formed_token
             [mkToken TOKEN_IDENTIFIER "x"; mkToken TOKEN_OPERATOR "=";
              mkToken TOKEN_NUMBER "10"]
     = true.
Proof.
  assert (H : tokenize_line MAX_TOKENS "x = 10" (initial_state [])
              = Done [mkToken TOKEN_IDENTIFIER "x"; mkToken TOKEN_OPERATOR "=";
                      mkToken TOKEN_NUMBER "10"]
                     (initial_state []))
    by (vm_compute; reflexivity).
  split; [exact H |].
  exact (tokens_are_well_formed MAX_TOKENS "x = 10" (initial_state []) (initial_state [])
                                _ H).
Defined.

(** [x = 1 # note]: the tokens of [x = 1], then the comment. *)
Lemma a_comment_ends_the_tokenization_witness :
  string_forall outside_literals_and_comments "x = 1 " = true
  /\ tokenize_line MAX_TOKENS ("x = 1 " ++ String "#" " note") (initial_state [])
     = bind (tokenize_line MAX_TOKENS "x = 1 ")
            (fun tokens =>
               emit MAX_TOKENS tokens TOKEN_COMMENT
                    (substring 0 (MAX_TOKEN_LENGTH - 1) (String "#" " note")) ret)
            (initial_state []).
Proof.
  split; [reflexivity |].
  exact (a_comment_ends_the_tokenization MAX_TOKENS "x = 1 " " note" (initial_state [])
                                         eq_refl).
Defined.

(** Three parentheses do not fit into an array of two tokens. *)
Lemma too_many_tokens_overflow_the_array_witness :
  string_forall delimiter_character "(((" = true
  /\ 2 < String.length "((("
  /\ tokenize_line 2 "(((" (initial_state []) = Undefined.
Proof.
  assert (H : 2 < String.length "(((") by (simpl; lia).
  split; [reflexivity | split; [exact H |]].
  exact (too_many_tokens_overflow_the_array 2 "(((" (initial_state []) eq_refl H).
Defined.

(** A script of one comment. *)
Lemma a_script_that_starts_with_a_comment_only_reports_an_error_witness :
  string_forall isspace " " = true
  /\ String.length (" " ++ String "#" " note") < MAX_LINE_LENGTH * 1000
  /\ run_script 3 (" " ++ String "#" " note") (initial_state [])
     = Done tt (printf "Error: Unrecognized statement starting with '# note'"
                       (initial_state [])).
Proof.
  assert (H : String.length (" " ++ String "#" " note") < MAX_LINE_LENGTH * 1000).
  { apply (Nat.lt_le_trans _ (MAX_LINE_LENGTH * 1)).
    - vm_compute. repeat constructor.
    - apply Nat.mul_le_mono_l. apply Nat.le_succ_l. apply Nat.lt_0_succ. }
  split; [reflexivity | split; [exact H |]].
  exact (a_script_that_starts_with_a_comment_only_reports_an_error
           0 " " " note" (initial_state []) eq_refl H).
Defined.

(** The argument of [print((1 + x) * a["k"])]. *)
Lemma expressions_are_parsed_as_they_are_written_witness :
  skipn 2 print_sum_times_element
  = (tokens_of 0 sum_times_element ++ [mkToken TOKEN_DELIMITER ")"])%list
  /\ ends_expression [mkToken TOKEN_DELIMITER ")"] = true
  /\ exists n,
       forall fuel,
         n <= fuel ->
         parse_expression fuel print_sum_times_element 2 (initial_state [])
         = Done (Some (tree_of sum_times_element),
                 2 + List.length (tokens_of 0 sum_times_element))
                (initial_state []).
Proof.
  split; [reflexivity | split; [reflexivity |]].
  exact (expressions_are_parsed_as_they_are_written
           sum_times_element print_sum_times_element 2 [mkToken TOKEN_DELIMITER ")"]
           (initial_state []) eq_refl eq_refl).
Defined.

(** The tokens of [x = 10] and their text. *)
Lemma tokens_are_read_as_they_are_written_witness :
  forallb writable [mkToken TOKEN_IDENTIFIER "x"; mkToken TOKEN_OPERATOR "=";
                    mkToken TOKEN_NUMBER "10"] = true
  /\ text_of [mkToken TOKEN_IDENTIFIER "x"; mkToken TOKEN_OPERATOR "=";
              mkToken TOKEN_NUMBER "10"] = "x = 10 "
  /\ tokenize_line MAX_TOKENS "x = 10 " (initial_state [])
     = Done [mkToken TOKEN_IDENTIFIER "x"; mkToken TOKEN_OPERATOR "=";
             mkToken TOKEN_NUMBER "10"]
            (initial_state []).
Proof.
  assert (Hroom : List.length [mkToken TOKEN_IDENTIFIER "x"; mkToken TOKEN_OPERATOR "=";
                               mkToken TOKEN_NUMBER "10"] <= MAX_TOKENS)
    by (vm_compute; repeat constructor).
  split; [reflexivity | split; [reflexivity |]].
  exact (tokens_are_read_as_they_are_written
           MAX_TOKENS [mkToken TOKEN_IDENTIFIER "x"; mkToken TOKEN_OPERATOR "=";
                       mkToken TOKEN_NUMBER "10"]
           (initial_state []) eq_refl Hroom).
Defined.

(** The loop [while i < 3 print(i) i = i + 1 end]. *)
Lemma statements_are_parsed_as_they_are_written_witness :
  skipn 0 (statement_tokens count_to_3) = (statement_tokens count_to_3 ++ [])%list
  /\ ends_statement [] = true
  /\ exists n,
       forall fuel,
         n <= fuel ->
         parse_statement fuel (statement_tokens count_to_3) 0 (initial_state [])
         = Done (Some (while_statement
                         (binary_op OP_LESS_THAN (identifier "i") (literal "3"))
                         [print (identifier "i");
                          assignment (identifier "i")
                                     (binary_op OP_ADD (identifier "i") (literal "1"))]),
                 0 + List.length (statement_tokens count_to_3))
                (initial_state []).
Proof.
  split; [reflexivity | split; [reflexivity |]].
  exact (statements_are_parsed_as_they_are_written
           count_to_3 (statement_tokens count_to_3) 0 [] (initial_state [])
           eq_refl eq_refl).
Defined.



(** ** Scripts as text

    The documented programs, from their text to the lines that they
    write. *)

Example script_prints_arithmetic : script_output "print(1+2*3)" = Some ["7"].
Proof. vm_compute. reflexivity. Qed.

Example script_prints_variable : script_output "x = 10 print(x)" = Some ["10"].
Proof. vm_compute. reflexivity. Qed.

Example script_prints_array_and_loops :
  script_output "a['lemon'] = 3 a['lime'] = 5 print(a) for k in a print(k) end"
  = Some ["{" +++ pairs_text [mkPair "lemon" "3"; mkPair "lime" "5"] +++ "}"; "3"; "5"].
Proof. vm_compute. reflexivity. Qed.

Example script_prints_square :
  script_output "def square(n) return n*n end print(square(7))" = Some ["49"].
Proof. vm_compute. reflexivity. Qed.

Example script_prints_while :
  script_output "i = 0 while i < 3 print(i) i = i + 1 end" = Some ["0"; "1"; "2"].
Proof. vm_compute. reflexivity. Qed.

End FurtherInstances.
